(** * The APSViz supervisor: run state machine and reconciliation loop

    A shallow embedding of [supervisor/src/job_supervisor.py].

    - Python strings are [string]; the string methods the supervisor calls
      ([startswith], [find], [replace], [lower]) are in [PyStr].
    - [JobStatus] is an [int] enumeration: statuses are [Z] values compared
      with [=?], as Python's [==] does on the members.  Two members carry
      the value 80, so they are one value here as they are one member there.
    - [JobType] is a [str] enumeration: an inductive type with the string
      value of every member.
    - A run is the dictionary built by [get_incomplete_runs]: a record.
    - The database, the cluster driver, the Slack client and the
      configuration file are outside the module.  Each call to them is an
      event appended to a history; what the call returns, or raises, is
      given by an environment that sees the history so far.
    - Code that mutates the run and may raise is written in a state and
      exception monad: the mutations made before an exception are kept, as
      they are on a Python dictionary. *)

From Stdlib Require Import ZArith Ascii String List Lia.
From stdpp Require Import base decidable option list strings gmap.

Local Open Scope string_scope.
Local Open Scope list_scope.
Local Open Scope Z_scope.

(** ** Python string methods *)

Module PyStr.

(** [s.startswith(pre)] *)
Fixpoint startswith (s pre : string) {struct pre} : bool :=
  match pre with
  | EmptyString => true
  | String c pre' =>
      match s with
      | EmptyString => false
      | String d s' => if decide (c = d) then startswith s' pre' else false
      end
  end.

(** [s.find(sub)] searched from offset [i]: the lowest index where [sub]
    occurs, or -1. *)
Fixpoint find_from (i : Z) (s sub : string) : Z :=
  if startswith s sub then i
  else match s with
       | EmptyString => -1
       | String _ s' => find_from (i + 1) s' sub
       end.

Definition find (s sub : string) : Z := find_from 0 s sub.

(** [s.replace(old, new)] for a non-empty [old]: occurrences are replaced
    from the left and do not overlap.  [skip] counts the characters of a
    replaced occurrence that are still to be dropped. *)
Fixpoint replace_from (skip : nat) (old new s : string) : string :=
  match s with
  | EmptyString => EmptyString
  | String c s' =>
      match skip with
      | S k => replace_from k old new s'
      | O =>
          if startswith s old
          then new +:+ replace_from (String.length old - 1) old new s'
          else String c (replace_from O old new s')
      end
  end.

Definition replace (s old new : string) : string := replace_from O old new s.

(** [s.lower()] on ASCII letters; other characters are kept. *)
Definition lower_ascii (c : ascii) : ascii :=
  let n := nat_of_ascii c in
  if (andb (Nat.leb 65 n) (Nat.leb n 90)) then ascii_of_nat (n + 32) else c.

Fixpoint lower (s : string) : string :=
  match s with
  | EmptyString => EmptyString
  | String c s' => String (lower_ascii c) (lower s')
  end.

End PyStr.

(** ** The enumerations *)

(** [class JobStatus(int, Enum)] *)
Module JobStatus.
Definition new : Z := 1.
Definition staging_running : Z := 10.
Definition staging_complete : Z := 20.
Definition obs_mod_running : Z := 30.
Definition obs_mod_complete : Z := 40.
Definition run_geo_tiff_running : Z := 50.
Definition run_geo_tiff_complete : Z := 60.
Definition compute_mbtiles_0_9_running : Z := 70.
Definition compute_mbtiles_0_9_complete : Z := 80.
Definition compute_mbtiles_10_running : Z := 80.
Definition compute_mbtiles_10_complete : Z := 90.
Definition compute_mbtiles_11_running : Z := 100.
Definition compute_mbtiles_11_complete : Z := 110.
Definition compute_mbtiles_12_running : Z := 120.
Definition compute_mbtiles_12_complete : Z := 130.
Definition load_geo_server_running : Z := 140.
Definition load_geo_server_complete : Z := 150.
Definition final_staging_running : Z := 160.
Definition final_staging_complete : Z := 170.
Definition warning : Z := 9999.
Definition error : Z := -1.
End JobStatus.

(** [class JobType(str, Enum)] *)
Module JobType.
Inductive t : Set :=
| staging
| obs_mod
| run_geo_tiff
| compute_mbtiles_0_9
| compute_mbtiles_10
| compute_mbtiles_11
| compute_mbtiles_12
| load_geo_server
| final_staging
| error
| other_1
| complete.

(** The string of a member.  The first nine members are written with a
    trailing comma in the source; the one-element tuple is the argument
    list of [str], so the member is the string itself.  An f-string
    formats a member of a [str] enumeration as this string in the Python
    versions the module was written for; recent versions print the name
    of the member instead. *)
Definition value (j : t) : string :=
  match j with
  | staging => "staging"
  | obs_mod => "obs-mod"
  | run_geo_tiff => "run-geo-tiff"
  | compute_mbtiles_0_9 => "compute-mbtiles-0-9"
  | compute_mbtiles_10 => "compute-mbtiles-10"
  | compute_mbtiles_11 => "compute-mbtiles-11"
  | compute_mbtiles_12 => "compute-mbtiles-12"
  | load_geo_server => "load-geo-server"
  | final_staging => "final-staging"
  | error => "error"
  | other_1 => "TBD"
  | complete => "complete"
  end.

#[global] Instance eq_dec : EqDecision t.
Proof. solve_decision. Defined.
End JobType.

(** ** Configuration, runs and the outside world *)

(** A job template of [supervisor_config.json]: the fields the supervisor
    reads and rewrites. *)
Record Template : Set := mkTemplate {
  JOB_NAME : string;
  DATA_VOLUME_NAME : string;
  SSH_VOLUME_NAME : string;
  COMMAND_LINE : list string;
  DATA_MOUNT_PATH : string;
  SUB_PATH : string;
  ADDITIONAL_PATH : string
}.

#[global] Instance Template_eq_dec : EqDecision Template.
Proof. solve_decision. Defined.

(** The configuration: a template per job type (a missing key is [None])
    and the two poll intervals. *)
Record Config : Type := mkConfig {
  templates : JobType.t → option Template;
  POLL_SHORT_SLEEP : Z;
  POLL_LONG_SLEEP : Z
}.

(** [run[run['job-type']]]: the ['run-config'] written by
    [k8s_create_job_obj] and the ['job_id'] of the ['job-config'] that the
    log lines of [handle_run] read. *)
Record Binding : Set := mkBinding {
  run_config : Template;
  job_config : option string
}.

#[global] Instance Binding_eq_dec : EqDecision Binding.
Proof. solve_decision. Defined.

(** A run of [run_list].  [id] is the run id as [str] renders it. *)
Record Run : Set := mkRun {
  id : string;
  job_type : JobType.t;
  status : Z;
  status_prov : string;
  downloadurl : string;
  gridname : string;
  instance_name : string;
  bindings : list (JobType.t * Binding)
}.

#[global] Instance Run_eq_dec : EqDecision Run.
Proof. solve_decision. Defined.

Definition set_job_type (j : JobType.t) (r : Run) : Run :=
  mkRun (id r) j (status r) (status_prov r) (downloadurl r) (gridname r)
        (instance_name r) (bindings r).

Definition set_status (s : Z) (r : Run) : Run :=
  mkRun (id r) (job_type r) s (status_prov r) (downloadurl r) (gridname r)
        (instance_name r) (bindings r).

Definition set_status_prov (p : string) (r : Run) : Run :=
  mkRun (id r) (job_type r) (status r) p (downloadurl r) (gridname r)
        (instance_name r) (bindings r).

Definition set_bindings (b : list (JobType.t * Binding)) (r : Run) : Run :=
  mkRun (id r) (job_type r) (status r) (status_prov r) (downloadurl r)
        (gridname r) (instance_name r) b.

(** Dictionary access by job type on the bindings of a run. *)
Fixpoint binding_get (j : JobType.t) (b : list (JobType.t * Binding)) : option Binding :=
  match b with
  | [] => None
  | (k, v) :: b' => if decide (k = j) then Some v else binding_get j b'
  end.

Fixpoint binding_put (j : JobType.t) (v : Binding) (b : list (JobType.t * Binding))
  : list (JobType.t * Binding) :=
  match b with
  | [] => [(j, v)]
  | (k, w) :: b' => if decide (k = j) then (k, v) :: b' else (k, w) :: binding_put j v b'
  end.

(** A row of [pg_db.get_new_runs()]. *)
Record Row : Type := mkRow {
  run_id : string;
  run_data : gmap string string
}.

(** What [pg_db.get_new_runs()] returns: -1, [None], or rows. *)
Inductive NewRuns : Type :=
| MinusOne
| NoRuns
| Rows (rows : list Row).

(** Exceptions. *)
Inductive exn : Set :=
| KeyError (key : string)
| ValueError
| IndexError
| ExternalError (what : string).

Inductive Res (A : Type) : Type :=
| Ok (a : A)
| Raise (e : exn).
Arguments Ok {A} a.
Arguments Raise {A} e.

(** The calls that leave the module, with their arguments. *)
Inductive Event : Set :=
| EvGetNewRuns
| EvUpdateJobStatus (run_id : string) (prov : string)
| EvGetConfig
| EvExecute (run : Run)
| EvFindJobInfo (run : Run)
| EvDeleteJob (run : Run)
| EvChatPostMessage (text : string)
| EvSleep (timeout : Z).

#[global] Instance Event_eq_dec : EqDecision Event.
Proof. solve_decision. Defined.

Abbreviation World := (list Event).

(** The collaborators.  Every answer may depend on all the calls made so
    far, and may be an exception. *)
Record Env : Type := mkEnv {
  k8s_config : Config;
  get_config : World → Res Config;
  get_new_runs : World → Res NewRuns;
  update_job_status : World → string → string → Res unit;
  execute : World → Run → Res string;
  find_job_info : World → Run → Res (option Z * string);
  delete_job : World → Run → Res string;
  chat_postMessage : World → string → Res unit
}.

(** ** The state and exception monad *)

(** A computation on a state [S] that returns a value or raises, and in
    both cases leaves the state as mutated so far. *)
Definition M (S A : Type) : Type := S → Res A * S.

Definition ret {S A} (a : A) : M S A := λ s, (Ok a, s).

Definition bind {S A B} (m : M S A) (k : A → M S B) : M S B :=
  λ s, match m s with
       | (Ok a, s') => k a s'
       | (Raise e, s') => (Raise e, s')
       end.

Definition raise {S A} (e : exn) : M S A := λ s, (Raise e, s).

(** [try: m  except Exception as e: h e] *)
Definition try_except {S A} (m : M S A) (h : exn → M S A) : M S A :=
  λ s, match m s with
       | (Ok a, s') => (Ok a, s')
       | (Raise e, s') => h e s'
       end.

#[global] Instance M_ret {S} : MRet (M S) := @ret S.
#[global] Instance M_bind {S} : MBind (M S) := λ A B k m, bind m k.

(** A call to a collaborator: the event is recorded, the environment
    answers from the history before the call. *)
Definition call {S A} (ev : Event) (answer : World → Res A) : M (S * World) A :=
  λ s, (answer s.2, (s.1, s.2 ++ [ev])).

Definition get_run : M (Run * World) Run := λ s, (Ok s.1, s).

Definition modify_run (f : Run → Run) : M (Run * World) unit :=
  λ s, (Ok tt, (f s.1, s.2)).

(** ** The supervisor *)

Section Supervisor.

Variable env : Env.

(** [self.pg_db.update_job_status(run_id, prov)] *)
Definition pg_update_job_status {S} (run_id prov : string) : M (S * World) unit :=
  call (EvUpdateJobStatus run_id prov) (λ w, update_job_status env w run_id prov).

(** [send_slack_msg] *)
Definition send_slack_msg {S} (run_id msg : string) (instance_name : option string)
  : M (S * World) unit :=
  let final_msg := "APSViz Supervisor - " in
  let final_msg :=
    match instance_name with
    | Some n => final_msg +:+ ("Instance name: " +:+ n +:+ ", ")
    | None => final_msg
    end in
  let final_msg := final_msg +:+ ("Run ID: " +:+ run_id +:+ " " +:+ msg) in
  call (EvChatPostMessage final_msg) (λ w, chat_postMessage env w final_msg).

(** [cfg[job_type]] *)
Definition config_item (cfg : Config) (j : JobType.t) : M (Run * World) Template :=
  match templates cfg j with
  | Some t => mret t
  | None => raise (KeyError (JobType.value j))
  end.

(** [k8s_create_job_obj] *)
Definition k8s_create_job_obj (command_line_params : list string)
    (extend_output_path : bool) : M (Run * World) unit :=
  run ← get_run;
  if status run =? JobStatus.new then
    cfg ← call EvGetConfig (get_config env);
    config ← config_item cfg (job_type run);
    let suffix := PyStr.lower (id run) in
    let config :=
      mkTemplate (JOB_NAME config +:+ suffix)
                 (DATA_VOLUME_NAME config +:+ suffix)
                 (SSH_VOLUME_NAME config +:+ suffix)
                 (COMMAND_LINE config ++ command_line_params)
                 (DATA_MOUNT_PATH config) (SUB_PATH config)
                 (ADDITIONAL_PATH config) in
    let config :=
      if extend_output_path then
        let sub_path := "/" +:+ id run +:+ SUB_PATH config in
        mkTemplate (JOB_NAME config) (DATA_VOLUME_NAME config)
                   (SSH_VOLUME_NAME config)
                   (COMMAND_LINE config ++
                      [DATA_MOUNT_PATH config +:+ sub_path +:+ ADDITIONAL_PATH config])
                   (DATA_MOUNT_PATH config) sub_path (ADDITIONAL_PATH config)
      else config in
    modify_run (λ r, set_bindings
                       (binding_put (job_type r) (mkBinding config None) (bindings r)) r)
  else mret tt.

(** Modelled from the spec: [JobCreate.execute] is not part of the module.
    [self.k8s_create.execute(run)] submits the job, and the handle it
    returns "is persisted on the run": the job id lands in the
    ['job-config'] of the run's binding, next to the ['run-config']. *)
Definition k8s_execute : M (Run * World) unit :=
  run ← get_run;
  job_id ← call (EvExecute run) (λ w, execute env w run);
  match binding_get (job_type run) (bindings run) with
  | Some b =>
      modify_run (λ r, set_bindings
                         (binding_put (job_type r)
                            (mkBinding (run_config b) (Some job_id)) (bindings r)) r)
  | None => raise (KeyError (JobType.value (job_type run)))
  end.

(** [run[run['job-type']]['job-config']['job_id']], which every log line
    after a job was created or deleted formats. *)
Definition job_id_of_run : M (Run * World) string :=
  run ← get_run;
  match binding_get (job_type run) (bindings run) with
  | Some b =>
      match job_config b with
      | Some j => mret j
      | None => raise (KeyError "job-config")
      end
  | None => raise (KeyError (JobType.value (job_type run)))
  end.

(** The command line parameters of each stage. *)

Definition staging_params : M (Run * World) (list string) :=
  run ← get_run;
  mret ["--inputURL"; downloadurl run; "--outputDir"].

Definition obs_mod_params : M (Run * World) (list string) :=
  run ← get_run;
  let access_type := downloadurl run +:+ "/fort.63.nc" in
  let access_type := PyStr.replace access_type "fileServer" "dodsC" in
  t ← config_item (k8s_config env) (job_type run);
  mret ["--instanceId"; id run;
        "--inputURL"; access_type; "--grid"; gridname run;
        "--outputDIR";
        DATA_MOUNT_PATH t +:+ "/" +:+ id run +:+ SUB_PATH t +:+ ADDITIONAL_PATH t;
        "--finalDIR";
        DATA_MOUNT_PATH t +:+ "/" +:+ id run +:+ "/" +:+ "final" +:+ ADDITIONAL_PATH t].

(** The geo tiff stage and the three mbtiles stages build the same list. *)
Definition tile_params : M (Run * World) (list string) :=
  run ← get_run;
  t ← config_item (k8s_config env) (job_type run);
  mret ["--outputDIR";
        DATA_MOUNT_PATH t +:+ "/" +:+ id run +:+ SUB_PATH t;
        "--finalDIR";
        DATA_MOUNT_PATH t +:+ "/" +:+ id run +:+ "/" +:+ "final" +:+ SUB_PATH t;
        "--inputFile"].

Definition load_geo_server_params : M (Run * World) (list string) :=
  run ← get_run;
  mret ["--instanceId"; id run].

Definition final_staging_params : M (Run * World) (list string) :=
  run ← get_run;
  t ← config_item (k8s_config env) (job_type run);
  mret ["--inputDir";
        DATA_MOUNT_PATH t +:+ "/" +:+ id run +:+ SUB_PATH t;
        "--outputDir";
        DATA_MOUNT_PATH t +:+ SUB_PATH t;
        "--tarMeta";
        id run].

(** The block under [run['status'] == JobStatus.new] of a stage: the
    eight blocks differ in the parameters, the path flag, the running
    status and the text appended to the provenance. *)
Definition create_job (command_line_params : M (Run * World) (list string))
    (extend_output_path : bool) (running : Z) (running_text : string)
  : M (Run * World) unit :=
  params ← command_line_params;
  k8s_create_job_obj params extend_output_path;;
  k8s_execute;;
  modify_run (set_status running);;
  modify_run (λ r, set_status_prov (status_prov r +:+ running_text) r);;
  run ← get_run;
  pg_update_job_status (id run) (status_prov run);;
  _ ← job_id_of_run;
  mret tt.

(** The block under [run['status'] == <running>] of a stage: the eight
    blocks differ in the next job type and status, in the text appended
    to the provenance, and in the message and the job type and status set
    after a failed pod. *)
Definition check_job (next_type : JobType.t) (next_status : Z)
    (complete_text : string) (failed_msg : JobType.t → string)
    (failed_type : JobType.t) (failed_status : Z) : M (Run * World) unit :=
  run ← get_run;
  info ← call (EvFindJobInfo run) (λ w, find_job_info env w run);
  let job_status := info.1 in
  let job_pod_status := info.2 in
  if bool_decide (job_status = None) && negb (PyStr.startswith job_pod_status "Failed") then
    run ← get_run;
    _ ← call (EvDeleteJob run) (λ w, delete_job env w run);
    _ ← job_id_of_run;
    modify_run (set_job_type next_type);;
    modify_run (set_status next_status);;
    modify_run (λ r, set_status_prov (status_prov r +:+ complete_text) r);;
    run ← get_run;
    pg_update_job_status (id run) (status_prov run)
  else if PyStr.startswith job_pod_status "Failed" then
    run ← get_run;
    _ ← call (EvDeleteJob run) (λ w, delete_job env w run);
    _ ← job_id_of_run;
    send_slack_msg (id run) (failed_msg (job_type run)) (Some (instance_name run));;
    modify_run (set_job_type failed_type);;
    modify_run (set_status failed_status)
  else mret tt.

Definition failed_in (j : JobType.t) : string :=
  "failed in " +:+ JobType.value j +:+ ".".

Definition failed_in_final_staging (j : JobType.t) : string :=
  "failed in " +:+ JobType.value j +:+
  ". *Warning: Intermediate files may not have been removed.*".

(** The two branches of a stage.  [no_activity] is [False] on entry to
    [handle_run] and every branch assigns [False] to it again. *)
Definition stage (running : Z) (on_new on_running : M (Run * World) unit)
    (no_activity : bool) : M (Run * World) bool :=
  run ← get_run;
  if status run =? JobStatus.new then
    on_new;; mret false
  else if (status run =? running) && negb (status run =? JobStatus.error) then
    on_running;; mret false
  else mret no_activity.

(** [handle_run] *)
Definition handle_run : M (Run * World) bool :=
  let no_activity := false in
  run ← get_run;
  match job_type run with
  | JobType.staging =>
      stage JobStatus.staging_running
        (create_job staging_params true JobStatus.staging_running ", Staging running")
        (check_job JobType.obs_mod JobStatus.new ", Staging complete"
           failed_in JobType.error JobStatus.error)
        no_activity
  | JobType.obs_mod =>
      stage JobStatus.obs_mod_running
        (create_job obs_mod_params false JobStatus.obs_mod_running ", Obs/Mod running")
        (check_job JobType.run_geo_tiff JobStatus.new ", Obs/Mod complete"
           failed_in JobType.error JobStatus.error)
        no_activity
  | JobType.run_geo_tiff =>
      stage JobStatus.run_geo_tiff_running
        (create_job tile_params false JobStatus.run_geo_tiff_running ", Geo tiff running")
        (check_job JobType.compute_mbtiles_0_9 JobStatus.new ", Geo tiff complete"
           failed_in JobType.error JobStatus.error)
        no_activity
  | JobType.compute_mbtiles_0_9 =>
      stage JobStatus.compute_mbtiles_0_9_running
        (create_job tile_params false JobStatus.compute_mbtiles_0_9_running
           ", Compute mbtiles 0-9 running")
        (check_job JobType.load_geo_server JobStatus.new
           ", Compute mbtiles zoom 0-9 complete"
           failed_in JobType.error JobStatus.error)
        no_activity
  | JobType.compute_mbtiles_10 =>
      stage JobStatus.compute_mbtiles_10_running
        (create_job tile_params false JobStatus.compute_mbtiles_10_running
           ",Compute mbtiles running")
        (check_job JobType.load_geo_server JobStatus.new
           ", Compute mbtiles zoom 10 complete"
           failed_in JobType.error JobStatus.error)
        no_activity
  | JobType.compute_mbtiles_11 =>
      stage JobStatus.compute_mbtiles_11_running
        (create_job tile_params false JobStatus.compute_mbtiles_11_running
           ",Compute mbtiles running")
        (check_job JobType.load_geo_server JobStatus.new
           ", Compute mbtiles zoom 11 complete"
           failed_in JobType.error JobStatus.error)
        no_activity
  | JobType.load_geo_server =>
      stage JobStatus.load_geo_server_running
        (create_job load_geo_server_params false JobStatus.load_geo_server_running
           ", Load geo server running")
        (check_job JobType.final_staging JobStatus.new ", Load geo server complete"
           failed_in JobType.error JobStatus.error)
        no_activity
  | JobType.final_staging =>
      stage JobStatus.final_staging_running
        (create_job final_staging_params false JobStatus.final_staging_running
           ", Final staging running")
        (check_job JobType.complete JobStatus.final_staging_complete
           ", Final staging complete"
           failed_in_final_staging JobType.complete JobStatus.final_staging_complete)
        no_activity
  | JobType.compute_mbtiles_12
  | JobType.error
  | JobType.other_1
  | JobType.complete => mret no_activity
  end.

(** *** The reconciliation loop *)

(** The run the loop variable is bound to is the object at index [i] of
    [run_list]: code that works on it reads it there and writes it back
    there, which is what mutating the shared dictionary does. *)
Definition on_run {A} (i : nat) (m : M (Run * World) A) : M (list Run * World) A :=
  λ s, match s.1 !! i with
       | Some run =>
           match m (run, s.2) with
           | (res, (run', w')) => (res, (<[i:=run']> s.1, w'))
           end
       | None => (Raise IndexError, s)
       end.

(** [list.remove(x)]: the first element equal to [x] goes; [ValueError]
    when there is none. *)
Fixpoint list_remove (x : Run) (l : list Run) : option (list Run) :=
  match l with
  | [] => None
  | y :: l' => if decide (y = x) then Some l' else cons y <$> list_remove x l'
  end.

Definition run_list_remove (run : Run) : M (list Run * World) unit :=
  λ s, match list_remove run s.1 with
       | Some l' => (Ok tt, (l', s.2))
       | None => (Raise ValueError, s)
       end.

Definition newline : string := String (ascii_of_nat 10) EmptyString.

(** What the loop did with a run it evaluated. *)
Inductive Outcome : Set :=
| RunComplete
| ErrorDetected
| CleanupException
| RunHandled
| HandlerException.

(** The block [if run['job-type'] == JobType.complete] *)
Definition finish_run : M (Run * World) unit :=
  modify_run (λ r, set_status_prov (status_prov r +:+ ", Run complete") r);;
  run ← get_run;
  pg_update_job_status (id run) (status_prov run);;
  let msg :=
    if PyStr.find (status_prov run) "Error" =? -1
    then "*completed successfully*."
    else "*completed unsuccessfully*." +:+ newline +:+
         "Run provenance: " +:+ status_prov run +:+ "." in
  send_slack_msg (id run) msg (Some (instance_name run)).

(** The block [elif run['job-type'] == JobType.error] *)
Definition schedule_cleanup : M (Run * World) unit :=
  modify_run (λ r, set_status_prov (status_prov r +:+ ", Error detected") r);;
  run ← get_run;
  pg_update_job_status (id run) (status_prov run);;
  modify_run (set_job_type JobType.final_staging);;
  modify_run (set_status JobStatus.new).

(** The first [try] of the loop body.  [Some o]: the body ended in
    [continue]; [None]: control goes on to the second [try]. *)
Definition first_try (i : nat) : M (list Run * World) (option Outcome) :=
  try_except
    (run ← on_run i get_run;
     if decide (job_type run = JobType.complete) then
       on_run i finish_run;;
       run ← on_run i get_run;
       run_list_remove run;;
       mret (Some RunComplete)
     else if decide (job_type run = JobType.error) then
       on_run i schedule_cleanup;;
       mret (Some ErrorDetected)
     else mret None)
    (λ _, mret (Some CleanupException)).

(** The handler of the second [try].  It is not guarded: an exception of
    [delete_job] or [update_job_status] raised here leaves the loop. *)
Definition recover (no_activity : bool) : M (Run * World) (bool * Outcome) :=
  run ← get_run;
  _ ← call (EvDeleteJob run) (λ w, delete_job env w run);
  modify_run (λ r, set_status_prov
                     (status_prov r +:+ ", Run handler error detected") r);;
  run ← get_run;
  pg_update_job_status (id run) (status_prov run);;
  modify_run (set_job_type JobType.error);;
  modify_run (set_status JobStatus.error);;
  mret (no_activity, HandlerException).

(** The second [try] of the loop body. *)
Definition second_try (no_activity : bool) : M (Run * World) (bool * Outcome) :=
  try_except
    (no_activity ← handle_run;
     mret (no_activity, RunHandled))
    (λ _, recover no_activity).

(** The body of [for run in self.run_list], for the run at index [i]. *)
Definition loop_body (i : nat) (no_activity : bool)
  : M (list Run * World) (bool * Outcome) :=
  first ← first_try i;
  match first with
  | Some o => mret (no_activity, o)
  | None => on_run i (second_try no_activity)
  end.

(** The runs the loop evaluated, by id and in order, with what it did. *)
Definition Evaluated : Set := list (string * Outcome).

(** [for run in self.run_list]: the iterator holds an index into the
    list, which the body may shorten; it stops when the index is past the
    end.  Every turn uses one unit of [fuel]; [None] is a loop cut short
    by lack of fuel. *)
Fixpoint for_runs (fuel i : nat) (no_activity : bool) (s : list Run * World)
    (seen : Evaluated) : option (Res bool * (list Run * World) * Evaluated) :=
  match s.1 !! i with
  | None => Some (Ok no_activity, s, seen)
  | Some run =>
      match fuel with
      | O => None
      | S fuel' =>
          match loop_body i no_activity s with
          | (Raise e, s') => Some (Raise e, s', seen)
          | (Ok (no_activity', o), s') =>
              for_runs fuel' (S i) no_activity' s' (seen ++ [(id run, o)])
          end
      end
  end.

(** One row of the rows fetched by [get_incomplete_runs]. *)
Definition accept_row (row : Row) : M (list Run * World) unit :=
  let run_id := run_id row in
  match run_data row !! "downloadurl",
        run_data row !! "adcirc.gridname",
        run_data row !! "instancename" with
  | Some url, Some grid, Some name =>
      (λ s, (Ok tt, (s.1 ++ [mkRun run_id JobType.staging JobStatus.new
                                 "New, Run accepted" url grid name []], s.2)));;
      pg_update_job_status run_id "New, Run accepted";;
      send_slack_msg run_id "accepted." (Some name)
  | _, _, _ =>
      pg_update_job_status run_id "Error - Lacks the required run properties.";;
      let instance_name := run_data row !! "instancename" in
      send_slack_msg run_id "lacked the required run properties." instance_name
  end.

Fixpoint accept_rows (rows : list Row) : M (list Run * World) unit :=
  match rows with
  | [] => mret tt
  | row :: rows' => accept_row row;; accept_rows rows'
  end.

(** [get_incomplete_runs] *)
Definition get_incomplete_runs : M (list Run * World) unit :=
  runs ← call EvGetNewRuns (get_new_runs env);
  match runs with
  | Rows rows => accept_rows rows
  | MinusOne | NoRuns => mret tt
  end.

(** The end of a turn of [while True]: the counter of idle turns and the
    sleep that follows. *)
Definition backoff (no_activity : bool) (no_activity_counter : Z) : Z * Z :=
  let no_activity_counter :=
    if no_activity then no_activity_counter + 1 else 0 in
  if 10 <=? no_activity_counter
  then (9, POLL_LONG_SLEEP (k8s_config env))
  else (no_activity_counter, POLL_SHORT_SLEEP (k8s_config env)).

(** One turn of [while True] in [run]: the new counter, or the exception
    that ends the loop, the state left behind and the runs evaluated. *)
Definition tick (no_activity_counter : Z) (s : list Run * World)
  : option (Res Z * (list Run * World) * Evaluated) :=
  match get_incomplete_runs s with
  | (Raise e, s1) => Some (Raise e, s1, [])
  | (Ok _, s1) =>
      match for_runs (length s1.1) 0 true s1 [] with
      | None => None
      | Some (Raise e, s2, seen) => Some (Raise e, s2, seen)
      | Some (Ok no_activity, s2, seen) =>
          let (counter, sleep_timeout) := backoff no_activity no_activity_counter in
          Some (Ok counter, (s2.1, s2.2 ++ [EvSleep sleep_timeout]), seen)
      end
  end.

(** [n] turns of [while True] in [run], unless an exception ends the
    loop before.  [run] starts with the counter at zero. *)
Fixpoint run_for (n : nat) (no_activity_counter : Z) (s : list Run * World)
  : option (Res Z * (list Run * World)) :=
  match n with
  | O => Some (Ok no_activity_counter, s)
  | S n' =>
      match tick no_activity_counter s with
      | None => None
      | Some (Raise e, s', _) => Some (Raise e, s')
      | Some (Ok counter, s', _) => run_for n' counter s'
      end
  end.

End Supervisor.

(** ** Notions used in the statements *)

(** A string contains [sub] when it is [pre +:+ sub +:+ post]. *)
Definition contains (s sub : string) : Prop :=
  ∃ pre post, s = pre +:+ sub +:+ post.

(** The text [send_slack_msg] posts. *)
Definition final_msg (run_id msg : string) (instance_name : option string) : string :=
  "APSViz Supervisor - " +:+
  match instance_name with
  | Some n => "Instance name: " +:+ n +:+ ", "
  | None => ""
  end +:+ "Run ID: " +:+ run_id +:+ " " +:+ msg.

(** What [finish_run] passes to [send_slack_msg]. *)
Definition complete_msg (prov : string) : string :=
  if PyStr.find prov "Error" =? -1
  then "*completed successfully*."
  else "*completed unsuccessfully*." +:+ newline +:+ "Run provenance: " +:+ prov +:+ ".".

(** The keys a row must carry to be accepted. *)
Definition required_keys : list string :=
  ["downloadurl"; "adcirc.gridname"; "instancename"].

Definition has_required (row : Row) : Prop :=
  Forall (λ k, is_Some (run_data row !! k)) required_keys.

#[global] Instance has_required_dec (row : Row) : Decision (has_required row).
Proof. unfold has_required. apply _. Defined.

(** The entry admission adds to the active table for a row: one run in
    [staging], [new], with provenance "New, Run accepted" and the context of
    the row, or nothing when a required key is missing. *)
Definition accepted (row : Row) : list Run :=
  if decide (has_required row) then
    [mkRun (run_id row) JobType.staging JobStatus.new "New, Run accepted"
           (default "" (run_data row !! "downloadurl"))
           (default "" (run_data row !! "adcirc.gridname"))
           (default "" (run_data row !! "instancename")) []]
  else [].

(** The status written and the notification sent for a row. *)
Definition admission_events (row : Row) : list Event :=
  if decide (has_required row) then
    [EvUpdateJobStatus (run_id row) "New, Run accepted";
     EvChatPostMessage
       (final_msg (run_id row) "accepted." (run_data row !! "instancename"))]
  else
    [EvUpdateJobStatus (run_id row) "Error - Lacks the required run properties.";
     EvChatPostMessage
       (final_msg (run_id row) "lacked the required run properties."
          (run_data row !! "instancename"))].

(** A call that returned. *)
Definition is_Ok {A} (r : Res A) : Prop :=
  match r with
  | Ok _ => True
  | Raise _ => False
  end.

(** The run carries a job for its current stage: [k8s_create_job_obj] and
    [execute] have run for it. *)
Definition job_bound (run : Run) : Prop :=
  ∃ b job_id,
    binding_get (job_type run) (bindings run) = Some b ∧ job_config b = Some job_id.

(** The stage catalog, for the stages [handle_run] has a branch for: the
    status of a run whose job was created, the stage that follows, and the
    text added to the provenance when the job completes. *)
Record Stage : Set := mkStage {
  running : Z;
  successor : JobType.t;
  complete_marker : string
}.

Definition stage_catalog (j : JobType.t) : option Stage :=
  match j with
  | JobType.staging =>
      Some (mkStage JobStatus.staging_running JobType.obs_mod ", Staging complete")
  | JobType.obs_mod =>
      Some (mkStage JobStatus.obs_mod_running JobType.run_geo_tiff ", Obs/Mod complete")
  | JobType.run_geo_tiff =>
      Some (mkStage JobStatus.run_geo_tiff_running JobType.compute_mbtiles_0_9
              ", Geo tiff complete")
  | JobType.compute_mbtiles_0_9 =>
      Some (mkStage JobStatus.compute_mbtiles_0_9_running JobType.load_geo_server
              ", Compute mbtiles zoom 0-9 complete")
  | JobType.compute_mbtiles_10 =>
      Some (mkStage JobStatus.compute_mbtiles_10_running JobType.load_geo_server
              ", Compute mbtiles zoom 10 complete")
  | JobType.compute_mbtiles_11 =>
      Some (mkStage JobStatus.compute_mbtiles_11_running JobType.load_geo_server
              ", Compute mbtiles zoom 11 complete")
  | JobType.load_geo_server =>
      Some (mkStage JobStatus.load_geo_server_running JobType.final_staging
              ", Load geo server complete")
  | JobType.final_staging =>
      Some (mkStage JobStatus.final_staging_running JobType.complete
              ", Final staging complete")
  | JobType.compute_mbtiles_12
  | JobType.error | JobType.other_1 | JobType.complete => None
  end.

(** One evaluation of the loop body finds [r] at its index of the table and
    leaves [r'] there. *)
Definition body_step (env : Env) (r r' : Run) : Prop :=
  ∃ i no_activity l w res l' w',
    l !! i = Some r ∧
    loop_body env i no_activity (l, w) = (res, (l', w')) ∧
    l' !! i = Some r'.

(** The successive values of a run over the evaluations of the loop body. *)
Fixpoint trajectory (env : Env) (r : Run) (rs : list Run) : Prop :=
  match rs with
  | [] => True
  | r' :: rs' => body_step env r r' ∧ trajectory env r' rs'
  end.

(** A parameter builder reads the run and the configuration only. *)
Definition reader {A} (m : M (Run * World) A) : Prop :=
  ∀ s r s', m s = (r, s') → s' = s.

(** What a handler call that changed the stage or the status of a run did,
    from the history [w] and the run [run] it started with to [w'] and
    [run']: either its last call is the write of the new provenance, which
    returned, after the job was submitted or deleted; or the pod had
    failed, no write was made and the provenance is unchanged. *)
Definition written_or_failed (env : Env) (run : Run) (w : World)
    (run' : Run) (w' : World) : Prop :=
  (∃ before,
     w' = w ++ before ++ [EvUpdateJobStatus (id run') (status_prov run')] ∧
     update_job_status env (w ++ before) (id run') (status_prov run') = Ok tt ∧
     ((∃ run_x, before = [EvGetConfig; EvExecute run_x]) ∨
      before = [EvFindJobInfo run; EvDeleteJob run]))
  ∨ (∃ job_status pod text,
       find_job_info env w run = Ok (job_status, pod) ∧
       PyStr.startswith pod "Failed" = true ∧
       w' = w ++ [EvFindJobInfo run; EvDeleteJob run; EvChatPostMessage text] ∧
       status_prov run' = status_prov run).

(** A computation on a run that leaves the run id as it is, whether it
    returns or raises. *)
Definition keeps_id {A} (m : M (Run * World) A) : Prop :=
  ∀ run w r run' w', m (run, w) = (r, (run', w')) → id run' = id run.

(** The counter and the sleeps of successive turns of the loop, given the
    value of [no_activity] at the end of each. *)
Fixpoint backoff_seq (env : Env) (flags : list bool) (counter : Z) : Z * list Z :=
  match flags with
  | [] => (counter, [])
  | no_activity :: flags' =>
      let (counter', timeout) := backoff env no_activity counter in
      let (last, timeouts) := backoff_seq env flags' counter' in
      (last, timeout :: timeouts)
  end.

(** The sleeps recorded in a history. *)
Fixpoint sleeps_of (w : World) : list Z :=
  match w with
  | [] => []
  | EvSleep timeout :: w' => timeout :: sleeps_of w'
  | _ :: w' => sleeps_of w'
  end.

(** The run ids of the table are pairwise distinct. *)
Definition distinct_ids (l : list Run) : Prop := NoDup (id <$> l).

(** ** Sample collaborators and runs *)

Definition sample_template : Template :=
  mkTemplate "job-" "data-" "ssh-" ["python"] "/data" "/sub" "/add".

Definition sample_config : Config :=
  mkConfig (λ _, Some sample_template) 30 120.

(** Collaborators that never raise; [info] is what [find_job_info] reports
    and [rows] what the first [get_new_runs] returns. *)
Definition sample_env (info : option Z * string) (rows : list Row) : Env :=
  mkEnv sample_config (λ _, Ok sample_config)
        (λ w, match w with [] => Ok (Rows rows) | _ => Ok NoRuns end)
        (λ _ _ _, Ok tt)
        (λ _ _, Ok "job-1")
        (λ _ _, Ok info)
        (λ _ _, Ok "OK")
        (λ _ _, Ok tt).

(** A run in the given stage and status, with a job bound for the stage. *)
Definition sample_run (run_id : string) (j : JobType.t) (st : Z) (prov : string) : Run :=
  mkRun run_id j st prov "http://x/fileServer/f" "g1" "inst-A"
        [(j, mkBinding sample_template (Some "job-1"))].

Definition sample_row : Row :=
  mkRow "42" (<["downloadurl" := "http://x/f"]>
              (<["adcirc.gridname" := "g1"]>
               (<["instancename" := "inst-A"]> ∅))).

Definition sample_row_incomplete : Row :=
  mkRow "43" (<["downloadurl" := "http://x"]> ∅).

(** The run left in a one-run table by one evaluation of the loop body. *)
Definition run_after (env : Env) (r : Run) : Run :=
  default r ((loop_body env 0 true ([r], [])).2.1 !! 0%nat).

Definition sample_error_run : Run :=
  sample_run "42" JobType.error JobStatus.error "New, Run accepted, Staging running".

(** The store cannot be read. *)
Definition fetch_fails_env : Env :=
  mkEnv sample_config (λ _, Ok sample_config)
        (λ _, Raise (ExternalError "get_new_runs"))
        (λ _ _ _, Ok tt)
        (λ _ _, Ok "job-1")
        (λ _ _, Ok (None, "Succeeded"))
        (λ _ _, Ok "OK")
        (λ _ _, Ok tt).

(** Slack cannot be reached; the store returns [rows] once. *)
Definition slack_fails_env (rows : list Row) : Env :=
  mkEnv sample_config (λ _, Ok sample_config)
        (λ w, match w with [] => Ok (Rows rows) | _ => Ok NoRuns end)
        (λ _ _ _, Ok tt)
        (λ _ _, Ok "job-1")
        (λ _ _, Ok (None, "Succeeded"))
        (λ _ _, Ok "OK")
        (λ _ _, Raise (ExternalError "chat_postMessage")).

(** The configuration file, the driver's create and inspect calls and
    Slack all raise; the store and the driver's delete call return. *)
Definition hostile_env : Env :=
  mkEnv sample_config (λ _, Raise (ExternalError "get_config"))
        (λ _, Ok NoRuns)
        (λ _ _ _, Ok tt)
        (λ _ _, Raise (ExternalError "execute"))
        (λ _ _, Raise (ExternalError "find_job_info"))
        (λ _ _, Ok "OK")
        (λ _ _, Raise (ExternalError "chat_postMessage")).

Definition sample_table : list Run :=
  [sample_run "1" JobType.staging JobStatus.new "New, Run accepted";
   sample_run "2" JobType.obs_mod JobStatus.obs_mod_running
     "New, Run accepted, Staging running, Staging complete, Obs/Mod running";
   sample_run "3" JobType.complete JobStatus.final_staging_complete
     "New, Run accepted, Final staging complete";
   sample_run "4" JobType.error JobStatus.error "New, Run accepted, Staging running"].

(** A run whose job is still active. *)
Definition sample_active_run : Run :=
  sample_run "42" JobType.staging JobStatus.staging_running
    "New, Run accepted, Staging running".

Definition sample_complete_run : Run :=
  sample_run "3" JobType.complete JobStatus.final_staging_complete
    "New, Run accepted, Final staging complete".

Definition sample_new_run : Run :=
  sample_run "1" JobType.staging JobStatus.new "New, Run accepted".

(** ** Further notions *)

(** The keys [get_incomplete_runs] gives a run.  [k8s_create_job_obj]
    writes the job of a stage into the same dictionary, under the string of
    the job type. *)
Definition run_keys : list string :=
  ["id"; "job-type"; "status"; "status_prov"; "downloadurl"; "gridname";
   "instance_name"].

(** The text a stage appends to the provenance when its job is created. *)
Definition running_marker (j : JobType.t) : string :=
  match j with
  | JobType.staging => ", Staging running"
  | JobType.obs_mod => ", Obs/Mod running"
  | JobType.run_geo_tiff => ", Geo tiff running"
  | JobType.compute_mbtiles_0_9 => ", Compute mbtiles 0-9 running"
  | JobType.compute_mbtiles_10 => ",Compute mbtiles running"
  | JobType.compute_mbtiles_11 => ",Compute mbtiles running"
  | JobType.load_geo_server => ", Load geo server running"
  | JobType.final_staging => ", Final staging running"
  | _ => ""
  end.

(** [r'] is [r] later on: the id and the context bound at admission are
    the same and the provenance of [r] is the beginning of that of [r']. *)
Definition run_grows (r r' : Run) : Prop :=
  id r' = id r ∧
  downloadurl r' = downloadurl r ∧
  gridname r' = gridname r ∧
  instance_name r' = instance_name r ∧
  ∃ suffix, status_prov r' = status_prov r +:+ suffix.

(** A computation on a run that only lets the run grow, whether it returns
    or raises. *)
Definition grows {A} (m : M (Run * World) A) : Prop :=
  ∀ run w r run' w', m (run, w) = (r, (run', w')) → run_grows run run'.

(** The parameter builder [handle_run] uses in the branch of a stage, and
    whether it asks [k8s_create_job_obj] to extend the output path. *)
Definition stage_params (env : Env) (j : JobType.t) : M (Run * World) (list string) :=
  match j with
  | JobType.staging => staging_params
  | JobType.obs_mod => obs_mod_params env
  | JobType.load_geo_server => load_geo_server_params
  | JobType.final_staging => final_staging_params env
  | _ => tile_params env
  end.

Definition extends_output_path (j : JobType.t) : bool :=
  bool_decide (j = JobType.staging).

(** The calls of a [handle_run] that returned, from the history [w] and the
    run [run] to [w'] and [run']: none; a job created; a job inspected and
    found active; a job inspected, deleted and its completion written; a job
    inspected, deleted and its failure posted. *)
Definition handler_calls (run : Run) (w : World) (run' : Run) (w' : World) : Prop :=
  (w' = w ∧ run' = run)
  ∨ (∃ run_x,
       w' = w ++ [EvGetConfig; EvExecute run_x;
                  EvUpdateJobStatus (id run') (status_prov run')] ∧
       status run = JobStatus.new ∧ status run' ≠ JobStatus.new ∧
       job_type run' = job_type run)
  ∨ (w' = w ++ [EvFindJobInfo run] ∧ run' = run)
  ∨ (w' = w ++ [EvFindJobInfo run; EvDeleteJob run;
                EvUpdateJobStatus (id run') (status_prov run')])
  ∨ (∃ text,
       w' = w ++ [EvFindJobInfo run; EvDeleteJob run; EvChatPostMessage text]).

(** The driver is down: creating and deleting a job both raise. *)
Definition driver_down_env : Env :=
  mkEnv sample_config (λ _, Ok sample_config)
        (λ _, Ok NoRuns)
        (λ _ _ _, Ok tt)
        (λ _ _, Raise (ExternalError "execute"))
        (λ _ _, Raise (ExternalError "find_job_info"))
        (λ _ _, Raise (ExternalError "delete_job"))
        (λ _ _, Ok tt).

#[global] Instance Outcome_eq_dec : EqDecision Outcome.
Proof. solve_decision. Defined.

(** How many of the evaluated runs were finalised. *)
Definition finalised (seen : list (string * Outcome)) : nat :=
  length (filter (λ x, x.2 = RunComplete) seen).

(** The rows [get_incomplete_runs] goes through, given what [get_new_runs]
    answered: none when it answered [-1] or [None], or raised. *)
Definition fetched (r : Res NewRuns) : list Row :=
  match r with
  | Ok (Rows rows) => rows
  | _ => []
  end.

(** What admission has done when it ends, from the table [l] and the
    history [w] with the rows [rows], to [l'] and [w'].  When it returns,
    every row was gone through.  When it raises at row [k], the rows up to
    and with row [k] have their entries in the table, the calls for the rows
    before [k] are all made, the calls for row [k] are made up to the one
    that raised, and the rows after [k] are not looked at. *)
Definition admission_result (rows : list Row) (l : list Run) (w : World)
    (res : Res unit) (l' : list Run) (w' : World) : Prop :=
  match res with
  | Ok _ =>
      l' = l ++ concat (map accepted rows) ∧
      w' = w ++ concat (map admission_events rows)
  | Raise _ =>
      ∃ (k : nat) row (n : nat),
        rows !! k = Some row ∧ (0 < n)%nat ∧
        l' = l ++ concat (map accepted (take (S k) rows)) ∧
        w' = w ++ concat (map admission_events (take k rows))
               ++ take n (admission_events row)
  end.

(** The calls of a computation: whether it returns or raises, it only adds
    to the history, and every call it adds satisfies [P]. *)
Definition emits {S A} (P : Event → bool) (m : M (S * World) A) : Prop :=
  ∀ s w r s' w', m (s, w) = (r, (s', w')) →
    ∃ evs, w' = w ++ evs ∧ forallb P evs = true.

(** The calls to the store that write a status and the calls to Slack. *)
Definition store_or_slack (ev : Event) : bool :=
  match ev with
  | EvUpdateJobStatus _ _ | EvChatPostMessage _ => true
  | _ => false
  end.

(** The calls of admission: the fetch, status writes and Slack. *)
Definition admission_call (ev : Event) : bool :=
  match ev with
  | EvGetNewRuns | EvUpdateJobStatus _ _ | EvChatPostMessage _ => true
  | _ => false
  end.

(** The calls made while a run is evaluated: anything but the fetch of new
    runs and the sleep. *)
Definition run_call (ev : Event) : bool :=
  match ev with
  | EvGetNewRuns | EvSleep _ => false
  | _ => true
  end.

Definition not_sleep (ev : Event) : bool :=
  match ev with
  | EvSleep _ => false
  | _ => true
  end.

(** The job types the loop and [handle_run] assign to a run. *)
Definition assigned (j : JobType.t) : bool :=
  match j with
  | JobType.obs_mod | JobType.run_geo_tiff | JobType.compute_mbtiles_0_9
  | JobType.load_geo_server | JobType.final_staging | JobType.complete
  | JobType.error => true
  | _ => false
  end.

(** From [r] to [r'] the job type is the same or was assigned. *)
Definition run_moves (r r' : Run) : Prop :=
  job_type r' = job_type r ∨ assigned (job_type r') = true.

Definition moves {A} (m : M (Run * World) A) : Prop :=
  ∀ run w r run' w', m (run, w) = (r, (run', w')) → run_moves run run'.

(** A run as admission makes it and the loop takes it on: it is in
    [staging] or in an assigned job type, and its provenance starts with
    the text written at admission. *)
Definition in_pipeline (r : Run) : Prop :=
  (job_type r = JobType.staging ∨ assigned (job_type r) = true) ∧
  ∃ suffix, status_prov r = "New, Run accepted" +:+ suffix.

(** * Properties *)

(** ** Strings *)

Lemma startswith_app (pre post : string) : PyStr.startswith (pre +:+ post) pre = true.
Proof.
  induction pre as [|c pre IH]; simpl; [done|].
  by rewrite decide_True.
Qed.

Lemma startswith_spec (s pre : string) :
  PyStr.startswith s pre = true ↔ ∃ post, s = pre +:+ post.
Proof.
  split.
  - revert s. induction pre as [|c pre IH]; intros s H; simpl in *.
    + by exists s.
    + destruct s as [|d s]; [done|].
      destruct (decide (c = d)) as [->|]; [|done].
      destruct (IH _ H) as [post ->]. by exists post.
  - intros [post ->]. apply startswith_app.
Qed.

Lemma find_from_found (i : Z) (s sub : string) :
  PyStr.find_from i s sub ≠ -1 → 0 ≤ i → contains s sub ∧ i ≤ PyStr.find_from i s sub.
Proof.
  revert i. induction s as [|c s IH]; intros i; simpl.
  - destruct (PyStr.startswith "" sub) eqn:E; [|done].
    intros _ Hi. split; [|lia].
    apply startswith_spec in E as [post E]. by exists "", post.
  - destruct (PyStr.startswith (String c s) sub) eqn:E.
    + intros _ Hi. split; [|lia].
      apply startswith_spec in E as [post E]. by exists "", post.
    + intros H Hi. destruct (IH (i + 1) H ltac:(lia)) as [(pre & post & ->) Hle].
      split; [|lia]. by exists (String c pre), post.
Qed.

Lemma find_from_missing (i : Z) (s sub : string) :
  PyStr.find_from i s sub = -1 → 0 ≤ i → ¬ contains s sub.
Proof.
  revert i. induction s as [|c s IH]; intros i; simpl.
  - destruct (PyStr.startswith "" sub) eqn:E; [lia|].
    intros _ _ (pre & post & H).
    destruct pre; [|done]. simpl in H.
    assert (PyStr.startswith "" sub = true) by (apply startswith_spec; eauto).
    congruence.
  - destruct (PyStr.startswith (String c s) sub) eqn:E; [lia|].
    intros H Hi (pre & post & Heq).
    destruct pre as [|d pre]; simpl in Heq.
    + assert (PyStr.startswith (String c s) sub = true)
        by (apply startswith_spec; eauto).
      congruence.
    + injection Heq as -> ->. apply (IH (i + 1) H ltac:(lia)). by exists pre, post.
Qed.

(** [s.find(sub) == -1] exactly when [sub] does not occur in [s]. *)
Lemma find_spec (s sub : string) :
  PyStr.find s sub = -1 ↔ ¬ contains s sub.
Proof.
  unfold PyStr.find. split.
  - intros H. by apply (find_from_missing 0).
  - intros H. destruct (decide (PyStr.find_from 0 s sub = -1)) as [|Hne]; [done|].
    destruct (find_from_found 0 s sub Hne ltac:(lia)) as [Hc _]. done.
Qed.

Example find_examples :
  PyStr.find "New, Run accepted, Error detected" "Error" = 19
  ∧ PyStr.find "New, Run accepted" "Error" = -1
  ∧ PyStr.find "" "" = 0.
Proof. by vm_compute. Qed.

Example replace_example :
  PyStr.replace "http://x/fileServer/a/fileServer/fort.63.nc" "fileServer" "dodsC" =
    "http://x/dodsC/a/dodsC/fort.63.nc".
Proof. reflexivity. Qed.

Example lower_example : PyStr.lower "2021052506-NamForecast" = "2021052506-namforecast".
Proof. reflexivity. Qed.

(** ** Lists *)

Lemma delete_insert_same (l : list Run) (i : nat) (x : Run) :
  delete i (<[i:=x]> l) = delete i l.
Proof.
  revert i. induction l as [|y l IH]; intros [|i]; simpl; try done.
  f_equal. apply IH.
Qed.

Lemma list_remove_Permutation (x : Run) (l l' : list Run) :
  list_remove x l = Some l' → l ≡ₚ x :: l'.
Proof.
  revert l'. induction l as [|y l IH]; intros l'; simpl; [done|].
  destruct (decide (y = x)) as [->|].
  - by intros [= ->].
  - destruct (list_remove x l) as [l0|]; simpl; [|done].
    intros [= <-]. rewrite (IH l0 eq_refl). apply Permutation_swap.
Qed.

Lemma list_remove_elem_of (x : Run) (l : list Run) :
  x ∈ l → is_Some (list_remove x l).
Proof.
  induction l as [|y l IH]; simpl.
  - by intros ?%elem_of_nil.
  - intros H. destruct (decide (y = x)); [by eexists|].
    apply elem_of_cons in H as [->|H]; [done|].
    destruct (IH H) as [l' ->]. by eexists.
Qed.

(** ** The monad *)

Ltac unfold_monad :=
  unfold mbind, mret, M_bind, M_ret, bind, ret, raise, try_except in *.

Lemma bind_Ok {S A B} (m : M S A) (k : A → M S B) s a s' :
  m s = (Ok a, s') → (m ≫= k) s = k a s'.
Proof. unfold_monad. by intros ->. Qed.

Lemma bind_Raise {S A B} (m : M S A) (k : A → M S B) s e s' :
  m s = (Raise e, s') → (m ≫= k) s = (Raise e, s').
Proof. unfold_monad. by intros ->. Qed.

Lemma on_run_at {A} (i : nat) (m : M (Run * World) A) l w run res run' w' :
  l !! i = Some run →
  m (run, w) = (res, (run', w')) →
  on_run i m (l, w) = (res, (<[i:=run']> l, w')).
Proof. unfold on_run; simpl. by intros -> ->. Qed.

Lemma on_run_get_run (i : nat) l w run :
  l !! i = Some run → on_run i get_run (l, w) = (Ok run, (l, w)).
Proof.
  intros H. rewrite (on_run_at i get_run l w run (Ok run) run w H eq_refl).
  by rewrite list_insert_id.
Qed.

Lemma send_slack_msg_final_msg {S} env run_id msg instance_name :
  @send_slack_msg env S run_id msg instance_name =
  call (EvChatPostMessage (final_msg run_id msg instance_name))
       (λ w, chat_postMessage env w (final_msg run_id msg instance_name)).
Proof. destruct instance_name; reflexivity. Qed.

(** ** The [Complete] dispatch *)

Lemma finish_run_Ok env run w :
  let prov := status_prov run +:+ ", Run complete" in
  let text := final_msg (id run) (complete_msg prov) (Some (instance_name run)) in
  update_job_status env w (id run) prov = Ok tt →
  chat_postMessage env (w ++ [EvUpdateJobStatus (id run) prov]) text = Ok tt →
  finish_run env (run, w) =
    (Ok tt, (set_status_prov prov run,
             w ++ [EvUpdateJobStatus (id run) prov; EvChatPostMessage text])).
Proof.
  intros prov text Hup Hchat.
  unfold finish_run.
  unfold_monad. unfold modify_run, get_run, pg_update_job_status, call at 1. cbn [fst snd].
  cbn [set_status_prov id status_prov instance_name].
  fold prov. rewrite Hup. fold (complete_msg prov).
  rewrite send_slack_msg_final_msg. fold text. unfold call. cbn [fst snd].
  rewrite Hchat. by rewrite <- app_assoc.
Qed.

(** C4.  The loop body on a run whose job type is [complete], when the
    status write and the Slack call return: ", Run complete" is appended to
    the provenance, the new provenance is written to the store, one message
    is posted, and the run leaves [run_list].  The message says
    "completed successfully" when "Error" occurs nowhere in the provenance
    and otherwise says "completed unsuccessfully" and quotes the
    provenance. *)
Theorem complete_run_is_finalized env (i : nat) (no_activity : bool)
    (l : list Run) (w : World) (run : Run) :
  l !! i = Some run →
  job_type run = JobType.complete →
  let prov := status_prov run +:+ ", Run complete" in
  update_job_status env w (id run) prov = Ok tt →
  (∀ text, chat_postMessage env (w ++ [EvUpdateJobStatus (id run) prov]) text = Ok tt) →
  ∃ msg l',
    loop_body env i no_activity (l, w) =
      (Ok (no_activity, RunComplete),
       (l', w ++ [EvUpdateJobStatus (id run) prov;
                  EvChatPostMessage (final_msg (id run) msg (Some (instance_name run)))]))
    ∧ list_remove (set_status_prov prov run) (<[i:=set_status_prov prov run]> l) = Some l'
    ∧ l' ≡ₚ delete i l
    ∧ (¬ contains prov "Error" → msg = "*completed successfully*.")
    ∧ (contains prov "Error" →
       msg = "*completed unsuccessfully*." +:+ newline +:+
             "Run provenance: " +:+ prov +:+ ".").
Proof.
  intros Hi Hty prov Hup Hchat.
  set (run' := set_status_prov prov run).
  assert (Hin : run' ∈ <[i:=run']> l).
  { apply list_elem_of_lookup. exists i. apply list_lookup_insert_eq.
    by eapply lookup_lt_Some. }
  destruct (list_remove_elem_of _ _ Hin) as [l' Hrm].
  exists (complete_msg prov), l'.
  assert (Hi' : <[i:=run']> l !! i = Some run').
  { apply list_lookup_insert_eq. by eapply lookup_lt_Some. }
  split; [|split; [done|split; [|split]]].
  - unfold loop_body.
    erewrite (bind_Ok (first_try env i) _ _ (Some RunComplete)); [reflexivity|].
    unfold first_try, try_except.
    erewrite bind_Ok; [|by apply on_run_get_run].
    rewrite Hty, decide_True by done.
    erewrite bind_Ok;
      [|eapply on_run_at; [done|by apply finish_run_Ok]].
    erewrite bind_Ok; [|by apply on_run_get_run].
    unfold run_list_remove at 1. unfold_monad. cbn [fst snd].
    fold prov run'. by rewrite Hrm.
  - apply list_remove_Permutation in Hrm.
    pose proof (delete_Permutation _ _ _ Hi') as Hd.
    rewrite Hd in Hrm. apply (inj (cons run')) in Hrm.
    rewrite <- Hrm. by rewrite delete_insert_same.
  - intros Hno. unfold complete_msg.
    apply find_spec in Hno. by rewrite Hno.
  - intros Hyes. unfold complete_msg.
    destruct (Z.eqb_spec (PyStr.find prov "Error") (-1)) as [Heq|]; [|done].
    apply find_spec in Heq. done.
Qed.

Lemma complete_run_is_finalized_witness :
  ∃ msg l',
    loop_body (sample_env (None, "Succeeded") []) 0 true
      ([sample_run "42" JobType.complete 170 "New, Run accepted"], []) =
      (Ok (true, RunComplete),
       (l', [] ++ [EvUpdateJobStatus "42" "New, Run accepted, Run complete";
                   EvChatPostMessage (final_msg "42" msg (Some "inst-A"))]))
    ∧ list_remove
        (set_status_prov "New, Run accepted, Run complete"
           (sample_run "42" JobType.complete 170 "New, Run accepted"))
        (<[0%nat:=set_status_prov "New, Run accepted, Run complete"
                    (sample_run "42" JobType.complete 170 "New, Run accepted")]>
           [sample_run "42" JobType.complete 170 "New, Run accepted"]) = Some l'
    ∧ l' ≡ₚ delete 0%nat [sample_run "42" JobType.complete 170 "New, Run accepted"]
    ∧ (¬ contains "New, Run accepted, Run complete" "Error" →
       msg = "*completed successfully*.")
    ∧ (contains "New, Run accepted, Run complete" "Error" →
       msg = "*completed unsuccessfully*." +:+ newline +:+
             "Run provenance: " +:+ "New, Run accepted, Run complete" +:+ ".").
Proof.
  apply (complete_run_is_finalized (sample_env (None, "Succeeded") []) 0 true
           [sample_run "42" JobType.complete 170 "New, Run accepted"] []
           (sample_run "42" JobType.complete 170 "New, Run accepted"));
    reflexivity.
Defined.

(** ** Admission *)

Lemma has_required_lookups (row : Row) :
  has_required row ↔
  is_Some (run_data row !! "downloadurl") ∧
  is_Some (run_data row !! "adcirc.gridname") ∧
  is_Some (run_data row !! "instancename").
Proof.
  unfold has_required, required_keys.
  rewrite !Forall_cons, Forall_nil. tauto.
Qed.

Lemma accept_row_Ok env (row : Row) (l : list Run) (w : World) :
  (∀ h run_id prov, update_job_status env h run_id prov = Ok tt) →
  (∀ h text, chat_postMessage env h text = Ok tt) →
  accept_row env row (l, w) = (Ok tt, (l ++ accepted row, w ++ admission_events row)).
Proof.
  intros Hup Hchat. unfold accept_row, accepted, admission_events.
  destruct (decide (has_required row)) as [Hreq|Hreq].
  - apply has_required_lookups in Hreq as ([url Hu] & [grid Hg] & [name Hn]).
    rewrite Hu, Hg, Hn. rewrite send_slack_msg_final_msg.
    unfold_monad. unfold pg_update_job_status, call. cbn [fst snd default].
    rewrite Hup, Hchat. by rewrite <- app_assoc.
  - rewrite send_slack_msg_final_msg.
    assert (Hgo :
      (pg_update_job_status env (run_id row) "Error - Lacks the required run properties.";;
       call (EvChatPostMessage
               (final_msg (run_id row) "lacked the required run properties."
                  (run_data row !! "instancename")))
            (λ w0, chat_postMessage env w0
                     (final_msg (run_id row) "lacked the required run properties."
                        (run_data row !! "instancename")))) (l, w) =
      (Ok tt, (l ++ [], w ++
        [EvUpdateJobStatus (run_id row) "Error - Lacks the required run properties.";
         EvChatPostMessage
           (final_msg (run_id row) "lacked the required run properties."
              (run_data row !! "instancename"))]))).
    { unfold_monad. unfold pg_update_job_status, call. cbn [fst snd].
      rewrite Hup, Hchat. by rewrite <- app_assoc, app_nil_r. }
    destruct (run_data row !! "downloadurl") eqn:Hu; [|exact Hgo].
    destruct (run_data row !! "adcirc.gridname") eqn:Hg; [|exact Hgo].
    destruct (run_data row !! "instancename") eqn:Hn; [|exact Hgo].
    exfalso. apply Hreq, has_required_lookups. rewrite Hu, Hg, Hn. eauto.
Qed.

Lemma accept_rows_Ok env (rows : list Row) (l : list Run) (w : World) :
  (∀ h run_id prov, update_job_status env h run_id prov = Ok tt) →
  (∀ h text, chat_postMessage env h text = Ok tt) →
  accept_rows env rows (l, w) =
    (Ok tt, (l ++ concat (map accepted rows),
             w ++ concat (map admission_events rows))).
Proof.
  intros Hup Hchat. revert l w.
  induction rows as [|row rows IH]; intros l w; simpl.
  - by rewrite !app_nil_r.
  - erewrite bind_Ok; [|by apply accept_row_Ok].
    rewrite IH. by rewrite <- !app_assoc.
Qed.

(** C5.  [get_incomplete_runs] on the rows the store returns, when the
    status write and the Slack call return.  In the order of the rows: a
    row with the three required keys adds a run in [staging], [new], with
    provenance "New, Run accepted" at the end of [run_list], writes that
    provenance to the store and posts "accepted."; a row that lacks a
    required key adds nothing, writes "Error - Lacks the required run
    properties." and posts "lacked the required run properties.". *)
Theorem admission_of_rows env (rows : list Row) (l : list Run) (w : World) :
  get_new_runs env w = Ok (Rows rows) →
  (∀ h run_id prov, update_job_status env h run_id prov = Ok tt) →
  (∀ h text, chat_postMessage env h text = Ok tt) →
  get_incomplete_runs env (l, w) =
    (Ok tt, (l ++ concat (map accepted rows),
             w ++ EvGetNewRuns :: concat (map admission_events rows)))
  ∧ ∀ row, row ∈ rows →
      ((is_Some (run_data row !! "downloadurl") ∧
        is_Some (run_data row !! "adcirc.gridname") ∧
        is_Some (run_data row !! "instancename")) →
       ∃ url grid name,
         run_data row !! "downloadurl" = Some url ∧
         run_data row !! "adcirc.gridname" = Some grid ∧
         run_data row !! "instancename" = Some name ∧
         accepted row =
           [mkRun (run_id row) JobType.staging JobStatus.new "New, Run accepted"
                  url grid name []] ∧
         admission_events row =
           [EvUpdateJobStatus (run_id row) "New, Run accepted";
            EvChatPostMessage (final_msg (run_id row) "accepted." (Some name))])
      ∧
      ((run_data row !! "downloadurl" = None ∨
        run_data row !! "adcirc.gridname" = None ∨
        run_data row !! "instancename" = None) →
       accepted row = [] ∧
       admission_events row =
         [EvUpdateJobStatus (run_id row) "Error - Lacks the required run properties.";
          EvChatPostMessage
            (final_msg (run_id row) "lacked the required run properties."
               (run_data row !! "instancename"))]).
Proof.
  intros Hget Hup Hchat. split.
  - unfold get_incomplete_runs.
    erewrite bind_Ok; [|unfold call; cbn [fst snd]; by rewrite Hget].
    cbv beta iota. rewrite accept_rows_Ok by done. by rewrite <- app_assoc.
  - intros row _. unfold accepted, admission_events. split.
    + intros Hreq. destruct (decide (has_required row)) as [_|Hn];
        [|by apply has_required_lookups in Hreq].
      destruct Hreq as ([url Hu] & [grid Hg] & [name Hn]).
      exists url, grid, name. by rewrite Hu, Hg, Hn.
    + intros Hmiss. destruct (decide (has_required row)) as [Hreq|_]; [|done].
      apply has_required_lookups in Hreq as (Hu & Hg & Hn).
      exfalso. destruct Hmiss as [H|[H|H]]; rewrite H in *; by eapply is_Some_None.
Qed.

Lemma admission_of_rows_witness :
  get_incomplete_runs (sample_env (None, "Succeeded") [sample_row; sample_row_incomplete])
    ([], []) =
    (Ok tt,
     ([mkRun "42" JobType.staging JobStatus.new "New, Run accepted"
             "http://x/f" "g1" "inst-A" []],
      [EvGetNewRuns;
       EvUpdateJobStatus "42" "New, Run accepted";
       EvChatPostMessage "APSViz Supervisor - Instance name: inst-A, Run ID: 42 accepted.";
       EvUpdateJobStatus "43" "Error - Lacks the required run properties.";
       EvChatPostMessage
         "APSViz Supervisor - Run ID: 43 lacked the required run properties."])).
Proof.
  exact (proj1 (admission_of_rows
                  (sample_env (None, "Succeeded") [sample_row; sample_row_incomplete])
                  [sample_row; sample_row_incomplete] [] []
                  eq_refl (λ _ _ _, eq_refl) (λ _ _, eq_refl))).
Defined.

(** ** The stage handler: a job that was created *)

Lemma job_id_of_run_Ok (run : Run) (w : World) :
  job_bound run →
  ∃ job_id, job_id_of_run (run, w) = (Ok job_id, (run, w)).
Proof.
  intros (b & job_id & Hb & Hj). exists job_id.
  unfold job_id_of_run, get_run. unfold_monad. cbn [fst snd].
  by rewrite Hb, Hj.
Qed.

Section CheckJob.

Variable env : Env.
Variables (next_type : JobType.t) (next_status : Z) (complete_text : string).
Variables (failed_msg : JobType.t → string) (failed_type : JobType.t)
          (failed_status : Z).
Variables (run : Run) (w : World).

Let check := check_job env next_type next_status complete_text
               failed_msg failed_type failed_status.

Hypothesis bound : job_bound run.

(** The job is gone and its pod did not fail. *)
Lemma check_job_complete pod :
  find_job_info env w run = Ok (None, pod) →
  PyStr.startswith pod "Failed" = false →
  is_Ok (delete_job env (w ++ [EvFindJobInfo run]) run) →
  update_job_status env (w ++ [EvFindJobInfo run; EvDeleteJob run]) (id run)
    (status_prov run +:+ complete_text) = Ok tt →
  check (run, w) =
    (Ok tt,
     (set_status_prov (status_prov run +:+ complete_text)
        (set_status next_status (set_job_type next_type run)),
      w ++ [EvFindJobInfo run; EvDeleteJob run;
            EvUpdateJobStatus (id run) (status_prov run +:+ complete_text)])).
Proof.
  intros Hfind Hpod Hdel Hup.
  destruct (job_id_of_run_Ok run ((w ++ [EvFindJobInfo run]) ++ [EvDeleteJob run]) bound)
    as [job_id Hid].
  unfold check, check_job.
  unfold_monad. unfold get_run at 1. unfold call at 1. cbn [fst snd].
  rewrite Hfind. cbn [fst snd]. rewrite Hpod.
  rewrite bool_decide_eq_true_2 by done. cbn [andb negb].
  unfold get_run at 1. unfold call at 1. cbn [fst snd].
  destruct (delete_job env (w ++ [EvFindJobInfo run]) run) as [x|]; [|done].
  rewrite Hid.
  unfold modify_run, get_run, pg_update_job_status, call. cbn [fst snd].
  cbn [set_status_prov set_status set_job_type id status_prov].
  rewrite <- !app_assoc. cbn [app]. by rewrite Hup.
Qed.

(** The pod failed. *)
Lemma check_job_failed job_status pod :
  find_job_info env w run = Ok (job_status, pod) →
  PyStr.startswith pod "Failed" = true →
  is_Ok (delete_job env (w ++ [EvFindJobInfo run]) run) →
  chat_postMessage env (w ++ [EvFindJobInfo run; EvDeleteJob run])
    (final_msg (id run) (failed_msg (job_type run)) (Some (instance_name run))) = Ok tt →
  check (run, w) =
    (Ok tt,
     (set_status failed_status (set_job_type failed_type run),
      w ++ [EvFindJobInfo run; EvDeleteJob run;
            EvChatPostMessage
              (final_msg (id run) (failed_msg (job_type run))
                 (Some (instance_name run)))])).
Proof.
  intros Hfind Hpod Hdel Hchat.
  destruct (job_id_of_run_Ok run ((w ++ [EvFindJobInfo run]) ++ [EvDeleteJob run]) bound)
    as [job_id Hid].
  unfold check, check_job.
  unfold_monad. unfold get_run at 1. unfold call at 1. cbn [fst snd].
  rewrite Hfind. cbn [fst snd]. rewrite Hpod.
  rewrite andb_false_r.
  unfold get_run at 1. unfold call at 1. cbn [fst snd].
  destruct (delete_job env (w ++ [EvFindJobInfo run]) run) as [x|]; [|done].
  rewrite Hid.
  rewrite send_slack_msg_final_msg.
  unfold modify_run, call. cbn [fst snd].
  rewrite <- !app_assoc. cbn [app]. by rewrite Hchat.
Qed.

(** The job is still active. *)
Lemma check_job_active job_status pod :
  find_job_info env w run = Ok (Some job_status, pod) →
  PyStr.startswith pod "Failed" = false →
  check (run, w) = (Ok tt, (run, w ++ [EvFindJobInfo run])).
Proof.
  intros Hfind Hpod.
  unfold check, check_job.
  unfold_monad. unfold get_run at 1. unfold call at 1. cbn [fst snd].
  rewrite Hfind. cbn [fst snd]. rewrite Hpod.
  by rewrite bool_decide_eq_false_2.
Qed.

End CheckJob.

(** For a stage with a handler and a run in the running status of the
    stage, [handle_run] is the [check_job] block of the stage. *)
Lemma handle_run_running env (run : Run) (w : World) (e : Stage) :
  stage_catalog (job_type run) = Some e →
  status run = running e →
  let final := bool_decide (job_type run = JobType.final_staging) in
  handle_run env (run, w) =
    (check_job env (successor e)
       (if final then JobStatus.final_staging_complete else JobStatus.new)
       (complete_marker e)
       (if final then failed_in_final_staging else failed_in)
       (if final then JobType.complete else JobType.error)
       (if final then JobStatus.final_staging_complete else JobStatus.error);;
     mret false) (run, w).
Proof.
  destruct run as [rid j st prov url grid name bs]. cbn [job_type status].
  intros He Hst.
  destruct j; try done; injection He as <-; cbn [running] in Hst; subst st;
    reflexivity.
Qed.

(** C8.  A run in [final_staging] whose job was created and whose pod
    condition starts with "Failed", when deleting the job and posting to
    Slack return: the job is deleted, the message posted ends with the
    warning that intermediate files may not have been removed, and the run
    goes to job type [complete] with status [final_staging_complete], not
    to [error]. *)
Theorem final_staging_failure_completes env (run : Run) (w : World)
    (job_status : option Z) (pod : string) :
  job_type run = JobType.final_staging →
  status run = JobStatus.final_staging_running →
  job_bound run →
  find_job_info env w run = Ok (job_status, pod) →
  PyStr.startswith pod "Failed" = true →
  is_Ok (delete_job env (w ++ [EvFindJobInfo run]) run) →
  (∀ text, chat_postMessage env (w ++ [EvFindJobInfo run; EvDeleteJob run]) text = Ok tt) →
  ∃ run',
    handle_run env (run, w) =
      (Ok false,
       (run',
        w ++ [EvFindJobInfo run; EvDeleteJob run;
              EvChatPostMessage
                (final_msg (id run)
                   "failed in final-staging. *Warning: Intermediate files may not have been removed.*"
                   (Some (instance_name run)))]))
    ∧ run' = set_status JobStatus.final_staging_complete (set_job_type JobType.complete run)
    ∧ job_type run' = JobType.complete
    ∧ job_type run' ≠ JobType.error
    ∧ status run' = JobStatus.final_staging_complete.
Proof.
  intros Hj Hst Hb Hfind Hpod Hdel Hchat.
  eexists. split; [|done].
  rewrite (handle_run_running env run w
             (mkStage JobStatus.final_staging_running JobType.complete
                ", Final staging complete")) by (by rewrite ?Hj).
  rewrite Hj, bool_decide_eq_true_2 by done.
  erewrite bind_Ok; [reflexivity|].
  erewrite check_job_failed; [|done..].
  by rewrite Hj.
Qed.

Lemma final_staging_failure_completes_witness :
  ∃ run',
    handle_run (sample_env (None, "Failed") [])
      (sample_run "42" JobType.final_staging 160 "New, Run accepted", []) =
      (Ok false,
       (run',
        [] ++ [EvFindJobInfo (sample_run "42" JobType.final_staging 160 "New, Run accepted");
               EvDeleteJob (sample_run "42" JobType.final_staging 160 "New, Run accepted");
               EvChatPostMessage
                 (final_msg "42"
                    "failed in final-staging. *Warning: Intermediate files may not have been removed.*"
                    (Some "inst-A"))]))
    ∧ run' = set_status JobStatus.final_staging_complete
               (set_job_type JobType.complete
                  (sample_run "42" JobType.final_staging 160 "New, Run accepted"))
    ∧ job_type run' = JobType.complete
    ∧ job_type run' ≠ JobType.error
    ∧ status run' = JobStatus.final_staging_complete.
Proof.
  apply (final_staging_failure_completes (sample_env (None, "Failed") [])
           (sample_run "42" JobType.final_staging 160 "New, Run accepted") []
           None "Failed");
    first [ reflexivity
          | exact I
          | by exists (mkBinding sample_template (Some "job-1")), "job-1" ].
Defined.

(** C1.  One call of the stage handler on a run whose job was created, in
    its stage's running status, when the calls to the driver, the store
    and Slack return.

    In [staging], [obs_mod], [run_geo_tiff], [compute_mbtiles_0_9],
    [compute_mbtiles_10], [compute_mbtiles_11] and [load_geo_server]:
    - job gone and pod condition not starting with "Failed": the job is
      deleted, the run moves to the next stage with status [new], the
      completion text of the stage is appended to the provenance and the
      provenance is written to the store;
    - pod condition starting with "Failed": the job is deleted,
      "failed in <stage>." is posted, the run moves to job type [error]
      with status [error];
    - otherwise the run is unchanged and the only call is the inspection.

    In [final_staging] the first case sets job type [complete] with status
    [final_staging_complete], and the second case posts the warning about
    intermediate files and also sets [complete] and
    [final_staging_complete]. *)
Theorem running_stage_tick env (run : Run) (w : World) (e : Stage)
    (job_status : option Z) (pod : string) :
  stage_catalog (job_type run) = Some e →
  status run = running e →
  job_bound run →
  find_job_info env w run = Ok (job_status, pod) →
  (∀ h r, is_Ok (delete_job env h r)) →
  (∀ h run_id prov, update_job_status env h run_id prov = Ok tt) →
  (∀ h text, chat_postMessage env h text = Ok tt) →
  let final := bool_decide (job_type run = JobType.final_staging) in
  let prov := status_prov run +:+ complete_marker e in
  (job_status = None → PyStr.startswith pod "Failed" = false →
   handle_run env (run, w) =
     (Ok false,
      (set_status_prov prov
         (set_status
            (if final then JobStatus.final_staging_complete else JobStatus.new)
            (set_job_type (successor e) run)),
       w ++ [EvFindJobInfo run; EvDeleteJob run;
             EvUpdateJobStatus (id run) prov])))
  ∧ (PyStr.startswith pod "Failed" = true →
     handle_run env (run, w) =
       (Ok false,
        (set_status
           (if final then JobStatus.final_staging_complete else JobStatus.error)
           (set_job_type (if final then JobType.complete else JobType.error) run),
         w ++ [EvFindJobInfo run; EvDeleteJob run;
               EvChatPostMessage
                 (final_msg (id run)
                    ("failed in " +:+ JobType.value (job_type run) +:+
                     (if final
                      then ". *Warning: Intermediate files may not have been removed.*"
                      else "."))
                    (Some (instance_name run)))])))
  ∧ (job_status ≠ None → PyStr.startswith pod "Failed" = false →
     handle_run env (run, w) = (Ok false, (run, w ++ [EvFindJobInfo run]))).
Proof.
  intros He Hst Hb Hfind Hdel Hup Hchat final prov.
  rewrite (handle_run_running env run w e He Hst). fold final.
  split; [|split].
  - intros -> Hpod.
    erewrite bind_Ok; [reflexivity|].
    by eapply check_job_complete.
  - intros Hpod.
    erewrite bind_Ok; [reflexivity|].
    erewrite check_job_failed; [|done..].
    by destruct final.
  - intros Hact Hpod. destruct job_status as [js|]; [|done].
    erewrite bind_Ok; [reflexivity|].
    by eapply check_job_active.
Qed.

Lemma running_stage_tick_witness :
  handle_run (sample_env (None, "Succeeded") [])
    (sample_run "42" JobType.run_geo_tiff 50 "New, Run accepted", []) =
    (Ok false,
     (set_status_prov "New, Run accepted, Geo tiff complete"
        (set_status JobStatus.new
           (set_job_type JobType.compute_mbtiles_0_9
              (sample_run "42" JobType.run_geo_tiff 50 "New, Run accepted"))),
      [EvFindJobInfo (sample_run "42" JobType.run_geo_tiff 50 "New, Run accepted");
       EvDeleteJob (sample_run "42" JobType.run_geo_tiff 50 "New, Run accepted");
       EvUpdateJobStatus "42" "New, Run accepted, Geo tiff complete"])).
Proof.
  refine (proj1 (running_stage_tick (sample_env (None, "Succeeded") [])
                   (sample_run "42" JobType.run_geo_tiff 50 "New, Run accepted") []
                   (mkStage JobStatus.run_geo_tiff_running JobType.compute_mbtiles_0_9
                      ", Geo tiff complete")
                   None "Succeeded" eq_refl eq_refl _ eq_refl
                   (λ _ _, I) (λ _ _ _, eq_refl) (λ _ _, eq_refl))
                eq_refl eq_refl).
  by exists (mkBinding sample_template (Some "job-1")), "job-1".
Defined.

(** C1, as stated, fails in [final_staging]: a job that completed leaves
    the run with status [final_staging_complete] and not [new], and a
    failed pod sends the run to [complete] and not to [error]. *)
Lemma final_staging_tick_differs :
  (∃ run' w',
     handle_run (sample_env (None, "Succeeded") [])
       (sample_run "42" JobType.final_staging 160 "New, Run accepted", []) =
       (Ok false, (run', w'))
     ∧ job_type run' = JobType.complete
     ∧ status run' = JobStatus.final_staging_complete
     ∧ status run' ≠ JobStatus.new)
  ∧ (∃ run' w',
       handle_run (sample_env (None, "Failed") [])
         (sample_run "42" JobType.final_staging 160 "New, Run accepted", []) =
         (Ok false, (run', w'))
       ∧ job_type run' = JobType.complete
       ∧ job_type run' ≠ JobType.error
       ∧ status run' ≠ JobStatus.error).
Proof.
  split; eexists _, _; (split; [vm_compute; reflexivity|]); by vm_compute.
Qed.



(** ** The [Error] dispatch *)

Lemma schedule_cleanup_Ok env (run : Run) (w : World) :
  let prov := status_prov run +:+ ", Error detected" in
  update_job_status env w (id run) prov = Ok tt →
  schedule_cleanup env (run, w) =
    (Ok tt,
     (set_status JobStatus.new
        (set_job_type JobType.final_staging (set_status_prov prov run)),
      w ++ [EvUpdateJobStatus (id run) prov])).
Proof.
  intros prov Hup. unfold schedule_cleanup.
  unfold_monad. unfold modify_run, get_run, pg_update_job_status, call. cbn [fst snd].
  cbn [set_status_prov id status_prov]. fold prov. by rewrite Hup.
Qed.

Lemma schedule_cleanup_Raise env (run : Run) (w : World) e :
  let prov := status_prov run +:+ ", Error detected" in
  update_job_status env w (id run) prov = Raise e →
  schedule_cleanup env (run, w) =
    (Raise e, (set_status_prov prov run, w ++ [EvUpdateJobStatus (id run) prov])).
Proof.
  intros prov Hup. unfold schedule_cleanup.
  unfold_monad. unfold modify_run, get_run, pg_update_job_status, call. cbn [fst snd].
  cbn [set_status_prov id status_prov]. fold prov. by rewrite Hup.
Qed.

(** The loop body on a run in [error]: the run stays in the table, in
    [error] when the status write raised, in [final_staging] and [new]
    when it returned. *)
Lemma loop_body_error env (i : nat) (no_activity : bool) (l : list Run)
    (w : World) (run : Run) :
  l !! i = Some run →
  job_type run = JobType.error →
  let prov := status_prov run +:+ ", Error detected" in
  ∃ o run',
    loop_body env i no_activity (l, w) =
      (Ok (no_activity, o),
       (<[i:=run']> l, w ++ [EvUpdateJobStatus (id run) prov]))
    ∧ ((update_job_status env w (id run) prov = Ok tt ∧ o = ErrorDetected ∧
        run' = set_status JobStatus.new
                 (set_job_type JobType.final_staging (set_status_prov prov run)))
       ∨ (is_Ok (update_job_status env w (id run) prov) → False) ∧
         o = CleanupException ∧ run' = set_status_prov prov run).
Proof.
  intros Hi Hj prov.
  destruct (update_job_status env w (id run) prov) as [[]|e] eqn:Hup.
  - eexists ErrorDetected, _. split; [|left; done].
    unfold loop_body.
    erewrite (bind_Ok (first_try env i) _ _ (Some ErrorDetected)); [reflexivity|].
    unfold first_try, try_except.
    erewrite bind_Ok; [|by apply on_run_get_run].
    rewrite Hj. rewrite decide_False, decide_True by done.
    erewrite bind_Ok; [reflexivity|].
    eapply on_run_at; [done|]. by apply schedule_cleanup_Ok.
  - eexists CleanupException, _. split; [|right; done].
    unfold loop_body.
    erewrite (bind_Ok (first_try env i) _ _ (Some CleanupException)); [reflexivity|].
    unfold first_try, try_except.
    erewrite bind_Ok; [|by apply on_run_get_run].
    rewrite Hj. rewrite decide_False, decide_True by done.
    erewrite bind_Raise; [reflexivity|].
    eapply on_run_at; [done|]. by apply schedule_cleanup_Raise.
Qed.

Lemma body_step_error env (r r' : Run) :
  body_step env r r' →
  job_type r = JobType.error →
  job_type r' = JobType.error ∨
  (job_type r' = JobType.final_staging ∧ status r' = JobStatus.new).
Proof.
  intros (i & na & l & w & res & l' & w' & Hi & Hbody & Hi') Hj.
  destruct (loop_body_error env i na l w r Hi Hj) as (o & run' & Heq & Hcases).
  rewrite Heq in Hbody. injection Hbody as <- <- <-.
  rewrite list_lookup_insert_eq in Hi' by (by eapply lookup_lt_Some).
  injection Hi' as <-.
  destruct Hcases as [(_ & _ & ->)|(_ & _ & ->)]; [by right|by left].
Qed.

Lemma trajectory_from_error env (r : Run) (rs : list Run) (r_end : Run) :
  trajectory env r rs →
  job_type r = JobType.error →
  last rs = Some r_end →
  job_type r_end = JobType.complete →
  ∃ rs1 r_fs rs2,
    rs = rs1 ++ r_fs :: rs2 ∧
    Forall (λ x, job_type x = JobType.error) rs1 ∧
    job_type r_fs = JobType.final_staging ∧ status r_fs = JobStatus.new.
Proof.
  revert r. induction rs as [|r' rs IH]; intros r Htr Hj Hlast Hend; [done|].
  destruct Htr as [Hstep Htr].
  destruct (body_step_error env r r' Hstep Hj) as [He|[Hfs Hnew]].
  - destruct rs as [|r'' rs].
    + injection Hlast as ->. congruence.
    + destruct (IH r' Htr He Hlast Hend) as (rs1 & r_fs & rs2 & -> & Hall & Hfs & Hnew).
      exists (r' :: rs1), r_fs, rs2. by repeat split; [constructor|..].
  - by exists [], r', rs.
Qed.

(** C2.  The loop body on a run whose job type is [error], when the status
    write returns: ", Error detected" is appended to the provenance, the
    new provenance is written to the store, the run stays in the table with
    job type [final_staging] and status [new], and the activity flag is
    left as it was.  And over any sequence of evaluations of a run that
    starts in [error] and ends in [complete], the run is in [error] until an
    evaluation leaves it in [final_staging] with status [new]. *)
Theorem error_run_is_sent_to_cleanup env :
  (∀ (i : nat) (no_activity : bool) (l : list Run) (w : World) (run : Run),
     l !! i = Some run →
     job_type run = JobType.error →
     let prov := status_prov run +:+ ", Error detected" in
     update_job_status env w (id run) prov = Ok tt →
     loop_body env i no_activity (l, w) =
       (Ok (no_activity, ErrorDetected),
        (<[i:=set_status JobStatus.new
                (set_job_type JobType.final_staging (set_status_prov prov run))]> l,
         w ++ [EvUpdateJobStatus (id run) prov])))
  ∧ (∀ (r : Run) (rs : list Run) (r_end : Run),
       trajectory env r rs →
       job_type r = JobType.error →
       last rs = Some r_end →
       job_type r_end = JobType.complete →
       ∃ rs1 r_fs rs2,
         rs = rs1 ++ r_fs :: rs2 ∧
         Forall (λ x, job_type x = JobType.error) rs1 ∧
         job_type r_fs = JobType.final_staging ∧ status r_fs = JobStatus.new).
Proof.
  split.
  - intros i na l w run Hi Hj prov Hup.
    destruct (loop_body_error env i na l w run Hi Hj) as (o & run' & Heq & Hcases).
    rewrite Heq.
    destruct Hcases as [(_ & -> & ->)|(Hno & _)]; [done|].
    exfalso. apply Hno. fold prov in Hup |- *. by rewrite Hup.
  - apply trajectory_from_error.
Qed.

Lemma error_run_is_sent_to_cleanup_witness :
  loop_body (sample_env (None, "Succeeded") []) 0 true ([sample_error_run], []) =
    (Ok (true, ErrorDetected),
     ([set_status JobStatus.new
         (set_job_type JobType.final_staging
            (set_status_prov "New, Run accepted, Staging running, Error detected"
               sample_error_run))],
      [EvUpdateJobStatus "42" "New, Run accepted, Staging running, Error detected"]))
  ∧ ∃ rs1 r_fs rs2,
      [run_after (sample_env (None, "Succeeded") []) sample_error_run;
       run_after (sample_env (None, "Succeeded") [])
         (run_after (sample_env (None, "Succeeded") []) sample_error_run);
       run_after (sample_env (None, "Succeeded") [])
         (run_after (sample_env (None, "Succeeded") [])
            (run_after (sample_env (None, "Succeeded") []) sample_error_run))] =
      rs1 ++ r_fs :: rs2 ∧
      Forall (λ x, job_type x = JobType.error) rs1 ∧
      job_type r_fs = JobType.final_staging ∧ status r_fs = JobStatus.new.
Proof.
  pose proof (error_run_is_sent_to_cleanup (sample_env (None, "Succeeded") []))
    as [Hfirst Hsecond].
  split.
  - exact (Hfirst 0%nat true [sample_error_run] [] sample_error_run
             eq_refl eq_refl eq_refl).
  - eapply (Hsecond sample_error_run); [|reflexivity|reflexivity|reflexivity].
    repeat split;
      (eexists 0%nat, true, [_], [], _, _, _;
       split; [reflexivity|split; vm_compute; reflexivity]).
Defined.

(** ** What a handler call that returns has done *)

Lemma bind_inv {S A B} (m : M S A) (k : A → M S B) s b s'' :
  (m ≫= k) s = (Ok b, s'') →
  ∃ a s', m s = (Ok a, s') ∧ k a s' = (Ok b, s'').
Proof.
  unfold_monad. destruct (m s) as [[a|e] s']; [|done]. by exists a, s'.
Qed.

Lemma k8s_create_job_obj_inv env params ext (run : Run) (w : World) r run1 w1 :
  status run = JobStatus.new →
  k8s_create_job_obj env params ext (run, w) = (Ok r, (run1, w1)) →
  w1 = w ++ [EvGetConfig] ∧ ∃ bs, run1 = set_bindings bs run.
Proof.
  intros Hst. unfold k8s_create_job_obj.
  intros (run0 & s0 & [= <- <-] & H)%bind_inv. cbn [fst] in H.
  rewrite Hst in H. change (JobStatus.new =? JobStatus.new) with true in H.
  cbv iota in H.
  apply bind_inv in H as (cfg & s1 & Hcall & H).
  unfold call in Hcall. cbn [fst snd] in Hcall. injection Hcall as _ <-.
  apply bind_inv in H as (t & s2 & Hitem & H).
  unfold config_item in Hitem.
  destruct (templates cfg (job_type run)); [|done].
  injection Hitem as _ <-.
  unfold modify_run in H. cbn [fst snd] in H. injection H as _ <- <-.
  split; [done|]. by eexists.
Qed.

Lemma k8s_execute_inv env (run : Run) (w : World) r run2 w2 :
  k8s_execute env (run, w) = (Ok r, (run2, w2)) →
  w2 = w ++ [EvExecute run] ∧ is_Ok (execute env w run) ∧
  ∃ bs, run2 = set_bindings bs run.
Proof.
  unfold k8s_execute.
  intros (run0 & s0 & [= <- <-] & H)%bind_inv. cbn [fst] in H.
  apply bind_inv in H as (job_id & s1 & Hcall & H).
  unfold call in Hcall. cbn [fst snd] in Hcall. injection Hcall as Hex <-.
  destruct (binding_get (job_type run) (bindings run)); [|done].
  unfold modify_run in H. cbn [fst snd] in H. injection H as _ <- <-.
  split; [done|]. split; [by rewrite Hex|]. by eexists.
Qed.

Lemma job_id_of_run_inv (s : Run * World) r s' :
  job_id_of_run s = (Ok r, s') → s' = s.
Proof.
  unfold job_id_of_run.
  intros (run0 & s0 & [= <- <-] & H)%bind_inv.
  destruct (binding_get _ _) as [b|]; [|done].
  destruct (job_config b); [|done]. by injection H as _ <-.
Qed.

Lemma config_item_reader cfg j : reader (config_item cfg j).
Proof.
  intros s r s'. unfold config_item.
  destruct (templates cfg j); by intros [= _ <-].
Qed.

Lemma params_reader env :
  reader staging_params ∧ reader (obs_mod_params env) ∧ reader (tile_params env) ∧
  reader load_geo_server_params ∧ reader (final_staging_params env).
Proof.
  repeat split; intros [run w] r s';
    unfold staging_params, obs_mod_params, tile_params, load_geo_server_params,
      final_staging_params, config_item;
    unfold_monad; unfold get_run; cbn [fst snd];
    try destruct (templates _ _); by intros [= _ <-].
Qed.

(** The [new] block of a stage, when it returns: the configuration was
    read, the job submitted, and then the provenance written. *)
Lemma create_job_inv env params ext running_st text (run : Run) (w : World)
    r run' w' :
  reader params →
  status run = JobStatus.new →
  create_job env params ext running_st text (run, w) = (Ok r, (run', w')) →
  ∃ run_x bs,
    w' = w ++ [EvGetConfig; EvExecute run_x;
               EvUpdateJobStatus (id run) (status_prov run +:+ text)] ∧
    update_job_status env (w ++ [EvGetConfig; EvExecute run_x]) (id run)
      (status_prov run +:+ text) = Ok tt ∧
    run' = set_status_prov (status_prov run +:+ text)
             (set_status running_st (set_bindings bs run)).
Proof.
  intros Hrd Hst. unfold create_job.
  intros (ps & s0 & Hps & H)%bind_inv.
  pose proof (Hrd _ _ _ Hps) as ->.
  apply bind_inv in H as ([] & [run1 w1] & Hobj & H).
  apply (k8s_create_job_obj_inv _ _ _ _ _ _ _ _ Hst) in Hobj as (-> & bs1 & ->).
  apply bind_inv in H as ([] & [run2 w2] & Hex & H).
  apply k8s_execute_inv in Hex as (-> & _ & bs2 & ->).
  unfold_monad. unfold modify_run at 1 2 in H. unfold get_run at 1 in H.
  unfold pg_update_job_status, call in H. cbn [fst snd] in H.
  cbn [set_status_prov set_status set_bindings id status_prov] in H.
  destruct (update_job_status env _ _ _) as [[]|] eqn:Hup; [|done].
  destruct (job_id_of_run _) as [[j|] s3] eqn:Hid; [|done].
  apply job_id_of_run_inv in Hid as ->.
  injection H as _ <- <-.
  exists (set_bindings bs1 run), bs2.
  rewrite <- !app_assoc in *. cbn [app] in *.
  split; [done|]. split; [exact Hup|]. done.
Qed.

(** The running block of a stage, when it returns. *)
Lemma check_job_inv env next_type next_status text failed_msg failed_type
    failed_status (run : Run) (w : World) r run' w' :
  check_job env next_type next_status text failed_msg failed_type failed_status
    (run, w) = (Ok r, (run', w')) →
  (∃ pod,
     find_job_info env w run = Ok (None, pod) ∧
     PyStr.startswith pod "Failed" = false ∧
     w' = w ++ [EvFindJobInfo run; EvDeleteJob run;
                EvUpdateJobStatus (id run) (status_prov run +:+ text)] ∧
     update_job_status env (w ++ [EvFindJobInfo run; EvDeleteJob run]) (id run)
       (status_prov run +:+ text) = Ok tt ∧
     run' = set_status_prov (status_prov run +:+ text)
              (set_status next_status (set_job_type next_type run)))
  ∨ (∃ job_status pod,
       find_job_info env w run = Ok (job_status, pod) ∧
       PyStr.startswith pod "Failed" = true ∧
       w' = w ++ [EvFindJobInfo run; EvDeleteJob run;
                  EvChatPostMessage
                    (final_msg (id run) (failed_msg (job_type run))
                       (Some (instance_name run)))] ∧
       run' = set_status failed_status (set_job_type failed_type run))
  ∨ (∃ job_status pod,
       find_job_info env w run = Ok (Some job_status, pod) ∧
       PyStr.startswith pod "Failed" = false ∧
       w' = w ++ [EvFindJobInfo run] ∧ run' = run).
Proof.
  unfold check_job.
  intros (run0 & s0 & [= <- <-] & H)%bind_inv. cbn [fst] in H.
  apply bind_inv in H as ([job_status pod] & s1 & Hcall & H).
  unfold call in Hcall. cbn [fst snd] in Hcall. injection Hcall as Hfind <-.
  cbn [fst snd] in H.
  destruct (PyStr.startswith pod "Failed") eqn:Hpod.
  - rewrite andb_false_r in H. right; left. exists job_status, pod.
    apply bind_inv in H as (run0 & s0 & [= <- <-] & H). cbn [fst] in H.
    apply bind_inv in H as (x & s2 & Hcall & H).
    unfold call in Hcall. cbn [fst snd] in Hcall. injection Hcall as _ <-.
    apply bind_inv in H as (j & s3 & Hid & H).
    apply job_id_of_run_inv in Hid as ->.
    rewrite send_slack_msg_final_msg in H.
    unfold_monad. unfold call, modify_run in H. cbn [fst snd] in H.
    destruct (chat_postMessage env _ _) as [[]|]; [|done].
    injection H as _ <- <-.
    rewrite <- !app_assoc. by cbn [app].
  - destruct job_status as [js|].
    + right; right. exists js, pod.
      rewrite bool_decide_eq_false_2 in H by done. cbn [andb] in H.
      by injection H as _ <- <-.
    + left. exists pod.
      rewrite bool_decide_eq_true_2 in H by done. cbn [andb negb] in H.
      apply bind_inv in H as (run0 & s0 & [= <- <-] & H). cbn [fst] in H.
      apply bind_inv in H as (x & s2 & Hcall & H).
      unfold call in Hcall. cbn [fst snd] in Hcall. injection Hcall as _ <-.
      apply bind_inv in H as (j & s3 & Hid & H).
      apply job_id_of_run_inv in Hid as ->.
      unfold_monad. unfold modify_run, get_run, pg_update_job_status, call in H.
      cbn [fst snd] in H.
      cbn [set_status_prov set_status set_job_type id status_prov] in H.
      rewrite <- !app_assoc in H. cbn [app] in H.
      destruct (update_job_status env _ _ _) as [[]|] eqn:Hup; [|done].
      by injection H as _ <- <-.
Qed.

Lemma stage_inv running_st on_new on_running no_activity (run : Run) (w : World)
    r s' :
  stage running_st on_new on_running no_activity (run, w) = (Ok r, s') →
  (status run = JobStatus.new ∧ on_new (run, w) = (Ok tt, s'))
  ∨ (status run = running_st ∧ on_running (run, w) = (Ok tt, s'))
  ∨ s' = (run, w).
Proof.
  unfold stage.
  intros (run0 & s0 & [= <- <-] & H)%bind_inv. cbn [fst] in H.
  destruct (Z.eqb_spec (status run) JobStatus.new) as [Hnew|Hnew].
  - left. split; [done|].
    apply bind_inv in H as ([] & s1 & Hon & [= _ <-]). done.
  - destruct (Z.eqb_spec (status run) running_st) as [Hrun|Hrun]; cbn [andb] in H.
    + destruct (negb _); [|right; right; by injection H as _ <-].
      right; left. split; [done|].
      apply bind_inv in H as ([] & s1 & Hon & [= _ <-]). done.
    + right; right. by injection H as _ <-.
Qed.

Lemma stage_transition env running_st params ext running_text next_type
    next_status complete_text failed_msg failed_type failed_status no_activity
    (run : Run) (w : World) r run' w' :
  reader params →
  stage running_st
    (create_job env params ext running_st running_text)
    (check_job env next_type next_status complete_text failed_msg failed_type
       failed_status)
    no_activity (run, w) = (Ok r, (run', w')) →
  (job_type run', status run') ≠ (job_type run, status run) →
  written_or_failed env run w run' w'.
Proof.
  intros Hrd H Hchg.
  apply stage_inv in H as [[Hnew H]|[[Hrun H]|[= -> ->]]]; [| |done].
  - apply create_job_inv in H as (run_x & bs & -> & Hup & ->); [|done..].
    left. exists [EvGetConfig; EvExecute run_x]. eauto.
  - apply check_job_inv in H
      as [(pod & Hfind & Hpod & -> & Hup & ->)
         |[(js & pod & Hfind & Hpod & -> & ->)
          |(js & pod & Hfind & Hpod & -> & ->)]]; [| |done].
    + left. exists [EvFindJobInfo run; EvDeleteJob run]. eauto.
    + right. by eexists js, pod, _.
Qed.

(** C3.  A call of the stage handler that returns and has changed the
    stage or the status of the run either ends with a write of the run's
    new provenance to the store, which returned, made after the job was
    submitted (status [new]) or deleted (job completed) and followed by no
    other call; or it is the transition after a failed pod, which deletes
    the job, posts to Slack, writes nothing to the store and leaves the
    provenance as it was. *)
Theorem handler_transition_is_written_or_failed env (run : Run) (w : World)
    (no_activity : bool) (run' : Run) (w' : World) :
  handle_run env (run, w) = (Ok no_activity, (run', w')) →
  (job_type run', status run') ≠ (job_type run, status run) →
  written_or_failed env run w run' w'.
Proof.
  destruct (params_reader env) as (Hp1 & Hp2 & Hp3 & Hp4 & Hp5).
  unfold handle_run.
  intros (run0 & s0 & [= <- <-] & H)%bind_inv Hchg. cbn [fst] in H.
  destruct (job_type run) eqn:Hj;
    try (injection H as _ <- <-; by rewrite Hj in Hchg);
    (eapply stage_transition; [|exact H|by rewrite Hj]); assumption.
Qed.

Lemma handler_transition_is_written_or_failed_witness :
  written_or_failed (sample_env (None, "Succeeded") [])
    (sample_run "42" JobType.load_geo_server 1 "New, Run accepted") []
    (handle_run (sample_env (None, "Succeeded") [])
       (sample_run "42" JobType.load_geo_server 1 "New, Run accepted", [])).2.1
    (handle_run (sample_env (None, "Succeeded") [])
       (sample_run "42" JobType.load_geo_server 1 "New, Run accepted", [])).2.2.
Proof.
  apply (handler_transition_is_written_or_failed _ _ _ false).
  - vm_compute. reflexivity.
  - vm_compute. discriminate.
Defined.

(** C3, as stated, fails on the transition after a failed pod: the run in
    [staging] goes to [error] and no call of the handler is a write to the
    store. *)
Lemma pod_failure_is_not_written :
  ∃ run' w',
    handle_run (sample_env (None, "Failed") [])
      (sample_run "42" JobType.staging 10 "New, Run accepted, Staging running", []) =
      (Ok false, (run', w'))
    ∧ job_type run' = JobType.error
    ∧ status run' = JobStatus.error
    ∧ status_prov run' = "New, Run accepted, Staging running"
    ∧ ∀ run_id prov, EvUpdateJobStatus run_id prov ∉ w'.
Proof.
  eexists _, _. split; [vm_compute; reflexivity|].
  repeat split.
  intros run_id prov Hin.
  repeat (apply elem_of_cons in Hin as [Hin|Hin]; [discriminate Hin|]).
  by apply elem_of_nil in Hin.
Qed.

(** ** The run id is never assigned *)

Lemma keeps_id_ret {A} (a : A) : keeps_id (mret a).
Proof. by intros run w r run' w' [= _ <- _]. Qed.

Lemma keeps_id_raise {A} e : keeps_id (@raise _ A e).
Proof. by intros run w r run' w' [= _ <- _]. Qed.

Lemma keeps_id_get_run : keeps_id get_run.
Proof. by intros run w r run' w' [= _ <- _]. Qed.

Lemma keeps_id_call {A} ev (answer : World → Res A) : keeps_id (call ev answer).
Proof. by intros run w r run' w' [= _ <- _]. Qed.

Lemma keeps_id_modify_run f :
  (∀ r, id (f r) = id r) → keeps_id (modify_run f).
Proof. intros Hf run w r run' w' [= _ <- _]. apply Hf. Qed.

Lemma keeps_id_bind {A B} (m : M (Run * World) A) (k : A → M (Run * World) B) :
  keeps_id m → (∀ a, keeps_id (k a)) → keeps_id (m ≫= k).
Proof.
  intros Hm Hk run w r run' w'. unfold_monad.
  destruct (m (run, w)) as [[a|e] [run1 w1]] eqn:Hm1.
  - intros H. rewrite (Hk a _ _ _ _ _ H). by eapply Hm.
  - intros [= _ <- _]. by eapply Hm.
Qed.

Lemma keeps_id_try_except {A} (m : M (Run * World) A) h :
  keeps_id m → (∀ e, keeps_id (h e)) → keeps_id (try_except m h).
Proof.
  intros Hm Hh run w r run' w'. unfold try_except.
  destruct (m (run, w)) as [[a|e] [run1 w1]] eqn:Hm1.
  - intros [= _ <- _]. by eapply Hm.
  - intros H. rewrite (Hh e _ _ _ _ _ H). by eapply Hm.
Qed.

Ltac keeps_id_step :=
  first
    [ apply keeps_id_bind
    | apply keeps_id_try_except
    | apply keeps_id_ret
    | apply keeps_id_raise
    | apply keeps_id_get_run
    | apply keeps_id_call
    | apply keeps_id_modify_run; by intros []
    | assumption
    | lazymatch goal with
      | |- keeps_id _ => fail
      | |- _ => intro
      end
    | match goal with
      | |- keeps_id (match ?x with _ => _ end) => destruct x
      | |- keeps_id (let _ := _ in _) => cbv zeta
      end ].

Lemma keeps_id_config_item cfg j : keeps_id (config_item cfg j).
Proof. unfold config_item. repeat keeps_id_step. Qed.

Lemma keeps_id_send_slack_msg env run_id msg name :
  keeps_id (send_slack_msg env run_id msg name).
Proof. unfold send_slack_msg. repeat keeps_id_step. Qed.

Ltac keeps_id :=
  repeat first
    [ keeps_id_step
    | apply keeps_id_config_item
    | apply keeps_id_send_slack_msg ].

Lemma keeps_id_handle_run env : keeps_id (handle_run env).
Proof. unfold handle_run, stage. keeps_id. Qed.

Lemma keeps_id_second_try env no_activity : keeps_id (second_try env no_activity).
Proof. unfold second_try, recover. keeps_id. Qed.

Lemma keeps_id_finish_run env : keeps_id (finish_run env).
Proof. unfold finish_run. keeps_id. Qed.

Lemma keeps_id_schedule_cleanup env : keeps_id (schedule_cleanup env).
Proof. unfold schedule_cleanup. keeps_id. Qed.

(** ** The loop body, case by case *)

Lemma stage_false running_st on_new on_running s b s' :
  stage running_st on_new on_running false s = (Ok b, s') → b = false.
Proof.
  unfold stage.
  intros (run0 & s0 & [= <- <-] & H)%bind_inv.
  destruct (_ =? _).
  - by apply bind_inv in H as ([] & s1 & _ & [= <- _]).
  - destruct (_ && _); [|by injection H as <- _].
    by apply bind_inv in H as ([] & s1 & _ & [= <- _]).
Qed.

(** [handle_run] returns [False] whenever it returns. *)
Lemma handle_run_false env s b s' :
  handle_run env s = (Ok b, s') → b = false.
Proof.
  unfold handle_run.
  intros (run0 & s0 & [= <- <-] & H)%bind_inv.
  destruct (job_type _);
    first [ by eapply stage_false | by injection H as <- _ ].
Qed.

Lemma second_try_cases env no_activity (run : Run) (w : World) res s' :
  second_try env no_activity (run, w) = (res, s') →
  (res = Ok (false, RunHandled) ∧ handle_run env (run, w) = (Ok false, s'))
  ∨ (∃ e s1,
       handle_run env (run, w) = (Raise e, s1) ∧
       recover env no_activity s1 = (res, s') ∧
       (res = Ok (no_activity, HandlerException) ∨ ∃ e', res = Raise e')).
Proof.
  unfold second_try, try_except.
  destruct (handle_run env (run, w)) as [[b|e] s1] eqn:Hh.
  - pose proof (handle_run_false _ _ _ _ Hh) as ->.
    erewrite bind_Ok by exact Hh. intros [= <- <-]. by left.
  - erewrite bind_Raise by exact Hh.
    intros Hrec.
    right. exists e, s1. split; [done|]. split; [done|].
    destruct res as [[b o]|e']; [left|by right; eexists].
    unfold recover in Hrec.
    repeat (apply bind_inv in Hrec as (? & ? & _ & Hrec)).
    by injection Hrec as <- <- _.
Qed.

Lemma loop_body_cases env (i : nat) (no_activity : bool) (l : list Run)
    (w : World) (run : Run) res l' w' :
  l !! i = Some run →
  loop_body env i no_activity (l, w) = (res, (l', w')) →
  ∃ run',
    id run' = id run ∧
    ((job_type run = JobType.complete ∧ res = Ok (no_activity, RunComplete) ∧
      finish_run env (run, w) = (Ok tt, (run', w')) ∧
      list_remove run' (<[i:=run']> l) = Some l')
     ∨ (job_type run = JobType.complete ∧ res = Ok (no_activity, CleanupException) ∧
        (∃ e, finish_run env (run, w) = (Raise e, (run', w'))) ∧
        l' = <[i:=run']> l)
     ∨ (job_type run = JobType.error ∧ res = Ok (no_activity, ErrorDetected) ∧
        schedule_cleanup env (run, w) = (Ok tt, (run', w')) ∧
        l' = <[i:=run']> l)
     ∨ (job_type run = JobType.error ∧ res = Ok (no_activity, CleanupException) ∧
        (∃ e, schedule_cleanup env (run, w) = (Raise e, (run', w'))) ∧
        l' = <[i:=run']> l)
     ∨ (job_type run ≠ JobType.complete ∧ job_type run ≠ JobType.error ∧
        second_try env no_activity (run, w) = (res, (run', w')) ∧
        l' = <[i:=run']> l)).
Proof.
  intros Hi. unfold loop_body, first_try, try_except.
  destruct (decide (job_type run = JobType.complete)) as [Hc|Hc];
    [|destruct (decide (job_type run = JobType.error)) as [He|He]].
  - destruct (finish_run env (run, w)) as [[[]|e] [run' w1]] eqn:Hfin.
    + assert (Hin : run' ∈ <[i:=run']> l).
      { apply list_elem_of_lookup. exists i. apply list_lookup_insert_eq.
        by eapply lookup_lt_Some. }
      destruct (list_remove_elem_of _ _ Hin) as [l1 Hrm].
      erewrite (bind_Ok _ _ _ (Some RunComplete) (l1, w1)).
      * intros [= <- <- <-]. exists run'.
        split; [by eapply keeps_id_finish_run|]. left. done.
      * erewrite bind_Ok; [|by apply on_run_get_run].
        rewrite decide_True by done.
        erewrite bind_Ok; [|by eapply on_run_at].
        erewrite bind_Ok;
          [|apply on_run_get_run, list_lookup_insert_eq; by eapply lookup_lt_Some].
        unfold run_list_remove at 1. unfold_monad. cbn [fst snd]. by rewrite Hrm.
    + erewrite (bind_Ok _ _ _ (Some CleanupException) (<[i:=run']> l, w1)).
      * intros [= <- <- <-]. exists run'.
        split; [by eapply keeps_id_finish_run|]. right; left. eauto.
      * erewrite bind_Ok; [|by apply on_run_get_run].
        rewrite decide_True by done.
        erewrite bind_Raise; [reflexivity|by eapply on_run_at].
  - destruct (schedule_cleanup env (run, w)) as [[[]|e] [run' w1]] eqn:Hsc.
    + erewrite (bind_Ok _ _ _ (Some ErrorDetected) (<[i:=run']> l, w1)).
      * intros [= <- <- <-]. exists run'.
        split; [by eapply keeps_id_schedule_cleanup|]. right; right; left. done.
      * erewrite bind_Ok; [|by apply on_run_get_run].
        rewrite decide_False, decide_True by done.
        erewrite bind_Ok; [reflexivity|by eapply on_run_at].
    + erewrite (bind_Ok _ _ _ (Some CleanupException) (<[i:=run']> l, w1)).
      * intros [= <- <- <-]. exists run'.
        split; [by eapply keeps_id_schedule_cleanup|]. right; right; right; left. eauto.
      * erewrite bind_Ok; [|by apply on_run_get_run].
        rewrite decide_False, decide_True by done.
        erewrite bind_Raise; [reflexivity|by eapply on_run_at].
  - erewrite (bind_Ok _ _ _ None (l, w)).
    + unfold on_run. cbn [fst snd]. rewrite Hi.
      destruct (second_try env no_activity (run, w)) as [res1 [run' w1]] eqn:Hst.
      intros [= <- <- <-]. exists run'.
      split; [by eapply keeps_id_second_try|]. right; right; right; right. done.
    + erewrite bind_Ok; [|by apply on_run_get_run].
      by rewrite !decide_False by done.
Qed.

Lemma list_remove_length (x : Run) (l l' : list Run) :
  list_remove x l = Some l' → length l = S (length l').
Proof.
  intros H%list_remove_Permutation. by rewrite H.
Qed.

Lemma loop_body_length env (i : nat) (no_activity : bool) (l : list Run)
    (w : World) (run : Run) res l' w' :
  l !! i = Some run →
  loop_body env i no_activity (l, w) = (res, (l', w')) →
  (length l' ≤ length l)%nat.
Proof.
  intros Hi Hbody.
  destruct (loop_body_cases _ _ _ _ _ _ _ _ _ Hi Hbody)
    as (run' & _ & [(_ & _ & _ & Hrm)|[(_ & _ & _ & ->)|[(_ & _ & _ & ->)
       |[(_ & _ & _ & ->)|(_ & _ & _ & ->)]]]]);
    rewrite ?length_insert; try lia.
  apply list_remove_length in Hrm. rewrite length_insert in Hrm. lia.
Qed.

(** The loop over the table ends: the distance from the index to the end of
    the list is enough fuel. *)
Lemma for_runs_total env (fuel i : nat) (no_activity : bool) (l : list Run)
    (w : World) (seen : Evaluated) :
  (length l - i ≤ fuel)%nat →
  is_Some (for_runs env fuel i no_activity (l, w) seen).
Proof.
  revert i no_activity l w seen.
  induction fuel as [|fuel IH]; intros i na l w seen Hfuel; simpl.
  - rewrite lookup_ge_None_2 by lia. by eexists.
  - destruct (l !! i) as [run|] eqn:Hi; [|by eexists].
    destruct (loop_body env i na (l, w)) as [[[na1 o]|e] [l1 w1]] eqn:Hbody;
      [|by eexists].
    apply IH.
    pose proof (loop_body_length _ _ _ _ _ _ _ _ _ Hi Hbody).
    apply lookup_lt_Some in Hi. lia.
Qed.

(** ** A stage without a handler *)

Lemma handle_run_compute_mbtiles_12 env (run : Run) (w : World) :
  job_type run = JobType.compute_mbtiles_12 →
  handle_run env (run, w) = (Ok false, (run, w)).
Proof. destruct run; simpl. by intros ->. Qed.

Lemma body_step_compute_mbtiles_12 env (r r' : Run) :
  body_step env r r' → job_type r = JobType.compute_mbtiles_12 → r' = r.
Proof.
  intros (i & na & l & w & res & l' & w' & Hi & Hbody & Hi') Hj.
  destruct (loop_body_cases _ _ _ _ _ _ _ _ _ Hi Hbody)
    as (run' & _ & [(? & _)|[(? & _)|[(? & _)|[(? & _)|(_ & _ & Hst & ->)]]]]);
    try congruence.
  rewrite list_lookup_insert_eq in Hi' by (by eapply lookup_lt_Some).
  injection Hi' as <-.
  apply second_try_cases in Hst as [[_ Hh]|(e & s1 & Hh & _)];
    rewrite handle_run_compute_mbtiles_12 in Hh by done; congruence.
Qed.

(** C9.  [compute_mbtiles_10] and [compute_mbtiles_11] have a branch in
    [handle_run]: a run in one of them whose job was created, in the running
    status of the stage, whose job is gone with a pod condition that does
    not start with "Failed", has its job deleted and moves to
    [load_geo_server] with status [new], the completion text of the stage
    is appended to the provenance and the provenance is written to the
    store.  [compute_mbtiles_12] has no branch: whatever the status of the
    run and whatever the collaborators would answer, a run of that job type
    is returned unchanged and no call is made; and over any sequence of
    evaluations of the loop body such a run stays as it is, so it never
    advances to [load_geo_server]. *)
Theorem mbtiles_10_11_advance_12_has_no_handler env :
  (∀ (run : Run) (w : World) (e : Stage) (pod : string),
     job_type run = JobType.compute_mbtiles_10
     ∨ job_type run = JobType.compute_mbtiles_11 →
     stage_catalog (job_type run) = Some e →
     status run = running e →
     job_bound run →
     find_job_info env w run = Ok (None, pod) →
     PyStr.startswith pod "Failed" = false →
     is_Ok (delete_job env (w ++ [EvFindJobInfo run]) run) →
     update_job_status env (w ++ [EvFindJobInfo run; EvDeleteJob run]) (id run)
       (status_prov run +:+ complete_marker e) = Ok tt →
     ∃ run',
       handle_run env (run, w) =
         (Ok false,
          (run',
           w ++ [EvFindJobInfo run; EvDeleteJob run;
                 EvUpdateJobStatus (id run) (status_prov run +:+ complete_marker e)]))
       ∧ job_type run' = JobType.load_geo_server
       ∧ status run' = JobStatus.new
       ∧ status_prov run' = status_prov run +:+ complete_marker e
       ∧ id run' = id run)
  ∧ (∀ (run : Run) (w : World),
       handle_run env (set_job_type JobType.compute_mbtiles_12 run, w) =
         (Ok false, (set_job_type JobType.compute_mbtiles_12 run, w)))
  ∧ (∀ (r : Run) (rs : list Run),
       trajectory env r rs →
       job_type r = JobType.compute_mbtiles_12 →
       Forall (λ x, x = r) rs).
Proof.
  split; [|split; [done|]].
  - intros run w e pod Hj He Hst Hb Hfind Hpod Hdel Hup.
    rewrite (handle_run_running env run w e He Hst).
    assert (Hsucc : successor e = JobType.load_geo_server).
    { destruct Hj as [Hj|Hj]; rewrite Hj in He; by injection He as <-. }
    assert (Hfinal : bool_decide (job_type run = JobType.final_staging) = false).
    { apply bool_decide_eq_false_2. destruct Hj as [Hj|Hj]; by rewrite Hj. }
    rewrite Hfinal, Hsucc.
    erewrite bind_Ok; [|by eapply check_job_complete].
    eexists. split; [reflexivity|]. done.
  - intros r rs. revert r. induction rs as [|r' rs IH]; intros r Htr Hj; [done|].
    destruct Htr as [Hstep Htr].
    pose proof (body_step_compute_mbtiles_12 env r r' Hstep Hj) as ->.
    constructor; [done|]. by apply IH.
Qed.

Lemma mbtiles_10_11_advance_12_has_no_handler_witness :
  ∃ run',
    handle_run (sample_env (None, "Succeeded") [])
      (sample_run "42" JobType.compute_mbtiles_10 80 "New, Run accepted", []) =
      (Ok false,
       (run',
        [EvFindJobInfo (sample_run "42" JobType.compute_mbtiles_10 80 "New, Run accepted");
         EvDeleteJob (sample_run "42" JobType.compute_mbtiles_10 80 "New, Run accepted");
         EvUpdateJobStatus "42" "New, Run accepted, Compute mbtiles zoom 10 complete"]))
    ∧ job_type run' = JobType.load_geo_server
    ∧ status run' = JobStatus.new.
Proof.
  destruct (proj1 (mbtiles_10_11_advance_12_has_no_handler
                     (sample_env (None, "Succeeded") []))
              (sample_run "42" JobType.compute_mbtiles_10 80 "New, Run accepted") []
              (mkStage JobStatus.compute_mbtiles_10_running JobType.load_geo_server
                 ", Compute mbtiles zoom 10 complete")
              "Succeeded" (or_introl eq_refl) eq_refl eq_refl
              (ex_intro _ (mkBinding sample_template (Some "job-1"))
                 (ex_intro _ "job-1" (conj eq_refl eq_refl)))
              eq_refl eq_refl I eq_refl)
    as (run' & Hrun & Hj & Hst & _).
  exists run'. split; [exact Hrun|]. split; [exact Hj|exact Hst].
Defined.

(** C9, as stated, fails for [compute_mbtiles_12]: a run of that job type
    whose job would be reported gone with a pod that succeeded is neither
    inspected nor moved; it stays in [compute_mbtiles_12] with the status
    it had, and a run of that job type with status [new] gets no job. *)
Lemma compute_mbtiles_12_does_not_advance :
  handle_run (sample_env (None, "Succeeded") [])
    (sample_run "42" JobType.compute_mbtiles_12 JobStatus.compute_mbtiles_12_running
       "New, Run accepted", []) =
    (Ok false,
     (sample_run "42" JobType.compute_mbtiles_12 JobStatus.compute_mbtiles_12_running
        "New, Run accepted", []))
  ∧ handle_run (sample_env (None, "Succeeded") [])
      (sample_run "42" JobType.compute_mbtiles_12 JobStatus.new "New, Run accepted", []) =
      (Ok false,
       (sample_run "42" JobType.compute_mbtiles_12 JobStatus.new "New, Run accepted", []))
  ∧ ¬ (∃ b run' w',
         handle_run (sample_env (None, "Succeeded") [])
           (sample_run "42" JobType.compute_mbtiles_12
              JobStatus.compute_mbtiles_12_running "New, Run accepted", []) =
           (Ok b, (run', w'))
         ∧ job_type run' = JobType.load_geo_server
         ∧ status run' = JobStatus.new).
Proof.
  split; [reflexivity|]. split; [reflexivity|].
  intros (b & run' & w' & Hrun & Hj & _).
  rewrite handle_run_compute_mbtiles_12 in Hrun by reflexivity.
  injection Hrun as _ <- _. discriminate Hj.
Qed.

(** ** Exceptions and the loop *)

Lemma recover_Ok env no_activity (run : Run) (w : World) :
  is_Ok (delete_job env w run) →
  is_Ok (update_job_status env (w ++ [EvDeleteJob run]) (id run)
           (status_prov run +:+ ", Run handler error detected")) →
  ∃ s', recover env no_activity (run, w) = (Ok (no_activity, HandlerException), s').
Proof.
  intros Hdel Hup. unfold recover.
  unfold_monad. unfold get_run, modify_run, pg_update_job_status, call. cbn [fst snd].
  destruct (delete_job env w run); [|done].
  cbn [set_status_prov id status_prov].
  destruct (update_job_status env _ _ _) as [[]|]; [|done].
  by eexists.
Qed.

(** When the recovery after a handler exception goes through, the loop body
    returns. *)
Lemma loop_body_returns env (i : nat) (no_activity : bool) (l : list Run)
    (w : World) (run : Run) :
  l !! i = Some run →
  (∀ h r, is_Ok (delete_job env h r)) →
  (∀ h run_id prov,
     is_Ok (update_job_status env h run_id (prov +:+ ", Run handler error detected"))) →
  ∃ r s', loop_body env i no_activity (l, w) = (Ok r, s').
Proof.
  intros Hi Hdel Hup.
  destruct (loop_body env i no_activity (l, w)) as [res [l' w']] eqn:Hbody.
  destruct (loop_body_cases _ _ _ _ _ _ _ _ _ Hi Hbody)
    as (run' & _ & [(_ & -> & _)|[(_ & -> & _)|[(_ & -> & _)
       |[(_ & -> & _)|(_ & _ & Hst & _)]]]]); try by eexists _, _.
  apply second_try_cases in Hst
    as [[-> _]|(e & [run1 w1] & _ & Hrec & _)]; [by eexists _, _|].
  destruct (recover_Ok env no_activity run1 w1 (Hdel _ _) (Hup _ _ _)) as [s' Hok].
  rewrite Hok in Hrec. injection Hrec as <- _. by eexists _, _.
Qed.

Lemma for_runs_returns env (fuel i : nat) (no_activity : bool) (l : list Run)
    (w : World) (seen : Evaluated) :
  (length l - i ≤ fuel)%nat →
  (∀ h r, is_Ok (delete_job env h r)) →
  (∀ h run_id prov,
     is_Ok (update_job_status env h run_id (prov +:+ ", Run handler error detected"))) →
  ∃ na s' seen', for_runs env fuel i no_activity (l, w) seen = Some (Ok na, s', seen').
Proof.
  intros Hfuel Hdel Hup. revert i no_activity l w seen Hfuel.
  induction fuel as [|fuel IH]; intros i na l w seen Hfuel; simpl.
  - rewrite lookup_ge_None_2 by lia. by eexists _, _, _.
  - destruct (l !! i) as [run|] eqn:Hi; [|by eexists _, _, _].
    destruct (loop_body_returns env i na l w run Hi Hdel Hup) as ([na1 o] & [l1 w1] & Hbody).
    rewrite Hbody. apply IH.
    pose proof (loop_body_length _ _ _ _ _ _ _ _ _ Hi Hbody).
    apply lookup_lt_Some in Hi. lia.
Qed.

(** C6.  When admission returns, the driver's delete call never raises and
    the status write made by the recovery of a handler exception returns,
    a turn of the loop reaches its sleep: whatever else raises while a run
    is evaluated (the store, Slack, the driver, the configuration) is
    caught by one of the two guards of the loop body. *)
Theorem tick_reaches_sleep env (no_activity_counter : Z) (l : list Run)
    (w : World) s1 :
  get_incomplete_runs env (l, w) = (Ok tt, s1) →
  (∀ h r, is_Ok (delete_job env h r)) →
  (∀ h run_id prov,
     is_Ok (update_job_status env h run_id (prov +:+ ", Run handler error detected"))) →
  ∃ counter l' w' timeout seen,
    tick env no_activity_counter (l, w) =
      Some (Ok counter, (l', w' ++ [EvSleep timeout]), seen).
Proof.
  intros Hadm Hdel Hup. unfold tick. rewrite Hadm.
  destruct s1 as [l1 w1]. cbn [fst].
  destruct (for_runs_returns env (length l1) 0 true l1 w1 [] ltac:(lia) Hdel Hup)
    as (na & [l2 w2] & seen & ->).
  destruct (backoff env na no_activity_counter) as [counter timeout].
  by eexists _, _, _, _, _.
Qed.

Lemma tick_reaches_sleep_witness :
  ∃ counter l' w' timeout seen,
    tick hostile_env 3 (sample_table, []) =
      Some (Ok counter, (l', w' ++ [EvSleep timeout]), seen).
Proof.
  apply (tick_reaches_sleep hostile_env 3 sample_table [] (sample_table, [EvGetNewRuns])).
  - reflexivity.
  - intros h r. exact I.
  - intros h run_id prov. exact I.
Defined.

(** C6, as stated, fails: admission is outside the guards of the loop, so
    an exception of the fetch, or of Slack while a row is accepted, ends
    the turn before its sleep. *)
Lemma admission_exception_escapes :
  tick fetch_fails_env 0 ([], []) =
    Some (Raise (ExternalError "get_new_runs"), ([], [EvGetNewRuns]), [])
  ∧ tick (slack_fails_env [sample_row]) 0 ([], []) =
      Some (Raise (ExternalError "chat_postMessage"),
            ([mkRun "42" JobType.staging JobStatus.new "New, Run accepted"
                    "http://x/f" "g1" "inst-A" []],
             [EvGetNewRuns;
              EvUpdateJobStatus "42" "New, Run accepted";
              EvChatPostMessage
                "APSViz Supervisor - Instance name: inst-A, Run ID: 42 accepted."]),
            []).
Proof. split; vm_compute; reflexivity. Qed.

(** ** The activity flag *)

Lemma loop_body_flag env (i : nat) (no_activity : bool) (l : list Run)
    (w : World) (run : Run) na1 o s1 :
  l !! i = Some run →
  loop_body env i no_activity (l, w) = (Ok (na1, o), s1) →
  let handled :=
    job_type run ≠ JobType.complete ∧ job_type run ≠ JobType.error ∧
    ∃ s', handle_run env (run, w) = (Ok false, s') in
  (o = RunHandled ∧ na1 = false ∧ handled)
  ∨ (o ≠ RunHandled ∧ na1 = no_activity ∧ ¬ handled).
Proof.
  intros Hi Hbody handled. destruct s1 as [l1 w1].
  destruct (loop_body_cases _ _ _ _ _ _ _ _ _ Hi Hbody)
    as (run' & _ & [(Hj & [= -> ->] & _)|[(Hj & [= -> ->] & _)
       |[(Hj & [= -> ->] & _)|[(Hj & [= -> ->] & _)|(Hc & He & Hst & _)]]]]);
    try (right; split; [done|split; [done|]]; intros (? & ? & _); congruence).
  apply second_try_cases in Hst
    as [[[= -> ->] Hh]|(e & s2 & Hh & _ & [[= -> ->]|[e' [=]]])].
  - left. split; [done|]. split; [done|]. by repeat split; [..|eexists].
  - right. split; [done|]. split; [done|].
    intros (_ & _ & s' & Hok). congruence.
Qed.

Lemma for_runs_flag env (fuel i : nat) (no_activity : bool) (s : list Run * World)
    (seen : Evaluated) na' s' seen' :
  for_runs env fuel i no_activity s seen = Some (Ok na', s', seen') →
  ∃ new,
    seen' = seen ++ new ∧
    (na' = false ↔ no_activity = false ∨ ∃ run_id, (run_id, RunHandled) ∈ new).
Proof.
  revert i no_activity s seen.
  induction fuel as [|fuel IH]; intros i na [l w] seen; simpl.
  - destruct (l !! i); [done|]. intros [= -> <- <-].
    exists []. rewrite app_nil_r. split; [done|]. split; [by left|].
    intros [|[? ?%elem_of_nil]]; done.
  - destruct (l !! i) as [run|] eqn:Hi.
    + destruct (loop_body env i na (l, w)) as [[[na1 o]|e] s1] eqn:Hbody; [|done].
      intros (new & -> & Hiff)%IH.
      exists ((id run, o) :: new). rewrite <- app_assoc. split; [done|].
      rewrite Hiff.
      destruct (loop_body_flag _ _ _ _ _ _ _ _ _ Hi Hbody)
        as [(-> & -> & _)|(Ho & -> & _)].
      * split; [|by left]. intros _. right. exists (id run). by left.
      * split.
        -- intros [|[rid Hin]]; [by left|]. right. exists rid. by right.
        -- intros [|[rid Hin]]; [by left|].
           apply elem_of_cons in Hin as [[= -> <-]|Hin]; [done|]. right. by exists rid.
    + intros [= -> <- <-].
      exists []. rewrite app_nil_r. split; [done|]. split; [by left|].
      intros [|[? ?%elem_of_nil]]; done.
Qed.

Lemma tick_flag env (counter : Z) (s : list Run * World) counter' l' w' seen :
  tick env counter s = Some (Ok counter', (l', w'), seen) →
  ∃ no_activity w1,
    (no_activity = false ↔ ∃ run_id, (run_id, RunHandled) ∈ seen) ∧
    counter' = (backoff env no_activity counter).1 ∧
    w' = w1 ++ [EvSleep (backoff env no_activity counter).2].
Proof.
  unfold tick.
  destruct (get_incomplete_runs env s) as [[[]|e] s1]; [|done].
  destruct (for_runs env (length s1.1) 0 true s1 []) as [[[[na|e] s2] seen2]|] eqn:Hfor;
    [|done..].
  apply for_runs_flag in Hfor as (new & -> & Hiff).
  destruct (backoff env na counter) as [c t] eqn:Hb.
  intros [= <- <- <- <-]. exists na, s2.2. cbn [fst snd].
  rewrite Hb. cbn [fst snd]. split; [|done].
  rewrite Hiff. split; [by intros [|]|by right].
Qed.

(** C7.  At the end of a turn [no_activity] is [False] exactly when
    [handle_run] returned for at least one run evaluated in the turn, and
    [handle_run] returns for a run that is neither [complete] nor [error]
    whenever none of its calls raises, whether or not the run changed.
    When [no_activity] is [True] the counter of idle turns goes up by one,
    otherwise it is set to zero and the sleep is [POLL_SHORT_SLEEP]; below
    ten the sleep is [POLL_SHORT_SLEEP]; at ten the sleep is
    [POLL_LONG_SLEEP] and the counter is put back to nine, so that every
    further idle turn sleeps [POLL_LONG_SLEEP]. *)
Theorem activity_flag_and_backoff env :
  (∀ counter s counter' l' w' seen,
     tick env counter s = Some (Ok counter', (l', w'), seen) →
     ∃ no_activity w1,
       (no_activity = false ↔ ∃ run_id, (run_id, RunHandled) ∈ seen) ∧
       counter' = (backoff env no_activity counter).1 ∧
       w' = w1 ++ [EvSleep (backoff env no_activity counter).2])
  ∧ (∀ (i : nat) no_activity (l : list Run) (w : World) (run : Run) na1 o s1,
       l !! i = Some run →
       loop_body env i no_activity (l, w) = (Ok (na1, o), s1) →
       (o = RunHandled ↔
        job_type run ≠ JobType.complete ∧ job_type run ≠ JobType.error ∧
        ∃ s', handle_run env (run, w) = (Ok false, s')))
  ∧ (∀ counter, backoff env false counter = (0, POLL_SHORT_SLEEP (k8s_config env)))
  ∧ (∀ counter, counter < 9 →
       backoff env true counter = (counter + 1, POLL_SHORT_SLEEP (k8s_config env)))
  ∧ (∀ counter, 9 ≤ counter →
       backoff env true counter = (9, POLL_LONG_SLEEP (k8s_config env)))
  ∧ backoff_seq env (replicate 10 true) 0 =
      (9, replicate 9 (POLL_SHORT_SLEEP (k8s_config env)) ++
          [POLL_LONG_SLEEP (k8s_config env)]).
Proof.
  split; [|split; [|split; [|split; [|split]]]].
  - intros. by eapply tick_flag.
  - intros i na l w run na1 o s1 Hi Hbody.
    destruct (loop_body_flag _ _ _ _ _ _ _ _ _ Hi Hbody)
      as [(-> & _ & Hh)|(Ho & _ & Hh)]; by split.
  - done.
  - intros c Hc. unfold backoff.
    destruct (Z.leb_spec 10 (c + 1)); [lia|done].
  - intros c Hc. unfold backoff.
    destruct (Z.leb_spec 10 (c + 1)); [done|lia].
  - reflexivity.
Qed.

Lemma activity_flag_and_backoff_witness :
  ∃ no_activity w1,
    (no_activity = false ↔
     ∃ run_id, (run_id, RunHandled) ∈ [("42", RunHandled)]) ∧
    0 = (backoff (sample_env (Some 1, "Running") []) no_activity 9).1 ∧
    [EvSleep 30; EvGetNewRuns; EvFindJobInfo sample_active_run; EvSleep 30] =
      w1 ++ [EvSleep (backoff (sample_env (Some 1, "Running") []) no_activity 9).2].
Proof.
  apply (proj1 (activity_flag_and_backoff (sample_env (Some 1, "Running") []))
           9 ([sample_active_run], [EvSleep 30]) 0 [sample_active_run]).
  vm_compute. reflexivity.
Defined.

(** C7, as stated, fails: a turn in which the only run is inspected and
    found still active changes no run, yet [no_activity] ends [False]: after
    nine idle turns the counter goes to zero instead of ten and the sleep
    is the short one.  Twelve such turns in a row all sleep the short
    interval. *)
Lemma active_job_counts_as_activity :
  tick (sample_env (Some 1, "Running") []) 9 ([sample_active_run], [EvSleep 30]) =
    Some (Ok 0,
          ([sample_active_run],
           [EvSleep 30; EvGetNewRuns; EvFindJobInfo sample_active_run;
            EvSleep (POLL_SHORT_SLEEP sample_config)]),
          [("42", RunHandled)])
  ∧ POLL_SHORT_SLEEP sample_config ≠ POLL_LONG_SLEEP sample_config
  ∧ ∃ w,
      run_for (sample_env (Some 1, "Running") []) 12 0 ([sample_active_run], []) =
        Some (Ok 0, ([sample_active_run], w))
      ∧ sleeps_of w = replicate 12 (POLL_SHORT_SLEEP sample_config).
Proof.
  split; [vm_compute; reflexivity|]. split; [vm_compute; congruence|].
  eexists. split; vm_compute; reflexivity.
Qed.

(** ** Removal during the iteration *)

Lemma distinct_ids_lookup (l : list Run) (j k : nat) (a b : Run) :
  distinct_ids l → l !! j = Some a → l !! k = Some b → id a = id b → j = k.
Proof.
  intros Hnd Hj Hk Hid.
  apply (NoDup_lookup (id <$> l) j k (id a) Hnd).
  - by rewrite list_lookup_fmap, Hj.
  - by rewrite list_lookup_fmap, Hk, Hid.
Qed.

Lemma distinct_ids_insert (l : list Run) (i : nat) (run run' : Run) :
  l !! i = Some run → id run' = id run →
  id <$> <[i:=run']> l = id <$> l.
Proof.
  intros Hi Hid. rewrite list_fmap_insert, Hid.
  apply list_insert_id. by rewrite list_lookup_fmap, Hi.
Qed.

Lemma distinct_ids_delete (l : list Run) (i : nat) :
  distinct_ids l → distinct_ids (delete i l).
Proof.
  unfold distinct_ids. rewrite list_fmap_delete.
  intros Hnd. apply (sublist_NoDup _ _ Hnd), sublist_delete.
Qed.

(** With distinct ids, [list.remove] takes out the run itself. *)
Lemma list_remove_at (l : list Run) (i : nat) (x : Run) :
  distinct_ids l → l !! i = Some x → list_remove x l = Some (delete i l).
Proof.
  revert i. induction l as [|y l IH]; intros i Hnd Hi; [done|].
  destruct i as [|i]; simpl in *.
  - injection Hi as ->. by rewrite decide_True.
  - destruct (decide (y = x)) as [->|Hne].
    + by pose proof (distinct_ids_lookup (x :: l) 0 (S i) x x Hnd eq_refl Hi eq_refl).
    + rewrite (IH i); [done| |done].
      unfold distinct_ids in *. rewrite fmap_cons in Hnd. by apply NoDup_cons in Hnd as [_ ?].
Qed.

(** What the loop body does to the table: the run at the index is updated
    in place, or, when the run was finalised, taken out. *)
Lemma loop_body_table env (i : nat) (no_activity : bool) (l : list Run)
    (w : World) (run : Run) res l' w' :
  distinct_ids l →
  l !! i = Some run →
  loop_body env i no_activity (l, w) = (res, (l', w')) →
  (res = Ok (no_activity, RunComplete) ∧ l' = delete i l)
  ∨ ((∀ na, res ≠ Ok (na, RunComplete)) ∧
     ∃ run', id run' = id run ∧ l' = <[i:=run']> l).
Proof.
  intros Hnd Hi Hbody.
  destruct (loop_body_cases _ _ _ _ _ _ _ _ _ Hi Hbody)
    as (run' & Hid & [(_ & -> & _ & Hrm)|[(_ & -> & _ & ->)|[(_ & -> & _ & ->)
       |[(_ & -> & _ & ->)|(_ & _ & Hst & ->)]]]]);
    try (right; split; [done|by exists run']).
  - left. split; [done|].
    rewrite (list_remove_at _ i) in Hrm.
    + injection Hrm as <-. apply delete_insert_same.
    + unfold distinct_ids. by rewrite (distinct_ids_insert l i run run').
    + apply list_lookup_insert_eq. by eapply lookup_lt_Some.
  - right. split; [|by exists run'].
    apply second_try_cases in Hst as [[-> _]|(e & s1 & _ & _ & [->|[e' ->]])]; done.
Qed.

Lemma take_delete_same (l : list Run) (i : nat) : take i (delete i l) = take i l.
Proof.
  revert i. induction l as [|y l IH]; intros [|i]; simpl; try done.
  f_equal. apply IH.
Qed.

Lemma take_S_lookup (l l' : list Run) (i : nat) :
  take (S i) l' = take (S i) l → l' !! i = l !! i.
Proof.
  intros H. rewrite <- (lookup_take_lt l' (S i) i), <- (lookup_take_lt l (S i) i) by lia.
  by rewrite H.
Qed.

Lemma take_S_take (l l' : list Run) (i : nat) :
  take (S i) l' = take (S i) l → take i l' = take i l.
Proof.
  intros H.
  assert (E : ∀ k : list Run, take i k = take i (take (S i) k)).
  { intros k. rewrite take_take. f_equal. lia. }
  by rewrite (E l'), (E l), H.
Qed.

(** The loop from index [i] on: the runs before [i] are left alone, the
    runs evaluated sit at [i] or after, no id is added to the table, and
    when a run is finalised the run that follows it is not evaluated and
    stays in the table. *)
Lemma for_runs_skips env (fuel : nat) :
  ∀ (i : nat) na (l : list Run) (w : World) seen res l' w' seen',
    distinct_ids l →
    for_runs env fuel i na (l, w) seen = Some (res, (l', w'), seen') →
    ∃ new,
      seen' = seen ++ new ∧
      take i l' = take i l ∧
      (∀ x, x ∈ new.*1 → ∃ j r, (i ≤ j)%nat ∧ l !! j = Some r ∧ id r = x) ∧
      (∀ r', r' ∈ l' → ∃ j r, l !! j = Some r ∧ id r = id r') ∧
      (∀ j c n, (i ≤ j)%nat → l !! j = Some c → l !! S j = Some n →
         (id c, RunComplete) ∈ new →
         (id n ∉ new.*1) ∧ n ∈ l' ∧ (id c ∉ id <$> l')).
Proof.
  assert (Hstop : ∀ (i : nat) (l l' : list Run) (seen : Evaluated),
            take i l' = take i l →
            (∀ r', r' ∈ l' → ∃ j r, l !! j = Some r ∧ id r = id r') →
            ∃ new : Evaluated,
              seen = seen ++ new ∧
              take i l' = take i l ∧
              (∀ x, x ∈ new.*1 → ∃ j r, (i ≤ j)%nat ∧ l !! j = Some r ∧ id r = x) ∧
              (∀ r', r' ∈ l' → ∃ j r, l !! j = Some r ∧ id r = id r') ∧
              (∀ j c n, (i ≤ j)%nat → l !! j = Some c → l !! S j = Some n →
                 (id c, RunComplete) ∈ new →
                 (id n ∉ new.*1) ∧ n ∈ l' ∧ (id c ∉ id <$> l'))).
  { intros i l l' seen Htake Hids. exists []. rewrite app_nil_r.
    split; [done|]. split; [done|]. split; [|split; [done|]].
    - by intros x ?%elem_of_nil.
    - by intros j c n _ _ _ ?%elem_of_nil. }
  assert (Hself : ∀ l : list Run, ∀ r', r' ∈ l → ∃ j r, l !! j = Some r ∧ id r = id r').
  { intros l r' [j Hj]%list_elem_of_lookup_1. by exists j, r'. }
  induction fuel as [|fuel IH]; intros i na l w seen res l' w' seen' Hnd; simpl.
  { destruct (l !! i); [done|]. intros [= <- <- <- <-]. by apply Hstop, Hself. }
  destruct (l !! i) as [run|] eqn:Hi;
    [|intros [= <- <- <- <-]; by apply Hstop, Hself].
  destruct (loop_body env i na (l, w)) as [res1 [l1 w1]] eqn:Hbody.
  destruct (loop_body_table _ _ _ _ _ _ _ _ _ Hnd Hi Hbody)
    as [[-> ->]|[Hnc (run' & Hid & ->)]].
  - (* the run at [i] was finalised and removed *)
    intros Hrec.
    destruct (IH _ _ _ _ _ _ _ _ _ (distinct_ids_delete l i Hnd) Hrec)
      as (new & -> & Htake & Hnew & Hids & Hpairs).
    assert (Hnew' : ∀ x, x ∈ new.*1 →
              ∃ j r, (S (S i) ≤ j)%nat ∧ l !! j = Some r ∧ id r = x).
    { intros x (j & r & Hj & Hl & Hr)%Hnew.
      rewrite list_lookup_delete_ge in Hl by lia.
      exists (S j), r. split; [lia|done]. }
    assert (Hids' : ∀ r', r' ∈ l' →
              ∃ j r, j ≠ i ∧ l !! j = Some r ∧ id r = id r').
    { intros r' (j & r & Hl & Hr)%Hids.
      destruct (decide (j < i)%nat).
      - rewrite list_lookup_delete_lt in Hl by lia. exists j, r. split; [lia|done].
      - rewrite list_lookup_delete_ge in Hl by lia. exists (S j), r. split; [lia|done]. }
    exists ((id run, RunComplete) :: new). rewrite <- app_assoc.
    split; [done|]. split; [|split; [|split]].
    + apply take_S_take in Htake. by rewrite Htake, take_delete_same.
    + intros x Hx. rewrite fmap_cons in Hx.
      apply elem_of_cons in Hx as [->|Hx]; [by exists i, run|].
      destruct (Hnew' x Hx) as (j & r & Hj & Hl & Hr).
      exists j, r. split; [lia|done].
    + intros r' (j & r & _ & Hl & Hr)%Hids'. by exists j, r.
    + intros j c n Hj Hc Hn Hin.
      destruct (decide (j = i)) as [->|Hji].
      * (* the finalised run itself *)
        assert (c = run) as -> by congruence.
        split; [|split].
        -- rewrite fmap_cons. intros [Heq|Hx]%elem_of_cons.
           ++ pose proof (distinct_ids_lookup l (S i) i n run Hnd Hn Hi Heq). lia.
           ++ destruct (Hnew' _ Hx) as (k & r & Hk & Hl & Hr).
              pose proof (distinct_ids_lookup l k (S i) r n Hnd Hl Hn Hr). lia.
        -- apply take_S_lookup in Htake.
           rewrite list_lookup_delete_ge in Htake by lia.
           eapply list_elem_of_lookup_2. by rewrite Htake.
        -- intros (r' & Heq & Hr')%list_elem_of_fmap.
           destruct (Hids' r' Hr') as (k & r & Hk & Hl & Hr).
           pose proof (distinct_ids_lookup l k i r run Hnd Hl Hi ltac:(congruence)). lia.
      * (* a later run *)
        apply elem_of_cons in Hin as [[= Heq]|Hin].
        { pose proof (distinct_ids_lookup l j i c run Hnd Hc Hi Heq). lia. }
        destruct (decide (j = S i)) as [->|Hjs].
        { (* the run after the finalised one is not evaluated *)
          assert (Hx : id c ∈ new.*1).
          { apply list_elem_of_fmap. by exists (id c, RunComplete). }
          destruct (Hnew' _ Hx) as (k & r & Hk & Hl & Hr).
          pose proof (distinct_ids_lookup l k (S i) r c Hnd Hl Hc Hr). lia. }
        destruct j as [|j]; [lia|].
        destruct (Hpairs j c n) as (Hn1 & Hn2 & Hn3); [lia| | |done|].
        { by rewrite list_lookup_delete_ge by lia. }
        { by rewrite list_lookup_delete_ge by lia. }
        split; [|done].
        rewrite fmap_cons. intros [Heq|Hx]%elem_of_cons; [|done].
        pose proof (distinct_ids_lookup l (S (S j)) i n run Hnd Hn Hi Heq). lia.
  - (* the run at [i] stays in the table *)
    assert (Hnd1 : distinct_ids (<[i:=run']> l)).
    { unfold distinct_ids. by rewrite (distinct_ids_insert l i run run'). }
    assert (Hids1 : ∀ r', r' ∈ <[i:=run']> l → ∃ j r, l !! j = Some r ∧ id r = id r').
    { intros r' [j Hj]%list_elem_of_lookup_1.
      destruct (decide (i = j)) as [->|Hne].
      - rewrite list_lookup_insert_eq in Hj by (by eapply lookup_lt_Some).
        injection Hj as <-. by exists j, run.
      - rewrite list_lookup_insert_ne in Hj by done. by exists j, r'. }
    destruct res1 as [[na1 o]|e].
    2:{ intros [= <- <- <- <-]. apply Hstop; [|done]. by rewrite take_insert_ge. }
    intros Hrec.
    destruct (IH _ _ _ _ _ _ _ _ _ Hnd1 Hrec)
      as (new & -> & Htake & Hnew & Hids & Hpairs).
    assert (Hnew' : ∀ x, x ∈ new.*1 →
              ∃ j r, (S i ≤ j)%nat ∧ l !! j = Some r ∧ id r = x).
    { intros x (j & r & Hj & Hl & Hr)%Hnew.
      rewrite list_lookup_insert_ne in Hl by lia. by exists j, r. }
    exists ((id run, o) :: new). rewrite <- app_assoc.
    split; [done|]. split; [|split; [|split]].
    + apply take_S_take in Htake. by rewrite Htake, take_insert_ge.
    + intros x Hx. rewrite fmap_cons in Hx.
      apply elem_of_cons in Hx as [->|Hx]; [by exists i, run|].
      destruct (Hnew' x Hx) as (j & r & Hj & Hl & Hr).
      exists j, r. split; [lia|done].
    + intros r' (j & r & Hl & Hr)%Hids.
      destruct (Hids1 r) as (k & r0 & Hk & Hr0); [by eapply list_elem_of_lookup_2|].
      exists k, r0. split; [done|congruence].
    + intros j c n Hj Hc Hn Hin.
      apply elem_of_cons in Hin as [[= Heq <-]|Hin]; [by destruct (Hnc na1)|].
      assert (Hx : id c ∈ new.*1).
      { apply list_elem_of_fmap. by exists (id c, RunComplete). }
      destruct (Hnew' _ Hx) as (k & r & Hk & Hl & Hr).
      pose proof (distinct_ids_lookup l k j r c Hnd Hl Hc Hr) as ->.
      destruct (Hpairs j c n) as (Hn1 & Hn2 & Hn3); [lia| | |done|].
      { by rewrite list_lookup_insert_ne by lia. }
      { by rewrite list_lookup_insert_ne by lia. }
      split; [|done].
      rewrite fmap_cons. intros [Heq|Hx']%elem_of_cons; [|done].
      pose proof (distinct_ids_lookup l (S j) i n run Hnd Hn Hi Heq). lia.
Qed.

(** C10.  The table has distinct run ids.  A loop body that ends with
    outcome [RunComplete] was run on a run of job type [complete] and has
    taken that run out of the table.  And in the loop from any index on,
    when a run [c] at or after the index is finalised and removed, the run
    [n] that follows [c] in the table is not evaluated in the rest of the
    loop and is in the table when the loop ends, where [c] is not: the
    iterator moves on by one while [n] has moved into the place of [c].
    From index 0 this is the whole turn. *)
Theorem run_after_finalised_is_skipped env :
  (∀ (i : nat) no_activity (l : list Run) (w : World) (run : Run) na1 l' w',
     distinct_ids l →
     l !! i = Some run →
     loop_body env i no_activity (l, w) = (Ok (na1, RunComplete), (l', w')) →
     job_type run = JobType.complete ∧ l' = delete i l)
  ∧ (∀ (fuel i : nat) no_activity (l : list Run) (w : World) (seen : Evaluated)
       (j : nat) (c n : Run),
       distinct_ids l →
       (i ≤ j)%nat →
       l !! j = Some c →
       l !! S j = Some n →
       (length l - i ≤ fuel)%nat →
       ∃ res l' w' new,
         for_runs env fuel i no_activity (l, w) seen =
           Some (res, (l', w'), seen ++ new) ∧
         ((id c, RunComplete) ∈ new →
          (id n ∉ new.*1) ∧ n ∈ l' ∧ (id c ∉ id <$> l'))).
Proof.
  split.
  - intros i na l w run na1 l' w' Hnd Hi Hbody.
    destruct (loop_body_table _ _ _ _ _ _ _ _ _ Hnd Hi Hbody)
      as [[_ ->]|[Hnc _]]; [|by destruct (Hnc na1)].
    split; [|done].
    destruct (loop_body_cases _ _ _ _ _ _ _ _ _ Hi Hbody)
      as (run' & _ & [(? & _)|[(_ & [=] & _)|[(_ & [=] & _)
         |[(_ & [=] & _)|(_ & _ & Hst & _)]]]]); [done|].
    apply second_try_cases in Hst as [[[=] _]|(e & s1 & _ & _ & [[=]|[e' [=]]])].
  - intros fuel i na l w seen j c n Hnd Hij Hc Hn Hfuel.
    destruct (for_runs_total env fuel i na l w seen Hfuel) as [[[res [l' w']] seen'] Hfor].
    destruct (for_runs_skips env fuel _ _ _ _ _ _ _ _ _ Hnd Hfor)
      as (new & -> & _ & _ & _ & Hpairs).
    exists res, l', w', new. split; [done|]. by apply (Hpairs j).
Qed.

Lemma run_after_finalised_is_skipped_witness :
  ∃ res l' w',
    for_runs (sample_env (None, "Succeeded") []) 2 0 true
      ([sample_complete_run; sample_new_run], []) [] =
      Some (res, (l', w'), [("3", RunComplete)])
    ∧ ("1" ∉ [("3", RunComplete)].*1)
    ∧ sample_new_run ∈ l'
    ∧ ("3" ∉ id <$> l').
Proof.
  destruct (proj2 (run_after_finalised_is_skipped (sample_env (None, "Succeeded") []))
              2%nat 0%nat true [sample_complete_run; sample_new_run] [] []
              0%nat sample_complete_run sample_new_run)
    as (res & l' & w' & new & Hfor & Hskip).
  - unfold distinct_ids. refine (bool_decide_unpack _ _). vm_compute. exact I.
  - lia.
  - reflexivity.
  - reflexivity.
  - simpl. lia.
  - assert (Hnew : new = [("3", RunComplete)]).
    { vm_compute in Hfor. by injection Hfor as _ _ _ <-. }
    subst new. exists res, l', w'. split; [exact Hfor|].
    apply Hskip. by left.
Defined.

(** ** Two runs of the loop *)

(** One accepted run whose jobs all complete: fourteen turns take it through
    the six stages and out of the table, and the last message is the
    success message. *)
Example happy_path :
  ∃ w,
    run_for (sample_env (None, "Succeeded") [sample_row]) 14 0 ([], []) =
      Some (Ok 2, ([], w))
    ∧ EvUpdateJobStatus "42"
        ("New, Run accepted, Staging running, Staging complete, " +:+
         "Obs/Mod running, Obs/Mod complete, Geo tiff running, Geo tiff complete, " +:+
         "Compute mbtiles 0-9 running, Compute mbtiles zoom 0-9 complete, " +:+
         "Load geo server running, Load geo server complete, " +:+
         "Final staging running, Final staging complete, Run complete") ∈ w
    ∧ EvChatPostMessage
        "APSViz Supervisor - Instance name: inst-A, Run ID: 42 *completed successfully*."
        ∈ w.
Proof.
  eexists. split; [vm_compute; reflexivity|].
  split; refine (bool_decide_unpack _ _); by vm_compute.
Qed.

(** Nothing to do for eleven turns: nine short sleeps, then long ones. *)
Example idle_backoff :
  ∃ w,
    run_for (sample_env (None, "Succeeded") []) 11 0 ([], []) = Some (Ok 9, ([], w))
    ∧ sleeps_of w =
        replicate 9 (POLL_SHORT_SLEEP sample_config) ++
        replicate 2 (POLL_LONG_SLEEP sample_config).
Proof. eexists. split; vm_compute; reflexivity. Qed.

(** * Further properties *)

(** ** The enumerations *)

(** X1.  The twelve job types have twelve different strings, and none of
    them is a key of the run dictionary itself: the job that
    [k8s_create_job_obj] stores on the run under the string of the job type
    replaces neither a field of the run nor the job of another stage. *)
Theorem job_type_strings_are_keys :
  (∀ j1 j2, JobType.value j1 = JobType.value j2 → j1 = j2)
  ∧ (∀ j, JobType.value j ∉ run_keys).
Proof.
  split.
  - intros [] [] H; first [reflexivity | discriminate H].
  - intros j Hin. unfold run_keys in Hin.
    repeat (apply elem_of_cons in Hin as [Hin|Hin]; [by destruct j|]).
    by apply elem_of_nil in Hin.
Qed.

Lemma job_type_strings_are_keys_witness :
  JobType.obs_mod = JobType.obs_mod.
Proof.
  exact (proj1 job_type_strings_are_keys JobType.obs_mod JobType.obs_mod eq_refl).
Defined.

(** X2.  The statuses [handle_run] tests for are all different: the
    running statuses of two stages with a branch differ, and none is [new]
    or [error].  The value 80 that two members of [JobStatus] share is the
    running status of one stage only. *)
Theorem running_statuses_are_distinct :
  (∀ j1 j2 e1 e2,
     stage_catalog j1 = Some e1 → stage_catalog j2 = Some e2 →
     running e1 = running e2 → j1 = j2)
  ∧ (∀ j e, stage_catalog j = Some e →
       running e ≠ JobStatus.new ∧ running e ≠ JobStatus.error)
  ∧ JobStatus.compute_mbtiles_0_9_complete = JobStatus.compute_mbtiles_10_running.
Proof.
  split; [|split; [|reflexivity]].
  - intros [] [] e1 e2 H1 H2 Heq; try discriminate H1; try discriminate H2;
      injection H1 as <-; injection H2 as <-; first [reflexivity | discriminate Heq].
  - intros [] e H; try discriminate H; injection H as <-; by split.
Qed.

Lemma running_statuses_are_distinct_witness :
  JobType.compute_mbtiles_10 = JobType.compute_mbtiles_10.
Proof.
  exact (proj1 running_statuses_are_distinct
           JobType.compute_mbtiles_10 JobType.compute_mbtiles_10
           _ _ eq_refl eq_refl eq_refl).
Defined.

(** ** What never changes on a run *)

Lemma str_app_assoc (a b c : string) : (a +:+ b) +:+ c = a +:+ (b +:+ c).
Proof.
  induction a as [|x a IH]; [done|].
  change (String x ((a +:+ b) +:+ c) = String x (a +:+ (b +:+ c))). by rewrite IH.
Qed.

Lemma str_app_nil_r (a : string) : a +:+ "" = a.
Proof.
  induction a as [|x a IH]; [done|].
  change (String x (a +:+ "") = String x a). by rewrite IH.
Qed.

Lemma run_grows_refl (r : Run) : run_grows r r.
Proof. repeat split. exists "". by rewrite str_app_nil_r. Qed.

Lemma run_grows_trans (r1 r2 r3 : Run) :
  run_grows r1 r2 → run_grows r2 r3 → run_grows r1 r3.
Proof.
  intros (Hi & Hd & Hg & Hn & s1 & Hp) (Hi' & Hd' & Hg' & Hn' & s2 & Hp').
  repeat split; try congruence.
  exists (s1 +:+ s2). by rewrite Hp', Hp, str_app_assoc.
Qed.

Lemma grows_ret {A} (a : A) : grows (mret a).
Proof. intros run w r run' w' [= _ <- _]. apply run_grows_refl. Qed.

Lemma grows_raise {A} e : grows (@raise _ A e).
Proof. intros run w r run' w' [= _ <- _]. apply run_grows_refl. Qed.

Lemma grows_get_run : grows get_run.
Proof. intros run w r run' w' [= _ <- _]. apply run_grows_refl. Qed.

Lemma grows_call {A} ev (answer : World → Res A) : grows (call ev answer).
Proof. intros run w r run' w' [= _ <- _]. apply run_grows_refl. Qed.

Lemma grows_modify_run f :
  (∀ r, run_grows r (f r)) → grows (modify_run f).
Proof. intros Hf run w r run' w' [= _ <- _]. apply Hf. Qed.

Lemma grows_bind {A B} (m : M (Run * World) A) (k : A → M (Run * World) B) :
  grows m → (∀ a, grows (k a)) → grows (m ≫= k).
Proof.
  intros Hm Hk run w r run' w'. unfold_monad.
  destruct (m (run, w)) as [[a|e] [run1 w1]] eqn:Hm1.
  - intros H. eapply run_grows_trans; [by eapply Hm|by eapply Hk].
  - intros [= _ <- _]. by eapply Hm.
Qed.

Lemma grows_try_except {A} (m : M (Run * World) A) h :
  grows m → (∀ e, grows (h e)) → grows (try_except m h).
Proof.
  intros Hm Hh run w r run' w'. unfold try_except.
  destruct (m (run, w)) as [[a|e] [run1 w1]] eqn:Hm1.
  - intros [= _ <- _]. by eapply Hm.
  - intros H. eapply run_grows_trans; [by eapply Hm|by eapply Hh].
Qed.

Lemma run_grows_set_status s r : run_grows r (set_status s r).
Proof. repeat split. exists "". cbn. by rewrite str_app_nil_r. Qed.

Lemma run_grows_set_job_type j r : run_grows r (set_job_type j r).
Proof. repeat split. exists "". cbn. by rewrite str_app_nil_r. Qed.

Lemma run_grows_set_bindings b r : run_grows r (set_bindings b r).
Proof. repeat split. exists "". cbn. by rewrite str_app_nil_r. Qed.

Lemma run_grows_append text r :
  run_grows r (set_status_prov (status_prov r +:+ text) r).
Proof. repeat split. by exists text. Qed.

Ltac grows_step :=
  first
    [ apply grows_bind
    | apply grows_try_except
    | apply grows_ret
    | apply grows_raise
    | apply grows_get_run
    | apply grows_call
    | apply grows_modify_run;
      first [ apply run_grows_set_status
            | apply run_grows_set_job_type
            | intro; apply run_grows_set_bindings
            | intro; apply run_grows_append ]
    | assumption
    | lazymatch goal with
      | |- grows _ => fail
      | |- _ => intro
      end
    | match goal with
      | |- grows (match ?x with _ => _ end) => destruct x
      | |- grows (let _ := _ in _) => cbv zeta
      end ].

Lemma grows_config_item cfg j : grows (config_item cfg j).
Proof. unfold config_item. repeat grows_step. Qed.

Lemma grows_send_slack_msg env run_id msg name :
  grows (send_slack_msg env run_id msg name).
Proof. unfold send_slack_msg. repeat grows_step. Qed.

Ltac grows :=
  repeat first
    [ grows_step
    | apply grows_config_item
    | apply grows_send_slack_msg ].

Lemma grows_handle_run env : grows (handle_run env).
Proof. unfold handle_run, stage. grows. Qed.

Lemma grows_second_try env no_activity : grows (second_try env no_activity).
Proof. unfold second_try, recover. grows. Qed.

Lemma grows_finish_run env : grows (finish_run env).
Proof. unfold finish_run. grows. Qed.

Lemma grows_schedule_cleanup env : grows (schedule_cleanup env).
Proof. unfold schedule_cleanup. grows. Qed.

Lemma list_remove_subseteq (x : Run) (l l' : list Run) :
  list_remove x l = Some l' → ∀ y, y ∈ l' → y ∈ l.
Proof.
  intros H%list_remove_Permutation y Hy. rewrite H. by right.
Qed.

Lemma loop_body_grows env (i : nat) (no_activity : bool) (l : list Run)
    (w : World) (run : Run) res l' w' :
  l !! i = Some run →
  loop_body env i no_activity (l, w) = (res, (l', w')) →
  ∀ r', r' ∈ l' → ∃ r, r ∈ l ∧ run_grows r r'.
Proof.
  intros Hi Hbody.
  assert (Hins : ∀ run', run_grows run run' →
            ∀ r', r' ∈ <[i:=run']> l → ∃ r, r ∈ l ∧ run_grows r r').
  { intros run' Hg r' [j Hj]%list_elem_of_lookup_1.
    destruct (decide (i = j)) as [->|Hne].
    - rewrite list_lookup_insert_eq in Hj by (by eapply lookup_lt_Some).
      injection Hj as <-. exists run. split; [by eapply list_elem_of_lookup_2|done].
    - rewrite list_lookup_insert_ne in Hj by done.
      exists r'. split; [by eapply list_elem_of_lookup_2|apply run_grows_refl]. }
  destruct (loop_body_cases _ _ _ _ _ _ _ _ _ Hi Hbody)
    as (run' & _ & [(_ & _ & Hfin & Hrm)|[(_ & _ & [e Hfin] & ->)|[(_ & _ & Hsc & ->)
       |[(_ & _ & [e Hsc] & ->)|(_ & _ & Hst & ->)]]]]).
  - intros r' Hr'. apply (Hins run'); [by eapply grows_finish_run|].
    by eapply list_remove_subseteq.
  - apply Hins. by eapply grows_finish_run.
  - apply Hins. by eapply grows_schedule_cleanup.
  - apply Hins. by eapply grows_schedule_cleanup.
  - apply Hins. by eapply grows_second_try.
Qed.

Lemma for_runs_grows env (fuel i : nat) (no_activity : bool) (l : list Run)
    (w : World) (seen : Evaluated) res l' w' seen' :
  for_runs env fuel i no_activity (l, w) seen = Some (res, (l', w'), seen') →
  ∀ r', r' ∈ l' → ∃ r, r ∈ l ∧ run_grows r r'.
Proof.
  revert i no_activity l w seen.
  induction fuel as [|fuel IH]; intros i na l w seen; simpl.
  - destruct (l !! i); [done|]. intros [= _ <- _ _] r' Hr'.
    exists r'. split; [done|apply run_grows_refl].
  - destruct (l !! i) as [run|] eqn:Hi.
    + destruct (loop_body env i na (l, w)) as [[[na1 o]|e] [l1 w1]] eqn:Hbody.
      * intros Hrec r' Hr'.
        destruct (IH _ _ _ _ _ Hrec r' Hr') as (r1 & Hr1 & Hg1).
        destruct (loop_body_grows _ _ _ _ _ _ _ _ _ Hi Hbody r1 Hr1) as (r & Hr & Hg).
        exists r. split; [done|]. by eapply run_grows_trans.
      * intros [= _ <- _ _]. by eapply loop_body_grows.
    + intros [= _ <- _ _] r' Hr'.
      exists r'. split; [done|apply run_grows_refl].
Qed.

(** X3.  A run only grows.  Whatever [handle_run] does, and whether it
    returns or raises, it leaves the id, the download url, the grid name and
    the instance name of the run as they were, and the provenance it leaves
    starts with the provenance it found.  The same holds over the whole loop
    of a turn: every run in the table after the loop is a run that was in
    the table before, with the same id and context and a provenance that
    was only appended to. *)
Theorem runs_only_grow env :
  (∀ (run : Run) (w : World) r run' w',
     handle_run env (run, w) = (r, (run', w')) → run_grows run run')
  ∧ (∀ (fuel i : nat) no_activity (l : list Run) (w : World) (seen : Evaluated)
       res l' w' seen',
       for_runs env fuel i no_activity (l, w) seen = Some (res, (l', w'), seen') →
       ∀ r', r' ∈ l' → ∃ r, r ∈ l ∧ run_grows r r').
Proof.
  split.
  - intros run w r run' w'. apply grows_handle_run.
  - intros fuel i na l w seen res l' w' seen'. apply for_runs_grows.
Qed.

Lemma runs_only_grow_witness :
  run_grows sample_new_run
    (handle_run hostile_env (sample_new_run, [])).2.1.
Proof.
  apply (proj1 (runs_only_grow hostile_env) sample_new_run []
           (handle_run hostile_env (sample_new_run, [])).1
           _ (handle_run hostile_env (sample_new_run, [])).2.2).
  vm_compute. reflexivity.
Defined.

(** ** The stage handler: a job to create *)

Lemma binding_get_put (j : JobType.t) (v : Binding) (b : list (JobType.t * Binding)) :
  binding_get j (binding_put j v b) = Some v.
Proof.
  induction b as [|[k x] b IH]; simpl.
  - by rewrite decide_True.
  - destruct (decide (k = j)) as [->|Hne]; simpl.
    + by rewrite decide_True.
    + by rewrite decide_False.
Qed.

Lemma binding_get_put_ne (j j' : JobType.t) (v : Binding)
    (b : list (JobType.t * Binding)) :
  j ≠ j' → binding_get j' (binding_put j v b) = binding_get j' b.
Proof.
  intros Hne. induction b as [|[k x] b IH]; simpl.
  - by rewrite decide_False.
  - destruct (decide (k = j)) as [->|Hkj]; simpl.
    + by rewrite !decide_False.
    + destruct (decide (k = j')); [done|apply IH].
Qed.

Lemma binding_put_put (j : JobType.t) (v v' : Binding)
    (b : list (JobType.t * Binding)) :
  binding_put j v' (binding_put j v b) = binding_put j v' b.
Proof.
  induction b as [|[k x] b IH]; simpl.
  - by rewrite decide_True.
  - destruct (decide (k = j)) as [->|Hne]; simpl.
    + by rewrite decide_True.
    + rewrite decide_False by done. by rewrite IH.
Qed.

Lemma handle_run_new env (run : Run) (w : World) (e : Stage) :
  stage_catalog (job_type run) = Some e →
  status run = JobStatus.new →
  handle_run env (run, w) =
    (create_job env (stage_params env (job_type run))
       (extends_output_path (job_type run)) (running e)
       (running_marker (job_type run));;
     mret false) (run, w).
Proof.
  destruct run as [rid j st prov url grid name bs]. cbn [job_type status].
  intros He ->.
  destruct j; try done; injection He as <-; reflexivity.
Qed.

Lemma stage_params_Ok env (run : Run) (w : World) :
  is_Some (templates (k8s_config env) (job_type run)) →
  ∃ params, stage_params env (job_type run) (run, w) = (Ok params, (run, w)).
Proof.
  intros [t Ht].
  destruct (job_type run) eqn:Hj; cbn [stage_params];
    unfold staging_params, obs_mod_params, tile_params, load_geo_server_params,
      final_staging_params, config_item;
    unfold_monad; unfold get_run; cbn [fst snd];
    rewrite ?Hj, ?Ht; by eexists.
Qed.

Lemma create_job_Ok env params (ext : bool) running_st text (run : Run)
    (w : World) ps cfg (t : Template) job_id :
  params (run, w) = (Ok ps, (run, w)) →
  status run = JobStatus.new →
  get_config env w = Ok cfg →
  templates cfg (job_type run) = Some t →
  (∀ h r, execute env h r = Ok job_id) →
  (∀ h run_id prov, update_job_status env h run_id prov = Ok tt) →
  let sub_path := if ext then "/" +:+ id run +:+ SUB_PATH t else SUB_PATH t in
  let t' :=
    mkTemplate (JOB_NAME t +:+ PyStr.lower (id run))
      (DATA_VOLUME_NAME t +:+ PyStr.lower (id run))
      (SSH_VOLUME_NAME t +:+ PyStr.lower (id run))
      ((COMMAND_LINE t ++ ps) ++
       (if ext then [DATA_MOUNT_PATH t +:+ sub_path +:+ ADDITIONAL_PATH t] else []))
      (DATA_MOUNT_PATH t) sub_path (ADDITIONAL_PATH t) in
  let run_x :=
    set_bindings (binding_put (job_type run) (mkBinding t' None) (bindings run)) run in
  create_job env params ext running_st text (run, w) =
    (Ok tt,
     (set_status_prov (status_prov run +:+ text)
        (set_status running_st
           (set_bindings
              (binding_put (job_type run) (mkBinding t' (Some job_id)) (bindings run))
              run)),
      w ++ [EvGetConfig; EvExecute run_x;
            EvUpdateJobStatus (id run) (status_prov run +:+ text)])).
Proof.
  intros Hps Hst Hcfg Ht Hex Hup sub_path t' run_x.
  unfold create_job.
  erewrite bind_Ok by exact Hps.
  assert (Hobj : k8s_create_job_obj env ps ext (run, w) =
                   (Ok tt, (run_x, w ++ [EvGetConfig]))).
  { unfold k8s_create_job_obj, config_item.
    unfold_monad. unfold get_run, call, modify_run. cbn [fst snd].
    rewrite Hst. change (JobStatus.new =? JobStatus.new) with true.
    cbv beta iota. cbn [fst snd]. rewrite Hcfg, Ht. unfold run_x, t', sub_path.
    destruct ext; cbn; by rewrite ?app_nil_r. }
  erewrite bind_Ok by exact Hobj.
  assert (Hexec : k8s_execute env (run_x, w ++ [EvGetConfig]) =
                    (Ok tt,
                     (set_bindings
                        (binding_put (job_type run) (mkBinding t' (Some job_id))
                           (bindings run)) run,
                      (w ++ [EvGetConfig]) ++ [EvExecute run_x]))).
  { unfold k8s_execute.
    unfold_monad. unfold get_run, call, modify_run. cbn [fst snd].
    rewrite Hex. unfold run_x. cbn [set_bindings job_type bindings].
    rewrite binding_get_put. cbn [fst snd run_config set_bindings job_type bindings].
    by rewrite binding_put_put. }
  erewrite bind_Ok by exact Hexec.
  unfold_monad. unfold modify_run, get_run, pg_update_job_status, call. cbn [fst snd].
  cbn [set_status_prov set_status set_bindings id status_prov].
  rewrite Hup.
  unfold job_id_of_run. unfold_monad. unfold get_run. cbn [fst snd].
  cbn [job_type bindings set_status_prov set_status set_bindings].
  rewrite binding_get_put. cbn [job_config].
  by rewrite <- !app_assoc.
Qed.

(** X4.  One call of the stage handler on a run with status [new] in a
    stage that has a branch, when the configuration holds a template for the
    stage and the configuration file, the driver and the store return: the
    configuration is read, the job is submitted for the run as it is with
    its new job, still in status [new], and then the provenance with the
    running text of the stage is written.  The run is left in the same stage
    with the running status of the stage, the job id the driver returned is
    on the run for the log lines and for the next turn, and the jobs of the
    other stages are kept. *)
Theorem new_stage_creates_job env (run : Run) (w : World) (e : Stage)
    (cfg : Config) (t : Template) (job_id : string) :
  stage_catalog (job_type run) = Some e →
  status run = JobStatus.new →
  is_Some (templates (k8s_config env) (job_type run)) →
  get_config env w = Ok cfg →
  templates cfg (job_type run) = Some t →
  (∀ h r, execute env h r = Ok job_id) →
  (∀ h run_id prov, update_job_status env h run_id prov = Ok tt) →
  ∃ run' t',
    handle_run env (run, w) =
      (Ok false,
       (run',
        w ++ [EvGetConfig;
              EvExecute
                (set_bindings
                   (binding_put (job_type run) (mkBinding t' None) (bindings run)) run);
              EvUpdateJobStatus (id run) (status_prov run')]))
    ∧ job_type run' = job_type run
    ∧ status run' = running e
    ∧ status_prov run' = status_prov run +:+ running_marker (job_type run)
    ∧ binding_get (job_type run) (bindings run') = Some (mkBinding t' (Some job_id))
    ∧ job_bound run'
    ∧ (∀ j, j ≠ job_type run →
         binding_get j (bindings run') = binding_get j (bindings run)).
Proof.
  intros He Hst Hk Hcfg Ht Hex Hup.
  destruct (stage_params_Ok env run w Hk) as [ps Hps].
  rewrite (handle_run_new env run w e He Hst).
  pose proof (create_job_Ok env _ (extends_output_path (job_type run)) (running e)
                (running_marker (job_type run)) run w ps cfg t job_id
                Hps Hst Hcfg Ht Hex Hup) as Hcj.
  cbv zeta in Hcj.
  lazymatch type of Hcj with
  | _ = (_, (set_status_prov _ (set_status _ (set_bindings
               (binding_put _ (mkBinding ?tb _) _) _)), _)) =>
      set (t' := tb) in *
  end.
  lazymatch type of Hcj with
  | _ = (_, (?r, _)) => exists r, t'
  end.
  split.
  - erewrite bind_Ok by exact Hcj. reflexivity.
  - cbn [job_type status status_prov bindings set_status_prov set_status set_bindings].
    split; [done|]. split; [done|]. split; [done|].
    split; [apply binding_get_put|].
    split.
    + eexists _, job_id.
      cbn [job_type status status_prov bindings set_status_prov set_status set_bindings].
      by rewrite binding_get_put.
    + intros j Hj. by apply binding_get_put_ne.
Qed.

Lemma new_stage_creates_job_witness :
  ∃ run' t',
    handle_run (sample_env (None, "Succeeded") []) (sample_new_run, []) =
      (Ok false,
       (run',
        [] ++ [EvGetConfig;
               EvExecute
                 (set_bindings
                    (binding_put (job_type sample_new_run) (mkBinding t' None)
                       (bindings sample_new_run)) sample_new_run);
               EvUpdateJobStatus (id sample_new_run) (status_prov run')]))
    ∧ job_type run' = job_type sample_new_run
    ∧ status run' = JobStatus.staging_running
    ∧ status_prov run' = "New, Run accepted" +:+ ", Staging running"
    ∧ binding_get (job_type sample_new_run) (bindings run') =
        Some (mkBinding t' (Some "job-1"))
    ∧ job_bound run'
    ∧ (∀ j, j ≠ job_type sample_new_run →
         binding_get j (bindings run') = binding_get j (bindings sample_new_run)).
Proof.
  apply (new_stage_creates_job (sample_env (None, "Succeeded") []) sample_new_run []
           (mkStage JobStatus.staging_running JobType.obs_mod ", Staging complete")
           sample_config sample_template "job-1");
    first [ reflexivity | by eexists | by intros ].
Defined.

(** ** The job template binder *)

(** X5.  [k8s_create_job_obj] case by case.  On a run whose status is not
    [new] it does nothing and does not read the configuration.  On a [new]
    run it reads the configuration file; if that raises, or the file has no
    entry for the job type ([KeyError]), the exception leaves the function
    and the run is unchanged.  Otherwise the run gets, for its job type, a
    fresh job without a job id whose template is the entry of the file with
    the lowercased run id appended to the job name and to the two volume
    names, and the parameters appended to the command line; with
    [extend_output_path] the sub path gets the run id in front and the
    command line one more argument, mount path, "/", run id, old sub path
    and additional path. *)
Theorem k8s_create_job_obj_cases env (ps : list string) (ext : bool)
    (run : Run) (w : World) :
  (status run ≠ JobStatus.new →
   k8s_create_job_obj env ps ext (run, w) = (Ok tt, (run, w)))
  ∧ (status run = JobStatus.new →
     ∀ e, get_config env w = Raise e →
          k8s_create_job_obj env ps ext (run, w) = (Raise e, (run, w ++ [EvGetConfig])))
  ∧ (status run = JobStatus.new →
     ∀ cfg, get_config env w = Ok cfg →
            templates cfg (job_type run) = None →
            k8s_create_job_obj env ps ext (run, w) =
              (Raise (KeyError (JobType.value (job_type run))),
               (run, w ++ [EvGetConfig])))
  ∧ (status run = JobStatus.new →
     ∀ cfg t, get_config env w = Ok cfg →
              templates cfg (job_type run) = Some t →
     ∃ t',
       k8s_create_job_obj env ps ext (run, w) =
         (Ok tt,
          (set_bindings
             (binding_put (job_type run) (mkBinding t' None) (bindings run)) run,
           w ++ [EvGetConfig]))
       ∧ JOB_NAME t' = JOB_NAME t +:+ PyStr.lower (id run)
       ∧ DATA_VOLUME_NAME t' = DATA_VOLUME_NAME t +:+ PyStr.lower (id run)
       ∧ SSH_VOLUME_NAME t' = SSH_VOLUME_NAME t +:+ PyStr.lower (id run)
       ∧ DATA_MOUNT_PATH t' = DATA_MOUNT_PATH t
       ∧ ADDITIONAL_PATH t' = ADDITIONAL_PATH t
       ∧ SUB_PATH t' = (if ext then "/" +:+ id run +:+ SUB_PATH t else SUB_PATH t)
       ∧ COMMAND_LINE t' =
           COMMAND_LINE t ++ ps ++
           (if ext
            then [DATA_MOUNT_PATH t +:+ "/" +:+ id run +:+ SUB_PATH t +:+
                  ADDITIONAL_PATH t]
            else [])).
Proof.
  unfold k8s_create_job_obj, config_item.
  unfold_monad. unfold get_run, call, modify_run. cbn [fst snd].
  split; [|split; [|split]].
  - intros Hst. by destruct (Z.eqb_spec (status run) JobStatus.new).
  - intros -> e He. change (JobStatus.new =? JobStatus.new) with true.
    cbv beta iota. cbn [fst snd]. by rewrite He.
  - intros -> cfg Hcfg Ht. change (JobStatus.new =? JobStatus.new) with true.
    cbv beta iota. cbn [fst snd]. by rewrite Hcfg, Ht.
  - intros -> cfg t Hcfg Ht. change (JobStatus.new =? JobStatus.new) with true.
    cbv beta iota. cbn [fst snd]. rewrite Hcfg, Ht.
    eexists. split; [reflexivity|].
    destruct ext; cbn; repeat split; rewrite <- ?app_assoc, ?app_nil_r; try done.
    do 2 f_equal. by rewrite !str_app_assoc.
Qed.

Lemma k8s_create_job_obj_cases_witness :
  k8s_create_job_obj hostile_env ["--instanceId"; "1"] false (sample_new_run, []) =
    (Raise (ExternalError "get_config"), (sample_new_run, [] ++ [EvGetConfig])).
Proof.
  exact (proj1 (proj2 (k8s_create_job_obj_cases hostile_env ["--instanceId"; "1"]
                         false sample_new_run []))
           eq_refl (ExternalError "get_config") eq_refl).
Defined.

(** ** The stage handler: nothing to do, and what it may do *)

Lemma stage_other running_st on_new on_running no_activity (run : Run) (w : World) :
  status run ≠ JobStatus.new →
  status run ≠ running_st →
  stage running_st on_new on_running no_activity (run, w) = (Ok no_activity, (run, w)).
Proof.
  intros Hnew Hrun. unfold stage.
  unfold_monad. unfold get_run. cbn [fst snd].
  destruct (Z.eqb_spec (status run) JobStatus.new); [done|].
  by destruct (Z.eqb_spec (status run) running_st).
Qed.

(** X6.  A run that is in a stage with a branch but whose status is
    neither [new] nor the running status of that stage, and a run whose job
    type has no branch, is left as it is by [handle_run]: no call is made and
    [False] is returned. *)
Theorem handle_run_ignores_other_statuses env (run : Run) (w : World) :
  (∀ e, stage_catalog (job_type run) = Some e →
        status run ≠ JobStatus.new ∧ status run ≠ running e) →
  handle_run env (run, w) = (Ok false, (run, w)).
Proof.
  intros H. unfold handle_run.
  unfold_monad. unfold get_run at 1. cbn [fst snd].
  destruct (job_type run) eqn:Hj; try reflexivity;
    (destruct (H _ eq_refl) as [Hnew Hrun]; by apply stage_other).
Qed.

Lemma handle_run_ignores_other_statuses_witness :
  handle_run hostile_env
    (sample_run "42" JobType.obs_mod JobStatus.staging_complete "New, Run accepted", []) =
    (Ok false,
     (sample_run "42" JobType.obs_mod JobStatus.staging_complete "New, Run accepted", [])).
Proof.
  apply handle_run_ignores_other_statuses.
  intros e [= <-]. split; discriminate.
Defined.

(** X7.  A call of [handle_run] that returns has returned [False] and has
    made one of five sequences of calls: none; the configuration read, one
    job submission and one status write; one inspection alone; one
    inspection, one job deletion and one status write; or one inspection,
    one job deletion and one Slack message.  So a call never submits and
    deletes a job both, submits or deletes at most one, and a submission
    leaves the run in a status other than [new]. *)
Theorem handle_run_call_shapes env (run : Run) (w : World) (b : bool)
    (run' : Run) (w' : World) :
  handle_run env (run, w) = (Ok b, (run', w')) →
  b = false ∧
  handler_calls run w run' w'.
Proof.
  intros H. split; [by eapply handle_run_false|]. unfold handler_calls.
  destruct (params_reader env) as (Hp1 & Hp2 & Hp3 & Hp4 & Hp5).
  assert (Hstage : ∀ running_st params ext running_text next_type next_status
                     complete_text failed_msg failed_type failed_status na r,
            reader params →
            running_st ≠ JobStatus.new →
            stage running_st
              (create_job env params ext running_st running_text)
              (check_job env next_type next_status complete_text failed_msg
                 failed_type failed_status)
              na (run, w) = (Ok r, (run', w')) →
            (w' = w ∧ run' = run)
            ∨ (∃ run_x,
                 w' = w ++ [EvGetConfig; EvExecute run_x;
                            EvUpdateJobStatus (id run') (status_prov run')] ∧
                 status run = JobStatus.new ∧ status run' ≠ JobStatus.new ∧
                 job_type run' = job_type run)
            ∨ (w' = w ++ [EvFindJobInfo run] ∧ run' = run)
            ∨ (w' = w ++ [EvFindJobInfo run; EvDeleteJob run;
                          EvUpdateJobStatus (id run') (status_prov run')])
            ∨ (∃ text,
                 w' = w ++ [EvFindJobInfo run; EvDeleteJob run;
                            EvChatPostMessage text])).
  { intros running_st params ext running_text next_type next_status
      complete_text failed_msg failed_type failed_status na r Hrd Hne Hs.
    apply stage_inv in Hs as [[Hnew Hs]|[[Hrun Hs]|[= -> ->]]]; [| |by left].
    - apply create_job_inv in Hs as (run_x & bs & -> & _ & ->); [|done..].
      right; left. exists run_x.
      split; [done|]. split; [done|]. split; [exact Hne|done].
    - apply check_job_inv in Hs
        as [(pod & _ & _ & -> & _ & ->)
           |[(js & pod & _ & _ & -> & ->)
            |(js & pod & _ & _ & -> & ->)]].
      + by right; right; right; left.
      + right; right; right; right. by eexists.
      + by right; right; left. }
  unfold handle_run in H.
  apply bind_inv in H as (run0 & s0 & [= <- <-] & H). cbn [fst] in H.
  destruct (job_type run) eqn:Hj;
    try (left; by injection H as _ <- <-);
    (eapply Hstage; [| |exact H]; [assumption|by vm_compute]).
Qed.

Lemma handle_run_call_shapes_witness :
  false = false ∧
  handler_calls sample_active_run [] sample_active_run [EvFindJobInfo sample_active_run].
Proof.
  apply (handle_run_call_shapes (sample_env (Some 1, "Running") [])).
  reflexivity.
Defined.

(** ** The guards of the loop body *)

Lemma loop_body_second_try env (i : nat) (no_activity : bool) (l : list Run)
    (w : World) (run : Run) :
  l !! i = Some run →
  job_type run ≠ JobType.complete →
  job_type run ≠ JobType.error →
  loop_body env i no_activity (l, w) =
    match second_try env no_activity (run, w) with
    | (res, (run', w')) => (res, (<[i:=run']> l, w'))
    end.
Proof.
  intros Hi Hc He. unfold loop_body.
  erewrite (bind_Ok (first_try env i) _ _ None (l, w)).
  - unfold on_run. cbn [fst snd]. by rewrite Hi.
  - unfold first_try, try_except.
    erewrite bind_Ok; [|by apply on_run_get_run].
    by rewrite !decide_False by done.
Qed.

Lemma second_try_Raise env no_activity (run : Run) (w : World) e s1 :
  handle_run env (run, w) = (Raise e, s1) →
  second_try env no_activity (run, w) = recover env no_activity s1.
Proof.
  intros Hh. unfold second_try, try_except.
  by erewrite bind_Raise by exact Hh.
Qed.

(** X8.  The second guard.  When [handle_run] raises on a run that is
    neither [complete] nor [error], and the deletion of the job and the
    status write of the handler then return: the job of the run is deleted,
    ", Run handler error detected" is appended to the provenance the run had
    when the exception was raised and written to the store, the run stays in
    the table with job type [error] and status [error], and the activity flag
    is left as it was. *)
Theorem handler_exception_is_recovered env (i : nat) (no_activity : bool)
    (l : list Run) (w : World) (run : Run) e (run1 : Run) (w1 : World) :
  l !! i = Some run →
  job_type run ≠ JobType.complete →
  job_type run ≠ JobType.error →
  handle_run env (run, w) = (Raise e, (run1, w1)) →
  let prov := status_prov run1 +:+ ", Run handler error detected" in
  is_Ok (delete_job env w1 run1) →
  update_job_status env (w1 ++ [EvDeleteJob run1]) (id run1) prov = Ok tt →
  loop_body env i no_activity (l, w) =
    (Ok (no_activity, HandlerException),
     (<[i:=set_status JobStatus.error
             (set_job_type JobType.error (set_status_prov prov run1))]> l,
      w1 ++ [EvDeleteJob run1; EvUpdateJobStatus (id run1) prov])).
Proof.
  intros Hi Hc He Hh prov Hdel Hup.
  rewrite (loop_body_second_try env i no_activity l w run Hi Hc He).
  rewrite (second_try_Raise env no_activity run w e _ Hh).
  unfold recover.
  unfold_monad. unfold get_run, modify_run, pg_update_job_status, call. cbn [fst snd].
  destruct (delete_job env w1 run1); [|done].
  cbn [set_status_prov id status_prov]. fold prov. rewrite Hup.
  by rewrite <- app_assoc.
Qed.

Lemma handler_exception_is_recovered_witness :
  loop_body hostile_env 0 true ([sample_new_run], []) =
    (Ok (true, HandlerException),
     (<[0%nat:=set_status JobStatus.error
                 (set_job_type JobType.error
                    (set_status_prov
                       ("New, Run accepted" +:+ ", Run handler error detected")
                       sample_new_run))]> [sample_new_run],
      [EvGetConfig] ++
      [EvDeleteJob sample_new_run;
       EvUpdateJobStatus "1" ("New, Run accepted" +:+ ", Run handler error detected")])).
Proof.
  apply (handler_exception_is_recovered hostile_env 0 true [sample_new_run] []
           sample_new_run (ExternalError "get_config") sample_new_run [EvGetConfig]);
    first [ reflexivity | discriminate | exact I ].
Defined.

(** X9.  The handler of the second guard is itself unguarded.  When
    [handle_run] raises and the deletion of the job raises in turn, the
    exception leaves the loop body with the run as the handler left it; when
    the deletion returns and the status write raises, it leaves with the
    provenance already extended and the job type not yet set to [error].
    In both cases the loop over the table ends there: the runs after the
    index are not evaluated. *)
Theorem recovery_exception_leaves_the_loop env (fuel i : nat) (no_activity : bool)
    (l : list Run) (w : World) (seen : Evaluated) (run : Run) e (run1 : Run)
    (w1 : World) e' :
  l !! i = Some run →
  job_type run ≠ JobType.complete →
  job_type run ≠ JobType.error →
  handle_run env (run, w) = (Raise e, (run1, w1)) →
  let prov := status_prov run1 +:+ ", Run handler error detected" in
  (delete_job env w1 run1 = Raise e' →
   for_runs env (S fuel) i no_activity (l, w) seen =
     Some (Raise e', (<[i:=run1]> l, w1 ++ [EvDeleteJob run1]), seen))
  ∧ (is_Ok (delete_job env w1 run1) →
     update_job_status env (w1 ++ [EvDeleteJob run1]) (id run1) prov = Raise e' →
     for_runs env (S fuel) i no_activity (l, w) seen =
       Some (Raise e',
             (<[i:=set_status_prov prov run1]> l,
              w1 ++ [EvDeleteJob run1; EvUpdateJobStatus (id run1) prov]),
             seen)).
Proof.
  intros Hi Hc He Hh prov.
  assert (Hbody : loop_body env i no_activity (l, w) =
            match recover env no_activity (run1, w1) with
            | (res, (run', w')) => (res, (<[i:=run']> l, w'))
            end).
  { rewrite (loop_body_second_try env i no_activity l w run Hi Hc He).
    by rewrite (second_try_Raise env no_activity run w e _ Hh). }
  split.
  - intros Hdel. simpl. rewrite Hi, Hbody.
    unfold recover.
    unfold_monad. unfold get_run, call. cbn [fst snd]. by rewrite Hdel.
  - intros Hdel Hup. simpl. rewrite Hi, Hbody.
    unfold recover.
    unfold_monad. unfold get_run, modify_run, pg_update_job_status, call. cbn [fst snd].
    destruct (delete_job env w1 run1); [|done].
    cbn [set_status_prov id status_prov]. fold prov. rewrite Hup.
    by rewrite <- app_assoc.
Qed.

Lemma recovery_exception_leaves_the_loop_witness :
  ∃ w1,
    for_runs driver_down_env 2 0 true ([sample_new_run; sample_active_run], []) [] =
      Some (Raise (ExternalError "delete_job"),
            (<[0%nat:=(handle_run driver_down_env (sample_new_run, [])).2.1]>
               [sample_new_run; sample_active_run],
             w1 ++ [EvDeleteJob (handle_run driver_down_env (sample_new_run, [])).2.1]),
            []).
Proof.
  eexists.
  apply (proj1 (recovery_exception_leaves_the_loop driver_down_env 1 0 true
                  [sample_new_run; sample_active_run] [] [] sample_new_run
                  (ExternalError "execute")
                  (handle_run driver_down_env (sample_new_run, [])).2.1
                  (handle_run driver_down_env (sample_new_run, [])).2.2
                  (ExternalError "delete_job")
                  eq_refl ltac:(discriminate) ltac:(discriminate)
                  ltac:(vm_compute; reflexivity))).
  reflexivity.
Defined.

(** ** A run that cannot be finalised *)

Lemma loop_body_complete env (i : nat) (no_activity : bool) (l : list Run)
    (w : World) (run : Run) e (run' : Run) (w' : World) :
  l !! i = Some run →
  job_type run = JobType.complete →
  finish_run env (run, w) = (Raise e, (run', w')) →
  loop_body env i no_activity (l, w) =
    (Ok (no_activity, CleanupException), (<[i:=run']> l, w')).
Proof.
  intros Hi Hj Hfin. unfold loop_body.
  erewrite (bind_Ok (first_try env i) _ _ (Some CleanupException)); [reflexivity|].
  unfold first_try, try_except.
  erewrite bind_Ok; [|by apply on_run_get_run].
  rewrite Hj, decide_True by done.
  erewrite bind_Raise; [reflexivity|by eapply on_run_at].
Qed.

(** X10.  The first guard on a run of job type [complete].  When the status
    write raises, no message is posted; when the write returns and Slack
    raises, the provenance has been written.  In both cases the run stays in
    the table with ", Run complete" appended to its provenance, so every
    further attempt appends ", Run complete" once more; the activity flag is
    left as it was and the loop goes on with the next run. *)
Theorem failed_finalisation_is_retried env (i : nat) (no_activity : bool)
    (l : list Run) (w : World) (run : Run) e :
  l !! i = Some run →
  job_type run = JobType.complete →
  let prov := status_prov run +:+ ", Run complete" in
  (update_job_status env w (id run) prov = Raise e →
   loop_body env i no_activity (l, w) =
     (Ok (no_activity, CleanupException),
      (<[i:=set_status_prov prov run]> l, w ++ [EvUpdateJobStatus (id run) prov])))
  ∧ (update_job_status env w (id run) prov = Ok tt →
     chat_postMessage env (w ++ [EvUpdateJobStatus (id run) prov])
       (final_msg (id run) (complete_msg prov) (Some (instance_name run))) = Raise e →
     loop_body env i no_activity (l, w) =
       (Ok (no_activity, CleanupException),
        (<[i:=set_status_prov prov run]> l,
         w ++ [EvUpdateJobStatus (id run) prov;
               EvChatPostMessage
                 (final_msg (id run) (complete_msg prov) (Some (instance_name run)))]))).
Proof.
  intros Hi Hj prov. split.
  - intros Hup. eapply loop_body_complete; [done..|].
    unfold finish_run.
    unfold_monad. unfold modify_run, get_run, pg_update_job_status, call at 1.
    cbn [fst snd]. cbn [set_status_prov id status_prov]. fold prov. by rewrite Hup.
  - intros Hup Hchat. eapply loop_body_complete; [done..|].
    unfold finish_run.
    unfold_monad. unfold modify_run, get_run, pg_update_job_status, call at 1.
    cbn [fst snd]. cbn [set_status_prov id status_prov instance_name].
    fold prov. rewrite Hup. fold (complete_msg prov).
    rewrite send_slack_msg_final_msg. unfold call. cbn [fst snd].
    rewrite Hchat. by rewrite <- app_assoc.
Qed.

Lemma failed_finalisation_is_retried_witness :
  loop_body hostile_env 0 true ([sample_complete_run], []) =
    (Ok (true, CleanupException),
     (<[0%nat:=set_status_prov
                 ("New, Run accepted, Final staging complete" +:+ ", Run complete")
                 sample_complete_run]> [sample_complete_run],
      [] ++
      [EvUpdateJobStatus "3"
         ("New, Run accepted, Final staging complete" +:+ ", Run complete");
       EvChatPostMessage
         (final_msg "3"
            (complete_msg
               ("New, Run accepted, Final staging complete" +:+ ", Run complete"))
            (Some "inst-A"))])).
Proof.
  exact (proj2 (failed_finalisation_is_retried hostile_env 0 true
                  [sample_complete_run] [] sample_complete_run
                  (ExternalError "chat_postMessage") eq_refl eq_refl)
           eq_refl eq_refl).
Defined.

(** ** The table over a turn *)

Lemma finalised_app (a b : list (string * Outcome)) : finalised (a ++ b) = (finalised a + finalised b)%nat.
Proof. unfold finalised. by rewrite filter_app, length_app. Qed.

Lemma finalised_cons (x : string) (o : Outcome) (new : list (string * Outcome)) :
  finalised ((x, o) :: new) =
  ((if decide (o = RunComplete) then 1 else 0) + finalised new)%nat.
Proof.
  unfold finalised. rewrite filter_cons. cbn [snd].
  by destruct (decide (o = RunComplete)).
Qed.

(** X11.  The loop of a turn never adds a run to the table and takes out
    exactly one run for every run it finalises: the length of the table
    before the loop is its length after the loop plus the number of
    evaluations that ended with the run finalised; all other evaluations,
    also those that end in an exception, leave the length as it is. *)
Theorem table_shrinks_by_finalised env (fuel i : nat) (no_activity : bool)
    (l : list Run) (w : World) (seen : Evaluated) res l' w' seen' :
  for_runs env fuel i no_activity (l, w) seen = Some (res, (l', w'), seen') →
  ∃ new, seen' = seen ++ new ∧ length l = (length l' + finalised new)%nat.
Proof.
  revert i no_activity l w seen.
  induction fuel as [|fuel IH]; intros i na l w seen; simpl.
  - destruct (l !! i); [done|]. intros [= _ <- _ <-].
    exists []. rewrite app_nil_r. split; [done|]. cbn. lia.
  - destruct (l !! i) as [run|] eqn:Hi.
    + destruct (loop_body env i na (l, w)) as [res1 [l1 w1]] eqn:Hbody.
      destruct (loop_body_cases _ _ _ _ _ _ _ _ _ Hi Hbody)
        as (run' & _ & [(_ & -> & _ & Hrm)|Hkeep]).
      * intros (new & -> & Hlen)%IH.
        exists ((id run, RunComplete) :: new). rewrite <- app_assoc.
        split; [done|].
        apply list_remove_length in Hrm. rewrite length_insert in Hrm.
        rewrite finalised_cons, decide_True by done. lia.
      * assert (Hl1 : l1 = <[i:=run']> l ∧ ∀ na1, res1 ≠ Ok (na1, RunComplete)).
        { destruct Hkeep as [(_ & -> & _ & ->)|[(_ & -> & _ & ->)
            |[(_ & -> & _ & ->)|(_ & _ & Hst & ->)]]]; try done.
          split; [done|]. intros na1 ->.
          by apply second_try_cases in Hst
            as [[[=] _]|(e & s1 & _ & _ & [[=]|[e' [=]]])]. }
        destruct Hl1 as [-> Hnc].
        destruct res1 as [[na1 o]|e].
        -- intros (new & -> & Hlen)%IH.
           exists ((id run, o) :: new). rewrite <- app_assoc. split; [done|].
           rewrite length_insert in Hlen.
           rewrite finalised_cons, decide_False; [lia|].
           intros ->. by destruct (Hnc na1).
        -- intros [= _ <- _ <-]. exists []. rewrite app_nil_r.
           split; [done|]. rewrite length_insert. cbn. lia.
    + intros [= _ <- _ <-].
      exists []. rewrite app_nil_r. split; [done|]. cbn. lia.
Qed.

Lemma table_shrinks_by_finalised_witness :
  ∃ res l' w' new,
    for_runs (sample_env (None, "Succeeded") []) 4 0 true (sample_table, []) [] =
      Some (res, (l', w'), [] ++ new)
    ∧ length sample_table = (length l' + finalised new)%nat.
Proof.
  destruct (for_runs (sample_env (None, "Succeeded") []) 4 0 true (sample_table, []) [])
    as [[[res [l' w']] seen']|] eqn:Hfor; [|by vm_compute in Hfor].
  destruct (table_shrinks_by_finalised _ _ _ _ _ _ _ _ _ _ _ Hfor) as (new & -> & Hlen).
  exists res, l', w', new. split; [reflexivity|exact Hlen].
Defined.


(** X12.  A table with distinct run ids keeps distinct run ids through the
    loop, and in one turn no run is evaluated twice: the ids of the
    evaluations of the loop are pairwise different and each is the id of a
    run that was in the table at or after the index the loop started from. *)
Theorem no_run_is_evaluated_twice env (fuel i : nat) (no_activity : bool)
    (l : list Run) (w : World) (seen : Evaluated) res l' w' seen' :
  distinct_ids l →
  for_runs env fuel i no_activity (l, w) seen = Some (res, (l', w'), seen') →
  distinct_ids l' ∧
  ∃ new,
    seen' = seen ++ new ∧
    NoDup (new.*1) ∧
    (∀ x, x ∈ new.*1 → ∃ j r, (i ≤ j)%nat ∧ l !! j = Some r ∧ id r = x).
Proof.
  revert i no_activity l w seen res l' w' seen'.
  induction fuel as [|fuel IH]; intros i na l w seen res l' w' seen' Hnd; simpl.
  { destruct (l !! i); [done|]. intros [= <- <- <- <-]. split; [done|].
    exists []. rewrite app_nil_r. split; [done|]. split; [constructor|].
    by intros x ?%elem_of_nil. }
  destruct (l !! i) as [run|] eqn:Hi.
  2:{ intros [= <- <- <- <-]. split; [done|].
      exists []. rewrite app_nil_r. split; [done|]. split; [constructor|].
      by intros x ?%elem_of_nil. }
  destruct (loop_body env i na (l, w)) as [res1 [l1 w1]] eqn:Hbody.
  assert (Hl1 : distinct_ids l1 ∧
                ∀ j r, (S i ≤ j)%nat → l1 !! j = Some r →
                       ∃ k, (S i ≤ k)%nat ∧ l !! k = Some r).
  { destruct (loop_body_table _ _ _ _ _ _ _ _ _ Hnd Hi Hbody)
      as [[_ ->]|[_ (run' & Hid & ->)]].
    - split; [by apply distinct_ids_delete|].
      intros j r Hj Hr. rewrite list_lookup_delete_ge in Hr by lia.
      exists (S j). split; [lia|done].
    - split; [unfold distinct_ids; by rewrite (distinct_ids_insert l i run run')|].
      intros j r Hj Hr. rewrite list_lookup_insert_ne in Hr by lia.
      by exists j. }
  destruct Hl1 as [Hnd1 Hpos].
  destruct res1 as [[na1 o]|e].
  2:{ intros [= <- <- <- <-]. split; [done|].
      exists []. rewrite app_nil_r. split; [done|]. split; [constructor|].
      by intros x ?%elem_of_nil. }
  intros Hrec.
  destruct (IH _ _ _ _ _ _ _ _ _ Hnd1 Hrec) as (Hnd' & new & -> & Hnodup & Hnew).
  split; [done|].
  assert (Hnew' : ∀ x, x ∈ new.*1 →
            ∃ j r, (S i ≤ j)%nat ∧ l !! j = Some r ∧ id r = x).
  { intros x (j & r & Hj & Hr & Hx)%Hnew.
    destruct (Hpos j r Hj Hr) as (k & Hk & Hlk). by exists k, r. }
  exists ((id run, o) :: new). rewrite <- app_assoc. split; [done|].
  rewrite fmap_cons. cbn [fst]. split.
  - apply NoDup_cons. split; [|done].
    intros (j & r & Hj & Hr & Hx)%Hnew'.
    pose proof (distinct_ids_lookup l j i r run Hnd Hr Hi Hx). lia.
  - intros x [->|Hx]%elem_of_cons; [by exists i, run|].
    destruct (Hnew' x Hx) as (j & r & Hj & Hr & Hxr).
    exists j, r. split; [lia|done].
Qed.

Lemma no_run_is_evaluated_twice_witness :
  ∃ res l' w' new,
    for_runs (sample_env (None, "Succeeded") []) 4 0 true (sample_table, []) [] =
      Some (res, (l', w'), [] ++ new)
    ∧ distinct_ids l' ∧ NoDup (new.*1).
Proof.
  destruct (for_runs (sample_env (None, "Succeeded") []) 4 0 true (sample_table, []) [])
    as [[[res [l' w']] seen']|] eqn:Hfor; [|by vm_compute in Hfor].
  assert (Hd : distinct_ids sample_table).
  { unfold distinct_ids. refine (bool_decide_unpack _ _). vm_compute. exact I. }
  destruct (no_run_is_evaluated_twice _ _ _ _ _ _ _ _ _ _ _ Hd Hfor)
    as (Hnd & new & -> & Hnodup & _).
  exists res, l', w', new. split; [reflexivity|]. split; [exact Hnd|exact Hnodup].
Defined.

(** ** Admission, whatever the collaborators do *)

Lemma accept_row_cases env (row : Row) (l : list Run) (w : World) res l' w' :
  accept_row env row (l, w) = (res, (l', w')) →
  l' = l ++ accepted row ∧
  match res with
  | Ok _ => w' = w ++ admission_events row
  | Raise _ => ∃ n : nat, (0 < n)%nat ∧ w' = w ++ take n (admission_events row)
  end.
Proof.
  unfold accept_row, accepted, admission_events.
  destruct (decide (has_required row)) as [Hreq|Hreq].
  - apply has_required_lookups in Hreq as ([url Hu] & [grid Hg] & [name Hn]).
    rewrite Hu, Hg, Hn. rewrite send_slack_msg_final_msg.
    unfold_monad. unfold pg_update_job_status, call. cbn [fst snd default].
    destruct (update_job_status env w (run_id row) "New, Run accepted") as [[]|e].
    + destruct (chat_postMessage env _ _) as [[]|e]; intros [= <- <- <-].
      * split; [done|]. by rewrite <- app_assoc.
      * split; [done|]. exists 2%nat. split; [lia|]. by rewrite <- app_assoc.
    + intros [= <- <- <-]. split; [done|]. exists 1%nat. split; [lia|done].
  - rewrite send_slack_msg_final_msg.
    assert (Hgo :
      (pg_update_job_status env (run_id row) "Error - Lacks the required run properties.";;
       call (EvChatPostMessage
               (final_msg (run_id row) "lacked the required run properties."
                  (run_data row !! "instancename")))
            (λ w0, chat_postMessage env w0
                     (final_msg (run_id row) "lacked the required run properties."
                        (run_data row !! "instancename")))) (l, w) = (res, (l', w')) →
      l' = l ++ [] ∧
      match res with
      | Ok _ =>
          w' = w ++
            [EvUpdateJobStatus (run_id row) "Error - Lacks the required run properties.";
             EvChatPostMessage
               (final_msg (run_id row) "lacked the required run properties."
                  (run_data row !! "instancename"))]
      | Raise _ =>
          ∃ n : nat, (0 < n)%nat ∧
            w' = w ++ take n
              [EvUpdateJobStatus (run_id row) "Error - Lacks the required run properties.";
               EvChatPostMessage
                 (final_msg (run_id row) "lacked the required run properties."
                    (run_data row !! "instancename"))]
      end).
    { unfold_monad. unfold pg_update_job_status, call. cbn [fst snd].
      rewrite app_nil_r.
      destruct (update_job_status env w (run_id row) _) as [[]|e].
      + destruct (chat_postMessage env _ _) as [[]|e]; intros [= <- <- <-].
        * split; [done|]. by rewrite <- app_assoc.
        * split; [done|]. exists 2%nat. split; [lia|]. by rewrite <- app_assoc.
      + intros [= <- <- <-]. split; [done|]. exists 1%nat. split; [lia|done]. }
    destruct (run_data row !! "downloadurl") eqn:Hu; [|exact Hgo].
    destruct (run_data row !! "adcirc.gridname") eqn:Hg; [|exact Hgo].
    destruct (run_data row !! "instancename") eqn:Hn; [|exact Hgo].
    exfalso. apply Hreq, has_required_lookups. rewrite Hu, Hg, Hn. eauto.
Qed.

Lemma accept_rows_cases env (rows : list Row) :
  ∀ (l : list Run) (w : World) res l' w',
    accept_rows env rows (l, w) = (res, (l', w')) →
    admission_result rows l w res l' w'.
Proof.
  induction rows as [|row rows IH]; intros l w res l' w'.
  - intros [= <- <- <-]. cbn. by rewrite !app_nil_r.
  - cbn [accept_rows]. unfold_monad.
    destruct (accept_row env row (l, w)) as [[[]|e] [l1 w1]] eqn:Hrow.
    + destruct (accept_row_cases _ _ _ _ _ _ _ Hrow) as [-> ->].
      intros Hrec. specialize (IH _ _ _ _ _ Hrec).
      destruct res as [[]|e]; cbn in IH |- *.
      * destruct IH as [-> ->]. by rewrite <- !app_assoc.
      * destruct IH as (k & r & n & Hk & Hn & -> & ->).
        exists (S k), r, n. cbn. by rewrite <- !app_assoc.
    + destruct (accept_row_cases _ _ _ _ _ _ _ Hrow) as [-> (n & Hn & ->)].
      intros [= <- <- <-]. exists 0%nat, row, n. cbn. by rewrite !app_nil_r.
Qed.

Lemma get_incomplete_runs_inv env (l : list Run) (w : World) res l' w' :
  get_incomplete_runs env (l, w) = (res, (l', w')) →
  (∃ e, get_new_runs env w = Raise e ∧ res = Raise e ∧
        l' = l ∧ w' = w ++ [EvGetNewRuns])
  ∨ (is_Ok (get_new_runs env w) ∧
     admission_result (fetched (get_new_runs env w)) l (w ++ [EvGetNewRuns])
       res l' w').
Proof.
  unfold get_incomplete_runs, call. unfold_monad. cbn [fst snd].
  destruct (get_new_runs env w) as [[| |rows]|e]; cbn [fetched is_Ok].
  - intros [= <- <- <-]. right. split; [done|]. cbn. by rewrite !app_nil_r.
  - intros [= <- <- <-]. right. split; [done|]. cbn. by rewrite !app_nil_r.
  - intros H. right. split; [done|]. by apply (accept_rows_cases env).
  - intros [= <- <- <-]. left. by exists e.
Qed.

(** X13.  [get_incomplete_runs], whatever the store and Slack do.  When
    [get_new_runs] raises, the exception leaves [get_incomplete_runs] and
    the table is as it was.  When it answers [-1], [None] or no row, the
    table is as it was and no other call is made.  Otherwise, if
    [get_incomplete_runs] returns, every row was gone through in order; if
    it raises, it does so at a row whose status write or Slack message
    raised: the entry of that row, when it has the required keys, is in
    the table already, with the entries of the rows before it, and the rows
    after it are not looked at. *)
Theorem admission_is_not_guarded env (l : list Run) (w : World) res l' w' :
  get_incomplete_runs env (l, w) = (res, (l', w')) →
  match get_new_runs env w with
  | Raise e => res = Raise e ∧ l' = l ∧ w' = w ++ [EvGetNewRuns]
  | Ok MinusOne | Ok NoRuns | Ok (Rows []) =>
      res = Ok tt ∧ l' = l ∧ w' = w ++ [EvGetNewRuns]
  | Ok (Rows rows) => admission_result rows l (w ++ [EvGetNewRuns]) res l' w'
  end.
Proof.
  intros [(e & He & -> & -> & ->)|[Hok Hres]]%get_incomplete_runs_inv.
  { by rewrite He. }
  destruct (get_new_runs env w) as [[| |rows]|e]; [| | |done]; cbn [fetched] in Hres.
  - destruct res as [[]|e]; [|by destruct Hres as (k & row & n & [=] & _)].
    destruct Hres as [-> ->]. cbn. by rewrite !app_nil_r.
  - destruct res as [[]|e]; [|by destruct Hres as (k & row & n & [=] & _)].
    destruct Hres as [-> ->]. cbn. by rewrite !app_nil_r.
  - destruct rows as [|row rows]; [|done].
    destruct res as [[]|e]; [|by destruct Hres as (k & row & n & [=] & _)].
    destruct Hres as [-> ->]. cbn. by rewrite !app_nil_r.
Qed.

Lemma admission_is_not_guarded_witness :
  ∃ res l' w',
    get_incomplete_runs (slack_fails_env [sample_row; sample_row_incomplete])
      ([], []) = (res, (l', w'))
    ∧ admission_result [sample_row; sample_row_incomplete] []
        ([] ++ [EvGetNewRuns]) res l' w'.
Proof.
  destruct (get_incomplete_runs (slack_fails_env [sample_row; sample_row_incomplete])
              ([], [])) as [res [l' w']] eqn:H.
  pose proof (admission_is_not_guarded _ _ _ _ _ _ H) as Hres.
  exists res, l', w'. split; [reflexivity|exact Hres].
Defined.

(** ** Which calls are made where *)

Lemma emits_weaken {S A} (P Q : Event → bool) (m : M (S * World) A) :
  (∀ ev, P ev = true → Q ev = true) → emits P m → emits Q m.
Proof.
  intros HPQ Hm s w r s' w' H. destruct (Hm _ _ _ _ _ H) as (evs & -> & Hevs).
  exists evs. split; [done|]. rewrite forallb_forall in Hevs |- *. auto.
Qed.

Lemma emits_ret {S A} P (a : A) : emits (S:=S) P (mret a).
Proof. intros s w r s' w' [= <- <- <-]. exists []. by rewrite app_nil_r. Qed.

Lemma emits_raise {S A} P e : emits (S:=S) P (@raise _ A e).
Proof. intros s w r s' w' [= <- <- <-]. exists []. by rewrite app_nil_r. Qed.

Lemma emits_get_run P : emits P get_run.
Proof. intros s w r s' w' [= <- <- <-]. exists []. by rewrite app_nil_r. Qed.

Lemma emits_modify_run P f : emits P (modify_run f).
Proof. intros s w r s' w' [= <- <- <-]. exists []. by rewrite app_nil_r. Qed.

Lemma emits_call {S A} (P : Event → bool) ev (answer : World → Res A) :
  P ev = true → emits (S:=S) P (call ev answer).
Proof.
  intros HP s w r s' w' [= <- <- <-]. exists [ev]. split; [done|].
  cbn. by rewrite HP.
Qed.

Lemma emits_bind {S A B} P (m : M (S * World) A) (k : A → M (S * World) B) :
  emits P m → (∀ a, emits P (k a)) → emits P (m ≫= k).
Proof.
  intros Hm Hk s w r s' w'. unfold_monad.
  destruct (m (s, w)) as [[a|e] [s1 w1]] eqn:Hm1.
  - intros H. destruct (Hm _ _ _ _ _ Hm1) as (evs1 & -> & H1).
    destruct (Hk _ _ _ _ _ _ H) as (evs2 & -> & H2).
    exists (evs1 ++ evs2). rewrite <- app_assoc. split; [done|].
    rewrite forallb_app. by rewrite H1, H2.
  - intros [= <- <- <-]. by eapply Hm.
Qed.

Lemma emits_try_except {S A} P (m : M (S * World) A) h :
  emits P m → (∀ e, emits P (h e)) → emits P (try_except m h).
Proof.
  intros Hm Hh s w r s' w'. unfold try_except.
  destruct (m (s, w)) as [[a|e] [s1 w1]] eqn:Hm1.
  - intros [= <- <- <-]. by eapply Hm.
  - intros H. destruct (Hm _ _ _ _ _ Hm1) as (evs1 & -> & H1).
    destruct (Hh _ _ _ _ _ _ H) as (evs2 & -> & H2).
    exists (evs1 ++ evs2). rewrite <- app_assoc. split; [done|].
    rewrite forallb_app. by rewrite H1, H2.
Qed.

Ltac emits_step :=
  first
    [ apply emits_bind
    | apply emits_try_except
    | apply emits_ret
    | apply emits_raise
    | apply emits_get_run
    | apply emits_modify_run
    | apply emits_call; reflexivity
    | assumption
    | lazymatch goal with
      | |- emits _ _ => fail
      | |- _ => intro
      end
    | match goal with
      | |- emits _ (match ?x with _ => _ end) => destruct x
      | |- emits _ (let _ := _ in _) => cbv zeta
      end ].

Lemma emits_config_item P cfg j : emits P (config_item cfg j).
Proof. unfold config_item. repeat emits_step. Qed.

Lemma emits_send_slack_msg {S} env run_id msg name :
  emits (S:=S) store_or_slack (send_slack_msg env run_id msg name).
Proof. rewrite send_slack_msg_final_msg. by apply emits_call. Qed.

Lemma emits_handle_run env : emits run_call (handle_run env).
Proof.
  unfold handle_run, stage.
  repeat first
    [ emits_step
    | apply emits_config_item
    | apply (emits_weaken store_or_slack); [by intros []|apply emits_send_slack_msg] ].
Qed.

Lemma emits_second_try env no_activity :
  emits run_call (second_try env no_activity).
Proof.
  unfold second_try, recover.
  repeat first [ apply emits_handle_run | emits_step ].
Qed.

Lemma emits_finish_run env : emits store_or_slack (finish_run env).
Proof.
  unfold finish_run. repeat first [ emits_step | apply emits_send_slack_msg ].
Qed.

Lemma emits_schedule_cleanup env : emits store_or_slack (schedule_cleanup env).
Proof. unfold schedule_cleanup. repeat emits_step. Qed.

Lemma store_or_slack_run_call ev : store_or_slack ev = true → run_call ev = true.
Proof. by destruct ev. Qed.

Lemma loop_body_emits env (i : nat) (no_activity : bool) (l : list Run)
    (w : World) (run : Run) res l' w' :
  l !! i = Some run →
  loop_body env i no_activity (l, w) = (res, (l', w')) →
  ∃ evs, w' = w ++ evs ∧ forallb run_call evs = true ∧
         (job_type run = JobType.complete ∨ job_type run = JobType.error →
          forallb store_or_slack evs = true).
Proof.
  intros Hi Hbody.
  assert (Hw : ∀ evs, forallb store_or_slack evs = true →
                      forallb run_call evs = true).
  { intros evs. rewrite !forallb_forall. auto using store_or_slack_run_call. }
  destruct (loop_body_cases _ _ _ _ _ _ _ _ _ Hi Hbody)
    as (run' & _ & [(_ & _ & Hfin & _)|[(_ & _ & [e Hfin] & _)|[(_ & _ & Hsc & _)
       |[(_ & _ & [e Hsc] & _)|(Hc & He & Hst & _)]]]]).
  - destruct (emits_finish_run _ _ _ _ _ _ Hfin) as (evs & -> & H). exists evs. auto.
  - destruct (emits_finish_run _ _ _ _ _ _ Hfin) as (evs & -> & H). exists evs. auto.
  - destruct (emits_schedule_cleanup _ _ _ _ _ _ Hsc) as (evs & -> & H). exists evs. auto.
  - destruct (emits_schedule_cleanup _ _ _ _ _ _ Hsc) as (evs & -> & H). exists evs. auto.
  - destruct (emits_second_try _ _ _ _ _ _ _ Hst) as (evs & -> & H). exists evs.
    split; [done|]. split; [done|]. by intros [?|?].
Qed.

Lemma for_runs_emits env (fuel : nat) :
  ∀ (i : nat) na (l : list Run) (w : World) seen res l' w' seen',
    for_runs env fuel i na (l, w) seen = Some (res, (l', w'), seen') →
    ∃ evs, w' = w ++ evs ∧ forallb run_call evs = true.
Proof.
  induction fuel as [|fuel IH]; intros i na l w seen res l' w' seen'; simpl.
  - destruct (l !! i); [done|]. intros [= <- <- <- <-].
    exists []. by rewrite app_nil_r.
  - destruct (l !! i) as [run|] eqn:Hi.
    2:{ intros [= <- <- <- <-]. exists []. by rewrite app_nil_r. }
    destruct (loop_body env i na (l, w)) as [res1 [l1 w1]] eqn:Hbody.
    destruct (loop_body_emits _ _ _ _ _ _ _ _ _ Hi Hbody) as (evs1 & -> & H1 & _).
    destruct res1 as [[na1 o]|e].
    + intros Hrec. destruct (IH _ _ _ _ _ _ _ _ _ Hrec) as (evs2 & -> & H2).
      exists (evs1 ++ evs2). rewrite <- app_assoc. split; [done|].
      rewrite forallb_app. by rewrite H1, H2.
    + intros [= <- <- <- <-]. by exists evs1.
Qed.

Lemma emits_accept_row env row : emits admission_call (accept_row env row).
Proof.
  intros l w res l' w' H.
  destruct (accept_row_cases _ _ _ _ _ _ _ H) as [_ Hw].
  assert (Hall : forallb admission_call (admission_events row) = true).
  { unfold admission_events. by destruct (decide (has_required row)). }
  destruct res as [[]|e].
  - by exists (admission_events row).
  - destruct Hw as (n & _ & ->). exists (take n (admission_events row)).
    split; [done|]. rewrite forallb_forall in Hall |- *.
    intros ev Hev. apply Hall. apply list_elem_of_In.
    apply list_elem_of_In, elem_of_take in Hev as (j & Hj & _).
    by eapply list_elem_of_lookup_2.
Qed.

Lemma emits_accept_rows env rows : emits admission_call (accept_rows env rows).
Proof.
  induction rows as [|row rows IH]; cbn [accept_rows].
  - apply emits_ret.
  - apply emits_bind; [apply emits_accept_row|by intros _].
Qed.

Lemma emits_get_incomplete_runs env : emits admission_call (get_incomplete_runs env).
Proof.
  unfold get_incomplete_runs.
  apply emits_bind; [by apply emits_call|].
  intros [| |rows]; [apply emits_ret|apply emits_ret|apply emits_accept_rows].
Qed.

(** X14.  Which collaborator is called where, whether the code returns or
    raises.  [get_incomplete_runs] calls the fetch of new runs, status
    writes and Slack, and never the cluster driver or the configuration.
    [handle_run], and the whole loop over the table, never fetch new runs
    and never sleep.  Finalising a [complete] run and scheduling the cleanup
    of an [error] run only write a status or post to Slack: they never
    create, inspect or delete a job. *)
Theorem calls_stay_in_their_place env :
  emits admission_call (get_incomplete_runs env)
  ∧ emits run_call (handle_run env)
  ∧ emits store_or_slack (finish_run env)
  ∧ emits store_or_slack (schedule_cleanup env)
  ∧ (∀ (fuel i : nat) na (l : list Run) (w : World) seen res l' w' seen',
       for_runs env fuel i na (l, w) seen = Some (res, (l', w'), seen') →
       ∃ evs, w' = w ++ evs ∧ forallb run_call evs = true).
Proof.
  split; [apply emits_get_incomplete_runs|].
  split; [apply emits_handle_run|].
  split; [apply emits_finish_run|].
  split; [apply emits_schedule_cleanup|].
  intros fuel. apply for_runs_emits.
Qed.

Lemma calls_stay_in_their_place_witness :
  (∃ res l' w' evs,
     get_incomplete_runs (slack_fails_env [sample_row]) ([], []) = (res, (l', w'))
     ∧ w' = [] ++ evs ∧ forallb admission_call evs = true)
  ∧ (∃ res l' w' seen' evs,
       for_runs hostile_env 4 0 true (sample_table, []) [] =
         Some (res, (l', w'), seen')
       ∧ w' = [] ++ evs ∧ forallb run_call evs = true).
Proof.
  split.
  - destruct (get_incomplete_runs (slack_fails_env [sample_row]) ([], []))
      as [res [l' w']] eqn:H.
    destruct (proj1 (calls_stay_in_their_place _) _ _ _ _ _ H) as (evs & Hw & Hevs).
    exists res, l', w', evs. split; [reflexivity|]. split; [exact Hw|exact Hevs].
  - destruct (for_runs hostile_env 4 0 true (sample_table, []) [])
      as [[[res [l' w']] seen']|] eqn:H; [|vm_compute in H; discriminate H].
    destruct (proj2 (proj2 (proj2 (proj2 (calls_stay_in_their_place _))))
                _ _ _ _ _ _ _ _ _ _ H) as (evs & Hw & Hevs).
    exists res, l', w', seen', evs.
    split; [reflexivity|]. split; [exact Hw|exact Hevs].
Defined.

(** ** The sleeps of the loop *)

Lemma sleeps_of_app (w1 w2 : World) :
  sleeps_of (w1 ++ w2) = sleeps_of w1 ++ sleeps_of w2.
Proof.
  induction w1 as [|ev w1 IH]; [done|].
  destruct ev; cbn; by rewrite IH.
Qed.

Lemma sleeps_of_quiet (evs : World) :
  forallb not_sleep evs = true → sleeps_of evs = [].
Proof.
  induction evs as [|ev evs IH]; [done|].
  cbn [forallb]. intros [Hev Hevs]%andb_prop.
  destruct ev; cbn; try by apply IH. done.
Qed.

Lemma quiet_weaken (P : Event → bool) (evs : World) :
  (∀ ev, P ev = true → not_sleep ev = true) →
  forallb P evs = true → forallb not_sleep evs = true.
Proof. intros HP. rewrite !forallb_forall. auto. Qed.

Lemma backoff_cases env (no_activity : bool) (c : Z) c' t :
  0 ≤ c ≤ 9 →
  backoff env no_activity c = (c', t) →
  (c = 9 ∧ c' = 9 ∧ no_activity = true ∧ t = POLL_LONG_SLEEP (k8s_config env))
  ∨ (t = POLL_SHORT_SLEEP (k8s_config env) ∧
     ((no_activity = false ∧ c' = 0) ∨ (no_activity = true ∧ c' = c + 1 ∧ c < 9))).
Proof.
  intros Hc. unfold backoff. destruct no_activity.
  - destruct (10 <=? c + 1) eqn:Hle; intros [= <- <-].
    + apply Z.leb_le in Hle. left. repeat split; lia.
    + apply Z.leb_gt in Hle. right. split; [done|]. right. repeat split; lia.
  - change (10 <=? 0) with false. intros [= <- <-]. right. split; [done|]. by left.
Qed.

Lemma tick_Ok_inv env (c : Z) (l : list Run) (w : World) c' l' w' seen :
  tick env c (l, w) = Some (Ok c', (l', w'), seen) →
  ∃ evs no_activity t,
    backoff env no_activity c = (c', t) ∧
    w' = w ++ evs ++ [EvSleep t] ∧
    forallb not_sleep evs = true.
Proof.
  unfold tick.
  destruct (get_incomplete_runs env (l, w)) as [[[]|e] [l1 w1]] eqn:Hget; [|done].
  destruct (emits_get_incomplete_runs _ _ _ _ _ _ Hget) as (evs1 & -> & H1).
  cbn [fst snd].
  destruct (for_runs env (length l1) 0 true (l1, w ++ evs1) [])
    as [[[[na|e] [l2 w2]] seen2]|] eqn:Hfor; [|done|done].
  destruct (for_runs_emits _ _ _ _ _ _ _ _ _ _ _ Hfor) as (evs2 & -> & H2).
  destruct (backoff env na c) as [c1 t] eqn:Hb. cbn [fst snd].
  intros [= <- <- <- <-]. exists (evs1 ++ evs2), na, t.
  split; [done|]. split; [by rewrite <- !app_assoc|].
  rewrite forallb_app.
  rewrite (quiet_weaken admission_call evs1) by (by intros [] || done).
  by rewrite (quiet_weaken run_call evs2) by (by intros [] || done).
Qed.

(** X15.  The sleeps of [run].  From a counter of idle turns between 0 and
    9 (it starts at 0), after any number of turns that all returned the
    counter is again between 0 and 9, the loop has slept once for every
    turn and nowhere else, every sleep was [POLL_SHORT_SLEEP] or
    [POLL_LONG_SLEEP], and the first [9 - counter] of them were
    [POLL_SHORT_SLEEP]: from the start of [run] the long interval is not used
    in the first nine turns. *)
Theorem sleeps_once_a_turn env (n : nat) (c0 : Z) (l : list Run) (w : World)
    c l' w' :
  0 ≤ c0 ≤ 9 →
  run_for env n c0 (l, w) = Some (Ok c, (l', w')) →
  0 ≤ c ≤ 9 ∧
  ∃ ts,
    sleeps_of w' = sleeps_of w ++ ts ∧
    length ts = n ∧
    (∀ t, t ∈ ts → t = POLL_SHORT_SLEEP (k8s_config env)
                   ∨ t = POLL_LONG_SLEEP (k8s_config env)) ∧
    (∀ (k : nat) t, ts !! k = Some t → Z.of_nat k < 9 - c0 →
                    t = POLL_SHORT_SLEEP (k8s_config env)).
Proof.
  revert c0 l w c l' w'.
  induction n as [|n IH]; intros c0 l w c l' w' Hc0; cbn [run_for].
  - intros [= <- <- <-]. split; [done|]. exists []. rewrite app_nil_r.
    split; [done|]. split; [done|]. split; [by intros t ?%elem_of_nil|done].
  - destruct (tick env c0 (l, w)) as [[[[c1|e] [l1 w1]] seen]|] eqn:Htick;
      [|done|done].
    destruct (tick_Ok_inv _ _ _ _ _ _ _ _ Htick) as (evs & na & t & Hb & -> & Hq).
    pose proof (backoff_cases _ _ _ _ _ Hc0 Hb) as Hcases.
    assert (Hc1 : 0 ≤ c1 ≤ 9) by lia.
    intros Hrec. destruct (IH _ _ _ _ _ _ Hc1 Hrec) as (Hc & ts & Hs & Hlen & Hall & Hshort).
    split; [done|]. exists (t :: ts).
    split.
    { rewrite Hs, !sleeps_of_app, (sleeps_of_quiet evs Hq). cbn.
      by rewrite <- app_assoc. }
    split; [cbn; by rewrite Hlen|].
    split.
    + intros t' [->|Ht']%elem_of_cons; [|by apply Hall].
      destruct Hcases as [(_ & _ & _ & ->)|[-> _]]; auto.
    + intros [|k] t' Hk Hlt; cbn in Hk.
      * injection Hk as <-. destruct Hcases as [(? & _)|[-> _]]; [lia|done].
      * apply (Hshort k t' Hk). lia.
Qed.

Lemma sleeps_once_a_turn_witness :
  ∃ c l' w' ts,
    run_for (sample_env (None, "Succeeded") []) 12 0 ([], []) = Some (Ok c, (l', w'))
    ∧ 0 ≤ c ≤ 9
    ∧ sleeps_of w' = sleeps_of [] ++ ts
    ∧ length ts = 12%nat.
Proof.
  destruct (run_for (sample_env (None, "Succeeded") []) 12 0 ([], []))
    as [[[c|e] [l' w']]|] eqn:H;
    [|vm_compute in H; discriminate H|vm_compute in H; discriminate H].
  destruct (sleeps_once_a_turn _ _ 0 _ _ _ _ _ ltac:(lia) H)
    as (Hc & ts & Hs & Hlen & _).
  exists c, l', w', ts. split; [reflexivity|]. split; [exact Hc|].
  split; [exact Hs|exact Hlen].
Defined.

(** ** The job types a run goes through *)

Lemma run_moves_refl (r : Run) : run_moves r r.
Proof. by left. Qed.

Lemma run_moves_trans (r1 r2 r3 : Run) :
  run_moves r1 r2 → run_moves r2 r3 → run_moves r1 r3.
Proof.
  unfold run_moves. intros [H12|H12] [H23|H23]; [left|right|right|right]; congruence.
Qed.

Lemma moves_ret {A} (a : A) : moves (mret a).
Proof. intros run w r run' w' [= _ <- _]. apply run_moves_refl. Qed.

Lemma moves_raise {A} e : moves (@raise _ A e).
Proof. intros run w r run' w' [= _ <- _]. apply run_moves_refl. Qed.

Lemma moves_get_run : moves get_run.
Proof. intros run w r run' w' [= _ <- _]. apply run_moves_refl. Qed.

Lemma moves_call {A} ev (answer : World → Res A) : moves (call ev answer).
Proof. intros run w r run' w' [= _ <- _]. apply run_moves_refl. Qed.

Lemma moves_modify_run f :
  (∀ r, run_moves r (f r)) → moves (modify_run f).
Proof. intros Hf run w r run' w' [= _ <- _]. apply Hf. Qed.

Lemma moves_bind {A B} (m : M (Run * World) A) (k : A → M (Run * World) B) :
  moves m → (∀ a, moves (k a)) → moves (m ≫= k).
Proof.
  intros Hm Hk run w r run' w'. unfold_monad.
  destruct (m (run, w)) as [[a|e] [run1 w1]] eqn:Hm1.
  - intros H. eapply run_moves_trans; [by eapply Hm|by eapply Hk].
  - intros [= _ <- _]. by eapply Hm.
Qed.

Lemma moves_try_except {A} (m : M (Run * World) A) h :
  moves m → (∀ e, moves (h e)) → moves (try_except m h).
Proof.
  intros Hm Hh run w r run' w'. unfold try_except.
  destruct (m (run, w)) as [[a|e] [run1 w1]] eqn:Hm1.
  - intros [= _ <- _]. by eapply Hm.
  - intros H. eapply run_moves_trans; [by eapply Hm|by eapply Hh].
Qed.

Ltac moves_step :=
  first
    [ apply moves_bind
    | apply moves_try_except
    | apply moves_ret
    | apply moves_raise
    | apply moves_get_run
    | apply moves_call
    | apply moves_modify_run; intro;
      first [ by left | by right ]
    | assumption
    | lazymatch goal with
      | |- moves _ => fail
      | |- _ => intro
      end
    | match goal with
      | |- moves (match ?x with _ => _ end) => destruct x
      | |- moves (let _ := _ in _) => cbv zeta
      end ].

Lemma moves_config_item cfg j : moves (config_item cfg j).
Proof. unfold config_item. repeat moves_step. Qed.

Lemma moves_send_slack_msg env run_id msg name :
  moves (send_slack_msg env run_id msg name).
Proof. unfold send_slack_msg. repeat moves_step. Qed.

Ltac moves :=
  repeat first
    [ moves_step
    | apply moves_config_item
    | apply moves_send_slack_msg ].

Lemma moves_handle_run env : moves (handle_run env).
Proof. unfold handle_run, stage. moves. Qed.

Lemma moves_second_try env no_activity : moves (second_try env no_activity).
Proof. unfold second_try, recover. moves. Qed.

Lemma moves_finish_run env : moves (finish_run env).
Proof. unfold finish_run. moves. Qed.

Lemma moves_schedule_cleanup env : moves (schedule_cleanup env).
Proof. unfold schedule_cleanup. moves. Qed.

Lemma loop_body_moves env (i : nat) (no_activity : bool) (l : list Run)
    (w : World) (run : Run) res l' w' :
  l !! i = Some run →
  loop_body env i no_activity (l, w) = (res, (l', w')) →
  ∀ r', r' ∈ l' → ∃ r, r ∈ l ∧ run_grows r r' ∧ run_moves r r'.
Proof.
  intros Hi Hbody.
  assert (Hins : ∀ run', run_grows run run' → run_moves run run' →
            ∀ r', r' ∈ <[i:=run']> l → ∃ r, r ∈ l ∧ run_grows r r' ∧ run_moves r r').
  { intros run' Hg Hm r' [j Hj]%list_elem_of_lookup_1.
    destruct (decide (i = j)) as [->|Hne].
    - rewrite list_lookup_insert_eq in Hj by (by eapply lookup_lt_Some).
      injection Hj as <-. exists run. split; [by eapply list_elem_of_lookup_2|done].
    - rewrite list_lookup_insert_ne in Hj by done.
      exists r'. split; [by eapply list_elem_of_lookup_2|].
      split; [apply run_grows_refl|apply run_moves_refl]. }
  destruct (loop_body_cases _ _ _ _ _ _ _ _ _ Hi Hbody)
    as (run' & _ & [(_ & _ & Hfin & Hrm)|[(_ & _ & [e Hfin] & ->)|[(_ & _ & Hsc & ->)
       |[(_ & _ & [e Hsc] & ->)|(_ & _ & Hst & ->)]]]]).
  - intros r' Hr'.
    apply (Hins run'); [by eapply grows_finish_run|by eapply moves_finish_run|].
    by eapply list_remove_subseteq.
  - apply Hins; [by eapply grows_finish_run|by eapply moves_finish_run].
  - apply Hins; [by eapply grows_schedule_cleanup|by eapply moves_schedule_cleanup].
  - apply Hins; [by eapply grows_schedule_cleanup|by eapply moves_schedule_cleanup].
  - apply Hins; [by eapply grows_second_try|by eapply moves_second_try].
Qed.

Lemma for_runs_moves env (fuel : nat) :
  ∀ (i : nat) na (l : list Run) (w : World) seen res l' w' seen',
    for_runs env fuel i na (l, w) seen = Some (res, (l', w'), seen') →
    ∀ r', r' ∈ l' → ∃ r, r ∈ l ∧ run_grows r r' ∧ run_moves r r'.
Proof.
  assert (Hrefl : ∀ (l : list Run) r', r' ∈ l →
            ∃ r, r ∈ l ∧ run_grows r r' ∧ run_moves r r').
  { intros l r' Hr'. exists r'. split; [done|].
    split; [apply run_grows_refl|apply run_moves_refl]. }
  induction fuel as [|fuel IH]; intros i na l w seen res l' w' seen'; simpl.
  - destruct (l !! i); [done|]. intros [= _ <- _ _]. apply Hrefl.
  - destruct (l !! i) as [run|] eqn:Hi.
    + destruct (loop_body env i na (l, w)) as [[[na1 o]|e] [l1 w1]] eqn:Hbody.
      * intros Hrec r' Hr'.
        destruct (IH _ _ _ _ _ _ _ _ _ Hrec r' Hr') as (r1 & Hr1 & Hg1 & Hm1).
        destruct (loop_body_moves _ _ _ _ _ _ _ _ _ Hi Hbody r1 Hr1)
          as (r & Hr & Hg & Hm).
        exists r. split; [done|].
        split; [by eapply run_grows_trans|by eapply run_moves_trans].
      * intros [= _ <- _ _]. by eapply loop_body_moves.
    + intros [= _ <- _ _]. apply Hrefl.
Qed.

Lemma in_pipeline_accepted (row : Row) (r : Run) :
  r ∈ accepted row → in_pipeline r.
Proof.
  unfold accepted. destruct (decide (has_required row)); [|by intros ?%elem_of_nil].
  intros ->%list_elem_of_singleton. split; [by left|]. by exists "".
Qed.

Lemma in_pipeline_later (r r' : Run) :
  in_pipeline r → run_grows r r' → run_moves r r' → in_pipeline r'.
Proof.
  intros [Hj [s Hs]] (_ & _ & _ & _ & [s' Hs']) Hm. split.
  - destruct Hm as [->|Hm]; [done|by right].
  - exists (s +:+ s'). by rewrite Hs', Hs, str_app_assoc.
Qed.

Lemma get_incomplete_runs_table env (l : list Run) (w : World) res l' w' :
  get_incomplete_runs env (l, w) = (res, (l', w')) →
  ∀ r, r ∈ l' → r ∈ l ∨ ∃ row, r ∈ accepted row.
Proof.
  assert (Hcat : ∀ (rows : list Row) r, r ∈ concat (map accepted rows) →
            ∃ row, r ∈ accepted row).
  { intros rows r. induction rows as [|row rows IH]; cbn.
    - by intros ?%elem_of_nil.
    - intros [?|?]%elem_of_app; [by exists row|by apply IH]. }
  intros [(e & _ & _ & -> & _)|[_ Hres]]%get_incomplete_runs_inv r; [by left|].
  destruct res as [[]|e]; cbn in Hres.
  - destruct Hres as [-> _]. intros [?|?]%elem_of_app; [by left|right; eauto].
  - destruct Hres as (k & row & n & _ & _ & -> & _).
    intros [?|?]%elem_of_app; [by left|right; eauto].
Qed.

Lemma tick_table env (c : Z) (l : list Run) (w : World) res l' w' seen :
  Forall in_pipeline l →
  tick env c (l, w) = Some (res, (l', w'), seen) →
  Forall in_pipeline l'.
Proof.
  intros Hl. unfold tick.
  destruct (get_incomplete_runs env (l, w)) as [res1 [l1 w1]] eqn:Hget.
  assert (Hl1 : Forall in_pipeline l1).
  { apply Forall_forall. intros r Hr.
    destruct (get_incomplete_runs_table _ _ _ _ _ _ Hget r Hr) as [Hin|[row Hrow]].
    - by eapply (proj1 (Forall_forall _ _) Hl).
    - by eapply in_pipeline_accepted. }
  assert (Hfor : ∀ fuel i na s seen0 res2 l2 w2 seen2,
            for_runs env fuel i na (l1, s) seen0 = Some (res2, (l2, w2), seen2) →
            Forall in_pipeline l2).
  { intros fuel i na s seen0 res2 l2 w2 seen2 H. apply Forall_forall. intros r' Hr'.
    destruct (for_runs_moves _ _ _ _ _ _ _ _ _ _ _ H r' Hr') as (r & Hr & Hg & Hm).
    eapply in_pipeline_later; [|done..].
    by eapply (proj1 (Forall_forall _ _) Hl1). }
  destruct res1 as [[]|e]; [|by intros [= _ <- _ _]].
  cbn [fst snd].
  destruct (for_runs env (length l1) 0 true (l1, w1) [])
    as [[[[na|e] [l2 w2]] seen2]|] eqn:H2; [| |done].
  - destruct (backoff env na c). cbn [fst snd]. intros [= _ <- _ _]. by eapply Hfor.
  - intros [= _ <- _ _]. by eapply Hfor.
Qed.

Lemma run_for_table env (n : nat) :
  ∀ (c : Z) (l : list Run) (w : World) res l' w',
    Forall in_pipeline l →
    run_for env n c (l, w) = Some (res, (l', w')) →
    Forall in_pipeline l'.
Proof.
  induction n as [|n IH]; intros c l w res l' w' Hl; cbn [run_for].
  - by intros [= _ <- _].
  - destruct (tick env c (l, w)) as [[[[c1|e] [l1 w1]] seen]|] eqn:Htick; [| |done].
    + apply IH. by eapply tick_table.
    + intros [= _ <- _]. by eapply tick_table.
Qed.

(** X16.  The job types a run of the table can be in.  [handle_run],
    whether it returns or raises, leaves the job type of the run as it was
    or sets it to one of [obs_mod], [run_geo_tiff], [compute_mbtiles_0_9],
    [load_geo_server], [final_staging], [complete], [error].  And over any
    number of turns of [run], whether the last returns or raises, from a
    table whose runs are in [staging] or in one of these job types with a
    provenance that starts with "New, Run accepted" ([run] starts with the
    empty table): every run of the table is again such a run.  So no run of
    the table is ever in [compute_mbtiles_10], [compute_mbtiles_11],
    [compute_mbtiles_12] or [other_1]. *)
Theorem runs_stay_in_the_pipeline env :
  (∀ (run : Run) (w : World) r run' w',
     handle_run env (run, w) = (r, (run', w')) →
     job_type run' = job_type run ∨ assigned (job_type run') = true)
  ∧ (∀ (n : nat) (c : Z) (l : list Run) (w : World) res l' w',
       Forall in_pipeline l →
       run_for env n c (l, w) = Some (res, (l', w')) →
       Forall in_pipeline l'
       ∧ ∀ r, r ∈ l' →
           job_type r ∉ [JobType.compute_mbtiles_10; JobType.compute_mbtiles_11;
                         JobType.compute_mbtiles_12; JobType.other_1]).
Proof.
  split; [apply moves_handle_run|].
  intros n c l w res l' w' Hl H.
  pose proof (run_for_table _ _ _ _ _ _ _ _ Hl H) as Hl'.
  split; [done|]. intros r Hr.
  destruct (proj1 (Forall_forall _ _) Hl' r Hr) as [[Hj|Hj] _].
  - rewrite Hj. by apply (bool_decide_unpack _).
  - destruct (job_type r); try discriminate Hj; by apply (bool_decide_unpack _).
Qed.

Lemma runs_stay_in_the_pipeline_witness :
  ∃ res l' w',
    run_for (sample_env (None, "Succeeded") [sample_row]) 5 0 ([], []) =
      Some (res, (l', w'))
    ∧ Forall in_pipeline l'.
Proof.
  destruct (run_for (sample_env (None, "Succeeded") [sample_row]) 5 0 ([], []))
    as [[res [l' w']]|] eqn:H; [|vm_compute in H; discriminate H].
  destruct (proj2 (runs_stay_in_the_pipeline _) _ _ _ _ _ _ _ (Forall_nil_2 _) H)
    as [Hl' _].
  exists res, l', w'. split; [reflexivity|exact Hl'].
Defined.

(** ** How the end of a run is reported *)

Lemma contains_here (x post : string) : contains (x +:+ post) x.
Proof. by exists "", post. Qed.

Lemma contains_app_r (p s x : string) : contains s x → contains (p +:+ s) x.
Proof.
  intros (pre & post & ->). exists (p +:+ pre), post. by rewrite str_app_assoc.
Qed.

Lemma contains_app_l (s q x : string) : contains s x → contains (s +:+ q) x.
Proof.
  intros (pre & post & ->). exists pre, (post +:+ q). by rewrite !str_app_assoc.
Qed.

Lemma schedule_cleanup_marks env (run : Run) (w : World) res run' w' :
  schedule_cleanup env (run, w) = (res, (run', w')) →
  status_prov run' = status_prov run +:+ ", Error detected".
Proof.
  destruct (update_job_status env w (id run) (status_prov run +:+ ", Error detected"))
    as [[]|e] eqn:Hup.
  - rewrite schedule_cleanup_Ok by done. by intros [= _ <- _].
  - rewrite (schedule_cleanup_Raise _ _ _ e) by done. by intros [= _ <- _].
Qed.

Lemma finish_run_posts env (run : Run) (w : World) :
  let prov := status_prov run +:+ ", Run complete" in
  let text := final_msg (id run) (complete_msg prov) (Some (instance_name run)) in
  update_job_status env w (id run) prov = Ok tt →
  finish_run env (run, w) =
    (chat_postMessage env (w ++ [EvUpdateJobStatus (id run) prov]) text,
     (set_status_prov prov run,
      w ++ [EvUpdateJobStatus (id run) prov; EvChatPostMessage text])).
Proof.
  intros prov text Hup. unfold finish_run.
  unfold_monad. unfold modify_run, get_run, pg_update_job_status, call at 1. cbn [fst snd].
  cbn [set_status_prov id status_prov instance_name].
  fold prov. rewrite Hup. fold (complete_msg prov).
  rewrite send_slack_msg_final_msg. fold text. unfold call. cbn [fst snd].
  by rewrite <- app_assoc.
Qed.

(** X17.  An error is remembered to the end.  When the loop has taken a
    run in [error], whether its status write returned or raised, and
    whatever is appended to the provenance afterwards: when the run is
    finalised and the status write returns, the provenance written is the
    one the run had with ", Run complete" appended, it contains
    ", Error detected", and the message handed to Slack says "completed
    unsuccessfully" and quotes that provenance. *)
Theorem error_is_remembered env (run : Run) (w : World) res run1 w1
    (run2 : Run) (w2 : World) :
  schedule_cleanup env (run, w) = (res, (run1, w1)) →
  run_grows run1 run2 →
  update_job_status env w2 (id run2) (status_prov run2 +:+ ", Run complete") = Ok tt →
  ∃ res' run3 text,
    finish_run env (run2, w2) =
      (res', (run3, w2 ++ [EvUpdateJobStatus (id run3) (status_prov run3);
                           EvChatPostMessage text]))
    ∧ status_prov run3 = status_prov run2 +:+ ", Run complete"
    ∧ contains (status_prov run3) ", Error detected"
    ∧ contains text "*completed unsuccessfully*."
    ∧ contains text (status_prov run3).
Proof.
  intros Hsc (_ & _ & _ & _ & [suffix Hg]) Hup.
  apply schedule_cleanup_marks in Hsc.
  set (prov := status_prov run2 +:+ ", Run complete").
  assert (Hmark : contains prov ", Error detected").
  { unfold prov. rewrite Hg, Hsc. apply contains_app_l, contains_app_l.
    apply contains_app_r. rewrite <- (str_app_nil_r ", Error detected") at 1.
    apply contains_here. }
  assert (Herr : contains prov "Error").
  { destruct Hmark as (pre & post & ->).
    apply contains_app_r. apply contains_app_l.
    apply (contains_app_r ", "). apply (contains_here "Error" " detected"). }
  exists (chat_postMessage env (w2 ++ [EvUpdateJobStatus (id run2) prov])
            (final_msg (id run2) (complete_msg prov) (Some (instance_name run2)))),
         (set_status_prov prov run2),
         (final_msg (id run2) (complete_msg prov) (Some (instance_name run2))).
  split; [by apply finish_run_posts|].
  cbn [status_prov set_status_prov].
  split; [done|]. split; [done|].
  unfold final_msg, complete_msg.
  destruct (PyStr.find prov "Error" =? -1) eqn:Hfind.
  { apply Z.eqb_eq, find_spec in Hfind. by destruct Hfind. }
  split.
  - do 5 apply contains_app_r. apply contains_here.
  - do 8 apply contains_app_r. apply contains_here.
Qed.

Lemma error_is_remembered_witness :
  ∃ res run1 w1 res' run3 text,
    schedule_cleanup (sample_env (None, "Succeeded") []) (sample_error_run, []) =
      (res, (run1, w1))
    ∧ finish_run (sample_env (None, "Succeeded") []) (run1, w1) =
        (res', (run3, w1 ++ [EvUpdateJobStatus (id run3) (status_prov run3);
                             EvChatPostMessage text]))
    ∧ contains text "*completed unsuccessfully*.".
Proof.
  destruct (schedule_cleanup (sample_env (None, "Succeeded") []) (sample_error_run, []))
    as [res [run1 w1]] eqn:H.
  destruct (error_is_remembered _ _ _ _ _ _ run1 w1 H (run_grows_refl run1) eq_refl)
    as (res' & run3 & text & Hfin & _ & _ & Htext & _).
  exists res, run1, w1, res', run3, text.
  split; [reflexivity|]. split; [exact Hfin|exact Htext].
Defined.

(** ** Every run has its turn *)

Lemma loop_body_ids env (i : nat) (no_activity : bool) (l : list Run)
    (w : World) (run : Run) res l' w' :
  l !! i = Some run →
  loop_body env i no_activity (l, w) = (res, (l', w')) →
  (∀ na, res ≠ Ok (na, RunComplete)) →
  id <$> l' = id <$> l.
Proof.
  intros Hi Hbody Hres.
  assert (Hins : ∀ run', id run' = id run → id <$> <[i:=run']> l = id <$> l).
  { intros run' Hid. rewrite list_fmap_insert, Hid.
    apply list_insert_id. by rewrite list_lookup_fmap, Hi. }
  destruct (loop_body_cases _ _ _ _ _ _ _ _ _ Hi Hbody)
    as (run' & Hid & [(_ & -> & _)|[(_ & _ & _ & ->)|[(_ & _ & _ & ->)
       |[(_ & _ & _ & ->)|(_ & _ & _ & ->)]]]]); [|by apply Hins..].
  by destruct (Hres no_activity).
Qed.

Lemma for_runs_all env (fuel : nat) :
  ∀ (i : nat) na (l : list Run) (w : World) seen na' l' w' seen',
    for_runs env fuel i na (l, w) seen = Some (Ok na', (l', w'), seen') →
    ∃ new,
      seen' = seen ++ new ∧
      (finalised new = 0%nat →
       new.*1 = id <$> drop i l ∧ id <$> l' = id <$> l).
Proof.
  induction fuel as [|fuel IH]; intros i na l w seen na' l' w' seen'; simpl.
  - destruct (l !! i) eqn:Hi; [done|]. intros [= <- <- <- <-].
    exists []. rewrite app_nil_r. split; [done|]. intros _.
    by rewrite drop_ge by (by apply lookup_ge_None).
  - destruct (l !! i) as [run|] eqn:Hi.
    2:{ intros [= <- <- <- <-]. exists []. rewrite app_nil_r. split; [done|].
        intros _. by rewrite drop_ge by (by apply lookup_ge_None). }
    destruct (loop_body env i na (l, w)) as [[[na1 o]|e] [l1 w1]] eqn:Hbody; [|done].
    intros Hrec. destruct (IH _ _ _ _ _ _ _ _ _ Hrec) as (new & -> & Hnew).
    exists ((id run, o) :: new). rewrite <- app_assoc. split; [done|].
    rewrite finalised_cons. intros Hfin.
    destruct (decide (o = RunComplete)) as [|Ho]; [lia|].
    assert (Hfin' : finalised new = 0%nat) by lia.
    assert (Hids : id <$> l1 = id <$> l).
    { eapply loop_body_ids; [done..|]. intros na2 [= _ ->]. done. }
    destruct (Hnew Hfin') as [Hn Hl']. split.
    + rewrite fmap_cons. cbn [fst]. rewrite Hn.
      rewrite (drop_S l run i Hi), fmap_cons.
      by rewrite !fmap_drop, Hids.
    + by rewrite Hl'.
Qed.

(** X18.  Every run has its turn.  In a turn of [run] that reaches its
    sleep and finalises no run, the runs evaluated are, in this order and
    each once, the runs the table had before the turn and then the runs
    accepted in the turn: a run accepted in a turn is handled in the same
    turn.  After the turn the table has these same runs in the same order:
    a run leaves the table only by being finalised. *)
Theorem every_run_has_its_turn env (c : Z) (l : list Run) (w : World)
    c' l' w' (seen : Evaluated) :
  tick env c (l, w) = Some (Ok c', (l', w'), seen) →
  finalised seen = 0%nat →
  seen.*1 =
    (id <$> l) ++ (id <$> concat (map accepted (fetched (get_new_runs env w))))
  ∧ id <$> l' = seen.*1.
Proof.
  unfold tick.
  destruct (get_incomplete_runs env (l, w)) as [[[]|e] [l1 w1]] eqn:Hget; [|done].
  apply get_incomplete_runs_inv in Hget as [(e & _ & [=] & _)|[_ [-> _]]].
  cbn [fst snd].
  set (l1 := l ++ concat (map accepted (fetched (get_new_runs env w)))).
  destruct (for_runs env (length l1) 0 true (l1, w1) [])
    as [[[[na|e] [l2 w2]] seen2]|] eqn:Hfor; [|done|done].
  destruct (backoff env na c) as [c1 t]. cbn [fst snd].
  intros [= <- <- <- <-] Hfin.
  destruct (for_runs_all _ _ _ _ _ _ _ _ _ _ _ Hfor) as (new & Hseen & Hnew).
  cbn in Hseen. subst seen2. destruct (Hnew Hfin) as [-> ->].
  by rewrite drop_0, <- fmap_app.
Qed.

Lemma every_run_has_its_turn_witness :
  ∃ c' l' w' seen,
    tick (sample_env (Some 1, "Running") [sample_row]) 0 ([sample_new_run], []) =
      Some (Ok c', (l', w'), seen)
    ∧ seen.*1 = ["1"; "42"] ∧ id <$> l' = ["1"; "42"].
Proof.
  destruct (tick (sample_env (Some 1, "Running") [sample_row]) 0 ([sample_new_run], []))
    as [[[[c'|e] [l' w']] seen]|] eqn:H;
    [|vm_compute in H; discriminate H|vm_compute in H; discriminate H].
  assert (Hfin : finalised seen = 0%nat).
  { vm_compute in H. injection H as _ _ _ <-. reflexivity. }
  destruct (every_run_has_its_turn _ _ _ _ _ _ _ _ H Hfin) as [Hseen Hl'].
  exists c', l', w', seen. split; [reflexivity|].
  split; [exact Hseen|]. rewrite Hl'. exact Hseen.
Defined.
